(** * Tulsa council document scraper: address decrement, page extraction
      and traversal driver

    A shallow embedding of [scripts/tulsa_council_document_scraper.py]
    ([extract_pdfs], [decrement_item_in_url], [download_documents]) and of
    the parts of the Python standard library that these three functions
    call ([urllib.parse], [int], [str], [str.strip], [str.lower],
    [re.sub] on a character class, [os.path.join], [os.makedirs]).

    Text.  A Python [str] is a [list ascii]: its UTF-8 encoding (a text
    with a lone surrogate has none, and is outside the embedding).  The
    percent-escapes of an address are decoded as [urllib] decodes them,
    as UTF-8 with the errors replaced, and [int] reads the decimal digits
    and the white space of Unicode.  Of the other Unicode tables of the
    interpreter (case mapping, white space of [str.strip], NFKC
    normalisation of host names) the ASCII part alone is modelled: on the
    text of a page the embedding is exact on ASCII text.

    Effects.  The network, the HTML parser and the local file system are
    external: they are the fields of [Env].  A call is a function of a
    [state] (the file system and the trace of events so far) to a new state
    and an [outcome], which is a value or a raised exception. *)

From Stdlib Require Import List Ascii String ZArith Lia Bool.
From Stdlib Require Decimal DecimalString DecimalPos DecimalN DecimalZ DecimalFacts.
Import ListNotations.

Open Scope string_scope.
Open Scope list_scope.
Open Scope Z_scope.

(** ** Text *)

Definition str := list ascii.

Definition lit (s : string) : str := list_ascii_of_string s.
Coercion lit : string >-> str.

Definition code (c : ascii) : Z := Z.of_N (N_of_ascii c).

Fixpoint str_eqb (a b : str) : bool :=
  match a, b with
  | [], [] => true
  | x :: a', y :: b' => Ascii.eqb x y && str_eqb a' b'
  | _, _ => false
  end.

(** [c in s] for a character [c]. *)
Definition mem (c : ascii) (s : str) : bool := existsb (Ascii.eqb c) s.

(** [s.partition(c)] when [c] occurs: the text before the first [c] and
    the text after it. *)
Fixpoint find_split (c : ascii) (s : str) : option (str * str) :=
  match s with
  | [] => None
  | x :: r =>
      if Ascii.eqb x c then Some ([], r)
      else match find_split c r with
           | Some (a, b) => Some (x :: a, b)
           | None => None
           end
  end.

(** [s.rpartition(c)] when [c] occurs: split at the last [c]. *)
Fixpoint rfind_split (c : ascii) (s : str) : option (str * str) :=
  match s with
  | [] => None
  | x :: r =>
      match rfind_split c r with
      | Some (a, b) => Some (x :: a, b)
      | None => if Ascii.eqb x c then Some ([], r) else None
      end
  end.

(** [s.split(c)]: never empty, [""] gives [[""]]. *)
Fixpoint split_on (c : ascii) (s : str) : list str :=
  match s with
  | [] => [[]]
  | x :: r =>
      if Ascii.eqb x c then [] :: split_on c r
      else match split_on c r with
           | f :: fs => (x :: f) :: fs
           | [] => [[x]]
           end
  end.

(** [sep.join(l)] *)
Fixpoint join (sep : str) (l : list str) : str :=
  match l with
  | [] => []
  | a :: r => match r with
              | [] => a
              | _ :: _ => a ++ sep ++ join sep r
              end
  end.

(** [s.replace(a, b)] for single characters. *)
Definition replace_char (a b : ascii) (s : str) : str :=
  map (fun c => if Ascii.eqb c a then b else c) s.

(** [s.replace(a, "")] for a single character. *)
Definition remove_char (a : ascii) (s : str) : str :=
  filter (fun c => negb (Ascii.eqb c a)) s.

Fixpoint lstrip (p : ascii -> bool) (s : str) : str :=
  match s with
  | [] => []
  | c :: r => if p c then lstrip p r else s
  end.

Definition rstrip (p : ascii -> bool) (s : str) : str :=
  List.rev (lstrip p (List.rev s)).

Definition strip_with (p : ascii -> bool) (s : str) : str :=
  rstrip p (lstrip p s).

(** White space of [str.strip()] on ASCII text: TAB, LF, VT, FF, CR, the
    four separators FS, GS, RS, US and the space. *)
Definition is_space (c : ascii) : bool :=
  let n := code c in
  ((9 <=? n) && (n <=? 13)) || ((28 <=? n) && (n <=? 32)).

(** [s.strip()] *)
Definition strip (s : str) : str := strip_with is_space s.

Definition is_upper (c : ascii) : bool := (65 <=? code c) && (code c <=? 90).
Definition is_lower (c : ascii) : bool := (97 <=? code c) && (code c <=? 122).
Definition is_digit (c : ascii) : bool := (48 <=? code c) && (code c <=? 57).
Definition is_alpha (c : ascii) : bool := is_upper c || is_lower c.

Definition lower_char (c : ascii) : ascii :=
  if is_upper c then ascii_of_N (N_of_ascii c + 32) else c.

(** [s.lower()] *)
Definition lower (s : str) : str := map lower_char s.

(** [s.startswith(p)] *)
Fixpoint starts_with (p s : str) : bool :=
  match p, s with
  | [], _ => true
  | a :: p', b :: s' => Ascii.eqb a b && starts_with p' s'
  | _ :: _, [] => false
  end.

(** [needle in hay] *)
Fixpoint contains (needle hay : str) : bool :=
  starts_with needle hay ||
  match hay with
  | [] => false
  | _ :: r => contains needle r
  end.

(** ** Text above ASCII

    A [str] stands for the UTF-8 encoding of a Python [str]: the ASCII
    characters are single bytes below 128, every other character is a
    sequence of two to four bytes of 128 and more.  The functions that
    cut text at ASCII characters work on the encoding as they do on the
    text. *)

(** The encoding of U+FFFD, the replacement character. *)
Definition replacement : str :=
  [ascii_of_N 239; ascii_of_N 191; ascii_of_N 189].

Definition is_continuation (c : ascii) : bool :=
  (128 <=? code c) && (code c <=? 191).

(** [bytes.decode('utf-8', 'replace')], as the decoder of CPython reads
    a byte sequence: a byte that starts no sequence is replaced; a
    sequence cut short by a byte that cannot continue it is replaced as a
    whole, and that byte is read anew; a sequence cut short by the end of
    the data is replaced.  The state holds the bytes of the sequence under
    way. *)
Inductive utf8_state : Type :=
| Complete
| Lead2 (b0 : ascii)
| Lead3 (b0 : ascii)
| Lead3b (b0 b1 : ascii)
| Lead4 (b0 : ascii)
| Lead4b (b0 b1 : ascii)
| Lead4c (b0 b1 b2 : ascii).

Definition utf8_start (c : ascii) : str * utf8_state :=
  if code c <? 128 then ([c], Complete)
  else if code c <? 194 then (replacement, Complete)
  else if code c <? 224 then ([], Lead2 c)
  else if code c <? 240 then ([], Lead3 c)
  else if code c <? 245 then ([], Lead4 c)
  else (replacement, Complete).

Definition utf8_restart (c : ascii) : str * utf8_state :=
  let '(out, st) := utf8_start c in (replacement ++ out, st).

Definition utf8_step (st : utf8_state) (c : ascii) : str * utf8_state :=
  match st with
  | Complete => utf8_start c
  | Lead2 b0 =>
      if is_continuation c then ([b0; c], Complete) else utf8_restart c
  | Lead3 b0 =>
      if is_continuation c
         && negb (if code c <? 160 then code b0 =? 224 else code b0 =? 237)
      then ([], Lead3b b0 c) else utf8_restart c
  | Lead3b b0 b1 =>
      if is_continuation c then ([b0; b1; c], Complete) else utf8_restart c
  | Lead4 b0 =>
      if is_continuation c
         && negb (if code c <? 144 then code b0 =? 240 else code b0 =? 244)
      then ([], Lead4b b0 c) else utf8_restart c
  | Lead4b b0 b1 =>
      if is_continuation c then ([], Lead4c b0 b1 c) else utf8_restart c
  | Lead4c b0 b1 b2 =>
      if is_continuation c then ([b0; b1; b2; c], Complete)
      else utf8_restart c
  end.

Definition utf8_finish (st : utf8_state) : str :=
  match st with
  | Complete => []
  | _ => replacement
  end.

Fixpoint utf8_decode (st : utf8_state) (s : str) : str :=
  match s with
  | [] => utf8_finish st
  | c :: r => let '(out, st') := utf8_step st c in out ++ utf8_decode st' r
  end.

(** The text that the bytes [s] decode to, the errors replaced. *)
Definition utf8_replace (s : str) : str := utf8_decode Complete s.

(** The white space above ASCII ([Py_UNICODE_ISSPACE]), as code points. *)
Definition unicode_spaces : list Z :=
  [133; 160; 5760; 8192; 8193; 8194; 8195; 8196; 8197; 8198; 8199; 8200;
   8201; 8202; 8232; 8233; 8239; 8287; 12288].

(** The decimal digits above ASCII ([Py_UNICODE_TODECIMAL], Unicode
    14.0): the first and the last code point of each run; in a run the
    digits 0 to 9 follow each other, once or several times. *)
Definition unicode_digit_runs : list (Z * Z) :=
  [(1632, 1641); (1776, 1785); (1984, 1993); (2406, 2415); (2534, 2543);
   (2662, 2671); (2790, 2799); (2918, 2927); (3046, 3055); (3174, 3183);
   (3302, 3311); (3430, 3439); (3558, 3567); (3664, 3673); (3792, 3801);
   (3872, 3881); (4160, 4169); (4240, 4249); (6112, 6121); (6160, 6169);
   (6470, 6479); (6608, 6617); (6784, 6793); (6800, 6809); (6992, 7001);
   (7088, 7097); (7232, 7241); (7248, 7257); (42528, 42537);
   (43216, 43225); (43264, 43273); (43472, 43481); (43504, 43513);
   (43600, 43609); (44016, 44025); (65296, 65305); (66720, 66729);
   (68912, 68921); (69734, 69743); (69872, 69881); (69942, 69951);
   (70096, 70105); (70384, 70393); (70736, 70745); (70864, 70873);
   (71248, 71257); (71360, 71369); (71472, 71481); (71904, 71913);
   (72016, 72025); (72784, 72793); (73040, 73049); (73120, 73129);
   (92768, 92777); (92864, 92873); (93008, 93017); (120782, 120831);
   (123200, 123209); (123632, 123641); (125264, 125273); (130032, 130041)].

Definition unicode_decimal (cp : Z) : option Z :=
  match find (fun r => (fst r <=? cp) && (cp <=? snd r)) unicode_digit_runs
  with
  | Some r => Some ((cp - fst r) mod 10)
  | None => None
  end.

(** What [int()] reads a character above ASCII as: a space, a digit, or
    nothing. *)
Definition numeral_char (cp : Z) : option ascii :=
  if existsb (Z.eqb cp) unicode_spaces then Some " "%char
  else option_map (fun d => ascii_of_N (Z.to_N (48 + d))) (unicode_decimal cp).

(** [_PyUnicode_TransformDecimalAndSpaceToASCII]: the ASCII characters
    are kept, the spaces and the decimal digits above ASCII become a
    space and the ASCII digit; [None] when another character above ASCII
    occurs, which no numeral holds.  [cp] is the part read of the code
    point under way and [need] the number of its bytes to come. *)
Fixpoint transform_decimal_and_space (cp : Z) (need : nat) (s : str)
    : option str :=
  match s with
  | [] => match need with O => Some [] | S _ => None end
  | c :: r =>
      match need with
      | O =>
          if code c <? 128 then
            option_map (cons c) (transform_decimal_and_space 0 0 r)
          else if code c <? 192 then None
          else if code c <? 224 then
            transform_decimal_and_space (code c - 192) 1 r
          else if code c <? 240 then
            transform_decimal_and_space (code c - 224) 2 r
          else if code c <? 248 then
            transform_decimal_and_space (code c - 240) 3 r
          else None
      | S need' =>
          if is_continuation c then
            let cp' := 64 * cp + (code c - 128) in
            match need' with
            | O =>
                match numeral_char cp' with
                | Some a =>
                    option_map (cons a) (transform_decimal_and_space 0 0 r)
                | None => None
                end
            | S _ => transform_decimal_and_space cp' need' r
            end
          else None
      end
  end.

(** ** Integers and their decimal text *)

(** [str(z)], for an integer of at most [int_max_str_digits] digits, as
    are all those that the script converts. *)
Definition py_str (z : Z) : str := lit (DecimalString.NilZero.string_of_int (Z.to_int z)).

(** White space that [int()] skips around an ASCII numeral. *)
Definition is_int_space (c : ascii) : bool :=
  ((9 <=? code c) && (code c <=? 13)) || (code c =? 32).

(** The digits of a numeral in which single underscores may separate
    digits; [None] when the text is not of that shape. *)
Fixpoint numeral_digits (after_digit : bool) (s : str) : option str :=
  match s with
  | [] => if after_digit then Some [] else None
  | c :: r =>
      if is_digit c then option_map (cons c) (numeral_digits true r)
      else if Ascii.eqb c "_"%char then
             if after_digit then numeral_digits false r else None
           else None
  end.

Definition digits_value (ds : str) : option Z :=
  option_map Z.of_uint
    (DecimalString.NilEmpty.uint_of_string (string_of_list_ascii ds)).

(** [sys.get_int_max_str_digits()], as the interpreter sets it. *)
Definition int_max_str_digits : Z := 4300.

(** [int(s)] in base ten; [None] stands for [ValueError].  The digits
    and the spaces above ASCII are first read as ASCII ones; a numeral
    of more than [int_max_str_digits] digits is refused. *)
Definition py_int (s : str) : option Z :=
  match transform_decimal_and_space 0 0 s with
  | Some a =>
      let t := strip_with is_int_space a in
      let '(negative, body) :=
        match t with
        | c :: r => if Ascii.eqb c "-"%char then (true, r)
                    else if Ascii.eqb c "+"%char then (false, r)
                    else (false, t)
        | [] => (false, t)
        end in
      match numeral_digits false body with
      | Some ds =>
          if int_max_str_digits <? Z.of_nat (List.length ds) then None
          else
            match digits_value ds with
            | Some v => Some (if negative then - v else v)
            | None => None
            end
      | None => None
      end
  | None => None
  end.

(** ** Exceptions, outcomes and the external collaborators *)

(** The exceptions that the script names or that its calls raise.
    [RequestException] carries the text that the script logs. *)
Inductive exn : Type :=
| ValueError
| OSError
| RequestException (msg : str).

(** What a call produces.  [OutOfFuel] belongs to the model alone: it
    marks a [while] loop cut by the bound of its embedding (see
    [download_documents_total]). *)
Inductive outcome (A : Type) : Type :=
| Ok (a : A)
| Raise (e : exn)
| OutOfFuel.
Arguments Ok {A} a.
Arguments Raise {A} e.
Arguments OutOfFuel {A}.

(** A [requests.Response]: [http_error] is the text of the [HTTPError]
    that [raise_for_status()] raises (a 4xx or 5xx status), if any. *)
Record Response : Type := mkResponse {
  http_error : option str;
  text : str;
  content : str
}.

(** A [div] element of a parsed page: its CSS classes and its [.text]. *)
Record Div : Type := mkDiv {
  div_classes : list str;
  div_text : str
}.

(** The external collaborators.
    - [requests_get url]: the response, or the text of the
      [RequestException] that [requests.get] raises;
    - [html_divs body]: the [div] elements of
      [BeautifulSoup(body, 'html.parser')] in document order;
    - [makedirs_ok dir]: whether [os.makedirs(dir)] succeeds on a
      directory that does not exist ([OSError] otherwise);
    - [open_wb_ok path]: whether [open(path, 'wb')] succeeds ([OSError]
      otherwise);
    - [bracketed_host_ok]: whether [urllib.parse._check_bracketed_host]
      accepts a host (it relies on the [ipaddress] module). *)
Record Env : Type := mkEnv {
  requests_get : str -> str + Response;
  html_divs : str -> list Div;
  makedirs_ok : str -> bool;
  open_wb_ok : str -> bool;
  bracketed_host_ok : str -> bool
}.

(** ** urllib.parse (CPython 3.11) *)

Definition nonempty (s : str) : bool :=
  match s with [] => false | _ :: _ => true end.

Definition in_list (s : str) (l : list str) : bool := existsb (str_eqb s) l.

Definition uses_netloc : list str :=
  [lit ""; lit "ftp"; lit "http"; lit "gopher"; lit "nntp"; lit "telnet";
   lit "imap"; lit "wais"; lit "file"; lit "mms"; lit "https"; lit "shttp";
   lit "snews"; lit "prospero"; lit "rtsp"; lit "rtspu"; lit "rsync";
   lit "svn"; lit "svn+ssh"; lit "sftp"; lit "nfs"; lit "git";
   lit "git+ssh"; lit "ws"; lit "wss"].

Definition uses_params : list str :=
  [lit ""; lit "ftp"; lit "hdl"; lit "prospero"; lit "http"; lit "imap";
   lit "https"; lit "shttp"; lit "rtsp"; lit "rtspu"; lit "sip"; lit "sips";
   lit "mms"; lit "sftp"; lit "tel"].

Definition scheme_char (c : ascii) : bool :=
  is_alpha c || is_digit c || mem c "+-.".

(** [_WHATWG_C0_CONTROL_OR_SPACE] *)
Definition is_c0_or_space (c : ascii) : bool := code c <=? 32.

(** [_UNSAFE_URL_BYTES_TO_REMOVE]: TAB, CR, LF. *)
Definition is_unsafe_url_byte (c : ascii) : bool :=
  (code c =? 9) || (code c =? 13) || (code c =? 10).

Record ParseResult : Type := mkParseResult {
  scheme : str;
  netloc : str;
  path : str;
  params : str;
  query : str;
  fragment : str
}.

(** The scheme test of [urlsplit]: the text before the first colon is a
    scheme when it is not empty, starts with an ASCII letter and holds
    scheme characters only. *)
Definition split_scheme (url : str) : str * str :=
  match find_split ":" url with
  | Some (c0 :: pre, rest) =>
      if is_alpha c0 && forallb scheme_char (c0 :: pre)
      then (lower (c0 :: pre), rest)
      else ([], url)
  | _ => ([], url)
  end.

(** The longest prefix without a character of [stop], and the rest. *)
Fixpoint span_until (stop : str) (s : str) : str * str :=
  match s with
  | [] => ([], [])
  | c :: r =>
      if mem c stop then ([], s)
      else let '(a, b) := span_until stop r in (c :: a, b)
  end.

(** [_splitnetloc(url, 2)], given the text after the two slashes. *)
Definition splitnetloc (after_slashes : str) : str * str :=
  span_until "/?#" after_slashes.

(** [_check_bracketed_netloc]: [false] stands for [ValueError]. *)
Definition check_bracketed_netloc (E : Env) (nl : str) : bool :=
  let hostname_and_port :=
    match rfind_split "@" nl with Some (_, b) => b | None => nl end in
  match find_split "[" hostname_and_port with
  | Some (before_bracket, bracketed) =>
      if nonempty before_bracket then false
      else
        let '(hostname, port) :=
          match find_split "]" bracketed with
          | Some (h, p) => (h, p)
          | None => (bracketed, [])
          end in
        if nonempty port && negb (starts_with ":" port) then false
        else bracketed_host_ok E hostname
  | None =>
      let hostname :=
        match find_split ":" hostname_and_port with
        | Some (h, _) => h
        | None => hostname_and_port
        end in
      bracketed_host_ok E hostname
  end.

(** The bracket tests that [urlsplit] runs on a netloc. *)
Definition netloc_ok (E : Env) (nl : str) : bool :=
  if (mem "[" nl && negb (mem "]" nl)) || (mem "]" nl && negb (mem "[" nl))
  then false
  else if mem "[" nl && mem "]" nl then check_bracketed_netloc E nl
       else true.

(** [urlsplit(url)] followed by the parameter split of [urlparse]. *)
Definition splitparams (url : str) : str * str :=
  if mem "/" url then
    match rfind_split "/" url with
    | Some (dir, base) =>
        match find_split ";" base with
        | Some (b, p) => (dir ++ lit "/" ++ b, p)
        | None => (url, [])
        end
    | None => (url, [])
    end
  else
    match find_split ";" url with
    | Some (a, p) => (a, p)
    | None => (removelast url, url)
    end.

Definition urlparse (E : Env) (url : str) : outcome ParseResult :=
  let url := lstrip is_c0_or_space url in
  let url := filter (fun c => negb (is_unsafe_url_byte c)) url in
  let '(sch, url) := split_scheme url in
  let '(nl, url) :=
    if starts_with "//" url then splitnetloc (skipn 2 url) else ([], url) in
  if negb (netloc_ok E nl) then Raise ValueError
  else
    let '(url, frag) :=
      match find_split "#" url with
      | Some (a, b) => (a, b)
      | None => (url, [])
      end in
    let '(url, qs) :=
      match find_split "?" url with
      | Some (a, b) => (a, b)
      | None => (url, [])
      end in
    let '(url, prm) :=
      if in_list sch uses_params && mem ";" url then splitparams url
      else (url, []) in
    Ok (mkParseResult sch nl url prm qs frag).

(** [urlunparse(components)], through [urlunsplit]. *)
Definition urlunparse (p : ParseResult) : str :=
  let url := if nonempty (params p) then path p ++ lit ";" ++ params p
             else path p in
  let url :=
    if nonempty (netloc p)
       || (nonempty (scheme p) && in_list (scheme p) uses_netloc
           && negb (starts_with "//" url))
    then
      let url := if nonempty url && negb (starts_with "/" url)
                 then lit "/" ++ url else url in
      lit "//" ++ netloc p ++ url
    else url in
  let url := if nonempty (scheme p) then scheme p ++ lit ":" ++ url else url in
  let url := if nonempty (query p) then url ++ lit "?" ++ query p else url in
  if nonempty (fragment p) then url ++ lit "#" ++ fragment p else url.

(** *** Percent-encoding *)

Definition hex_value (c : ascii) : option N :=
  if is_digit c then Some (N_of_ascii c - 48)%N
  else if (65 <=? code c) && (code c <=? 70) then Some (N_of_ascii c - 55)%N
  else if (97 <=? code c) && (code c <=? 102) then Some (N_of_ascii c - 87)%N
  else None.

Definition hex_char (n : N) : ascii :=
  if (n <? 10)%N then ascii_of_N (48 + n) else ascii_of_N (55 + n).

(** One item of [string.split('%')] after the first one, as
    [unquote_to_bytes] decodes it. *)
Definition unquote_item (item : str) : str :=
  match item with
  | h :: l :: rest =>
      match hex_value h, hex_value l with
      | Some a, Some b => ascii_of_N (16 * a + b) :: rest
      | _, _ => "%"%char :: item
      end
  | _ => "%"%char :: item
  end.

(** [unquote_to_bytes(string)] *)
Definition unquote_to_bytes (s : str) : str :=
  if negb (mem "%" s) then s
  else match split_on "%" s with
       | first :: items => first ++ flat_map unquote_item items
       | [] => s
       end.

(** [unquote(string)]: a text without percent sign is returned as it is;
    otherwise its bytes, the escapes decoded, are decoded as UTF-8 with
    the errors replaced.  ([unquote] decodes the ASCII parts of the text
    one by one and keeps the characters above ASCII that lie between
    them; these are whole UTF-8 sequences of the encoding, so that
    decoding the encoding as a whole gives the same text.) *)
Definition unquote (s : str) : str :=
  if negb (mem "%" s) then s else utf8_replace (unquote_to_bytes s).

(** [_ALWAYS_SAFE] *)
Definition always_safe (c : ascii) : bool :=
  is_alpha c || is_digit c || mem c "_.-~".

Definition quote_char (safe : str) (c : ascii) : str :=
  if always_safe c || mem c safe then [c]
  else ["%"%char; hex_char (N_of_ascii c / 16); hex_char (N_of_ascii c mod 16)].

(** [quote(string, safe)] *)
Definition quote (safe : str) (s : str) : str := flat_map (quote_char safe) s.

(** [quote_plus(string)] with its default [safe=''] *)
Definition quote_plus (s : str) : str :=
  if negb (mem " " s) then quote [] s
  else replace_char " " "+" (quote " " s).

(** *** Query strings *)

(** [parse_qsl(qs)] with its defaults: blank values dropped, fields
    without [=] skipped, [&] the only separator. *)
Definition parse_qsl (qs : str) : list (str * str) :=
  let query_args := if nonempty qs then split_on "&" qs else [] in
  flat_map
    (fun name_value =>
       match find_split "=" name_value with
       | Some (n, v) =>
           if nonempty v
           then [(unquote (replace_char "+" " " n),
                  unquote (replace_char "+" " " v))]
           else []
       | None => []
       end)
    query_args.

(** A Python [dict] from [str] to lists of [str], in insertion order. *)
Definition dict := list (str * list str).

Fixpoint dict_get (k : str) (d : dict) : option (list str) :=
  match d with
  | [] => None
  | (k', vs) :: r => if str_eqb k' k then Some vs else dict_get k r
  end.

(** [k in d] *)
Definition dict_mem (k : str) (d : dict) : bool :=
  match dict_get k d with Some _ => true | None => false end.

(** [d[k].append(v)] when [k in d], [d[k] = [v]] otherwise. *)
Fixpoint dict_append (k v : str) (d : dict) : dict :=
  match d with
  | [] => [(k, [v])]
  | (k', vs) :: r =>
      if str_eqb k' k then (k', vs ++ [v]) :: r
      else (k', vs) :: dict_append k v r
  end.

(** [d[k] = vs]: an existing key keeps its place. *)
Fixpoint dict_set (k : str) (vs : list str) (d : dict) : dict :=
  match d with
  | [] => [(k, vs)]
  | (k', vs') :: r =>
      if str_eqb k' k then (k', vs) :: r
      else (k', vs') :: dict_set k vs r
  end.

(** [parse_qs(qs)] *)
Definition parse_qs (qs : str) : dict :=
  fold_left (fun d nv => dict_append (fst nv) (snd nv) d) (parse_qsl qs) [].

(** [urlencode(query, doseq=True)] of a [dict] of lists of [str]. *)
Definition urlencode (d : dict) : str :=
  join "&"
    (flat_map
       (fun kv => map (fun v => quote_plus (fst kv) ++ lit "=" ++ quote_plus v)
                      (snd kv))
       d).

(** ** Effects: the file system, the event trace and the monad *)

Inductive level : Type := DEBUG | INFO | ERROR.

(** The log records of the script, one constructor per [logging] call. *)
Inductive message : Type :=
| AccessingURL (url : str)
| NoFilesFound (url : str)
| Downloading (filename : str)
| Downloaded (output_path : str)
| ErrorDownloading (filename e : str)
| SkippingFile (filter_word filename : str)
| ErrorAccessing (url e : str)
| ErrorParsingItem (url : str)
| NoItemParameter (url : str)
| ProcessingPage (page_count : Z) (max_pages : option Z)
| ReachedMaximum (max_pages : Z)
| NoMorePages
| DownloadComplete (page_count total_downloads : Z).

(** The text of a log record, as the f-strings of the script build it. *)
Definition render (m : message) : str :=
  match m with
  | AccessingURL url => lit "Accessing URL: " ++ url
  | NoFilesFound url => lit "No files found on page: " ++ url
  | Downloading filename => lit "Downloading: " ++ filename
  | Downloaded output_path => lit "Successfully downloaded: " ++ output_path
  | ErrorDownloading filename e =>
      lit "Error downloading " ++ filename ++ lit ": " ++ e
  | SkippingFile filter_word filename =>
      lit "Skipping file (doesn't contain '" ++ filter_word ++ lit "'): "
        ++ filename
  | ErrorAccessing url e => lit "Error accessing URL " ++ url ++ lit ": " ++ e
  | ErrorParsingItem url => lit "Error parsing item parameter in URL: " ++ url
  | NoItemParameter url => lit "No item parameter found in URL: " ++ url
  | ProcessingPage page_count max_pages =>
      lit "Processing page " ++ py_str page_count ++
      match max_pages with
      | Some m => if m =? 0 then [] else lit "/" ++ py_str m
      | None => []
      end
  | ReachedMaximum max_pages =>
      lit "Reached maximum number of pages (" ++ py_str max_pages
        ++ lit "). Stopping."
  | NoMorePages => lit "No more pages to process. Stopping."
  | DownloadComplete page_count total_downloads =>
      lit "Download complete. Processed " ++ py_str page_count
        ++ lit " pages. Downloaded " ++ py_str total_downloads ++ lit " PDFs."
  end.

Inductive event : Type :=
| Log (lv : level) (m : message)
| Get (url : str)
| Makedirs (dir : str)
| WriteFile (path content : str)
| Sleep (seconds : Z).

(** The file system is a set of path names, compared as texts:
    [fs_dirs] holds the directories that exist, the latest first, and
    [fs_files] the writes, the latest first; the content of a path is
    that of its latest write. *)
Record state : Type := mkState {
  fs_dirs : list str;
  fs_files : list (str * str);
  trace : list event
}.

Definition M (A : Type) : Type := state -> state * outcome A.

Definition ret {A : Type} (a : A) : M A := fun s => (s, Ok a).

Definition bind {A B : Type} (m : M A) (k : A -> M B) : M B :=
  fun s =>
    match m s with
    | (s', Ok a) => k a s'
    | (s', Raise e) => (s', Raise e)
    | (s', OutOfFuel) => (s', OutOfFuel)
    end.

Notation "x <- m ;; k" := (bind m (fun x => k))
  (at level 61, m at next level, right associativity).
Notation "m ;; k" := (bind m (fun _ => k))
  (at level 61, right associativity).

Definition raise {A : Type} (e : exn) : M A := fun s => (s, Raise e).

Definition out_of_fuel {A : Type} : M A := fun s => (s, OutOfFuel).

Definition emit (e : event) : M unit :=
  fun s => (mkState (fs_dirs s) (fs_files s) (trace s ++ [e]), Ok tt).

Definition log (lv : level) (m : message) : M unit := emit (Log lv m).

(** [try: body / except requests.exceptions.RequestException as e: handler] *)
Definition try_except_RequestException {A : Type}
    (body : M A) (handler : str -> M A) : M A :=
  fun s =>
    match body s with
    | (s', Raise (RequestException e)) => handler e s'
    | r => r
    end.

(** [try: body / except ValueError: handler] *)
Definition try_except_ValueError {A : Type} (body : M A) (handler : M A)
    : M A :=
  fun s =>
    match body s with
    | (s', Raise ValueError) => handler s'
    | r => r
    end.

(** [os.path.exists(p)] *)
Definition path_exists (p : str) : M bool :=
  fun s => (s, Ok (existsb (str_eqb p) (fs_dirs s)
                   || existsb (fun f => str_eqb p (fst f)) (fs_files s))).

(** [os.path.exists(p)] in a state. *)
Definition present (p : str) (s : state) : bool :=
  existsb (str_eqb p) (fs_dirs s)
  || existsb (fun f => str_eqb p (fst f)) (fs_files s).

(** [posixpath.split(p)]: the head, which loses its trailing slashes
    unless it holds slashes only, and the tail after the last slash. *)
Definition path_split (p : str) : str * str :=
  match rfind_split "/" p with
  | Some (a, tail) =>
      let head := a ++ lit "/" in
      (if forallb (fun c => Ascii.eqb c "/") head then head
       else rstrip (fun c => Ascii.eqb c "/") head,
       tail)
  | None => ([], p)
  end.

(** The ancestors of [name] that [os.makedirs(name)] brings into
    existence before [name], the outermost first: when the head of
    [name] does not exist, it calls itself on the head.  (A path whose
    last part is a dot is not created: it exists with the path before
    the dot.)  The head is shorter than [name], so a bound above the
    length of [name] is never reached (see [missing_ancestors_bound]). *)
Fixpoint missing_ancestors (bound : nat) (exists_ : str -> bool)
    (name : str) : list str :=
  match bound with
  | O => []
  | S bound' =>
      let '(head, tail) := path_split name in
      let '(head, tail) :=
        if nonempty tail then (head, tail) else path_split head in
      if nonempty head && nonempty tail && negb (exists_ head)
      then missing_ancestors bound' exists_ head ++ [head]
      else []
  end.

Fixpoint take_while {A : Type} (f : A -> bool) (l : list A) : list A :=
  match l with
  | [] => []
  | x :: r => if f x then x :: take_while f r else []
  end.

(** The ancestors of [dir] that are missing in a state. *)
Definition makedirs_missing (dir : str) (s : state) : list str :=
  missing_ancestors (S (List.length dir)) (fun p => present p s) dir.

(** [os.makedirs(dir)], which the script calls when [dir] does not
    exist.  When the call succeeds, the missing ancestors of [dir] and
    [dir] exist.  When it fails, it raises [OSError], and the ancestors
    that it created until then stay: those before the first one that
    cannot be created.  The event records the successful call. *)
Definition makedirs (E : Env) (dir : str) : M unit :=
  fun s =>
    if makedirs_ok E dir
    then (mkState (dir :: List.rev (makedirs_missing dir s) ++ fs_dirs s)
                  (fs_files s) (trace s ++ [Makedirs dir]),
          Ok tt)
    else (mkState (List.rev (take_while (makedirs_ok E)
                               (makedirs_missing dir s)) ++ fs_dirs s)
                  (fs_files s) (trace s),
          Raise OSError).

(** [requests.get(url)] *)
Definition get (E : Env) (url : str) : M Response :=
  emit (Get url) ;;
  match requests_get E url with
  | inl e => raise (RequestException e)
  | inr r => ret r
  end.

(** [response.raise_for_status()] *)
Definition raise_for_status (r : Response) : M unit :=
  match http_error r with
  | Some e => raise (RequestException e)
  | None => ret tt
  end.

(** [with open(path, 'wb') as file: file.write(data)] *)
Definition write_file (E : Env) (path data : str) : M unit :=
  fun s =>
    if open_wb_ok E path
    then (mkState (fs_dirs s) ((path, data) :: fs_files s)
                  (trace s ++ [WriteFile path data]), Ok tt)
    else (s, Raise OSError).

(** [time.sleep(seconds)]: a negative length is a [ValueError]. *)
Definition sleep (seconds : Z) : M unit :=
  if seconds <? 0 then raise ValueError else emit (Sleep seconds).

(** The content of the file at [p]: the latest write wins. *)
Definition read_file (p : str) (s : state) : option str :=
  option_map snd (find (fun f => str_eqb p (fst f)) (fs_files s)).

(** ** decrement_item_in_url *)

Definition set_query (p : ParseResult) (q : str) : ParseResult :=
  mkParseResult (scheme p) (netloc p) (path p) (params p) q (fragment p).

Definition decrement_item_in_url (E : Env) (url : str) : M (option str) :=
  match urlparse E url with
  | Ok parsed_url =>
      let query_params := parse_qs (query parsed_url) in
      match dict_get "item" query_params with
      | Some values =>
          try_except_ValueError
            (match py_int (hd [] values) with
             | Some item_value =>
                 if item_value <=? 1 then ret None
                 else
                   let query_params :=
                     dict_set "item" [py_str (item_value - 1)] query_params in
                   let new_query := urlencode query_params in
                   ret (Some (urlunparse (set_query parsed_url new_query)))
             | None => raise ValueError
             end)
            (log ERROR (ErrorParsingItem url) ;; ret None)
      | None => log ERROR (NoItemParameter url) ;; ret None
      end
  | Raise e => raise e
  | OutOfFuel => out_of_fuel
  end.

(** ** extract_pdfs *)

Definition has_class (c : str) (d : Div) : bool := in_list c (div_classes d).

(** [soup.find_all('div', class_=c)]: each element found, with the [div]
    elements that follow it in document order. *)
Fixpoint find_all (c : str) (divs : list Div) : list (Div * list Div) :=
  match divs with
  | [] => []
  | d :: r => if has_class c d then (d, r) :: find_all c r else find_all c r
  end.

(** [element.find_next('div', class_=c)], given what follows [element]. *)
Definition find_next (c : str) (following : list Div) : option Div :=
  find (has_class c) following.

(** The characters of the class given to [re.sub]: backslash, slash,
    star, question mark, colon, double quote, the angle brackets and the
    bar. *)
Definition invalid_filename_chars : str :=
  ["\"%char; "/"%char; "*"%char; "?"%char; ":"%char; "034"%char;
   "<"%char; ">"%char; "|"%char].

(** [re.sub] of every character of that class by an underscore. *)
Definition clean_filename (filename : str) : str :=
  map (fun c => if mem c invalid_filename_chars then "_"%char else c) filename.

Definition ends_with_slash (a : str) : bool :=
  match List.rev a with
  | c :: _ => Ascii.eqb c "/"
  | [] => false
  end.

(** [os.path.join(a, b)] on POSIX *)
Definition path_join (a b : str) : str :=
  if starts_with "/" b then b
  else if negb (nonempty a) || ends_with_slash a then a ++ b
  else a ++ lit "/" ++ b.

Definition pdf_url_of (document_id : str) : str :=
  lit "https://www.cityoftulsa.org/apps/COTDisplayDocument?DocumentType=CouncilDocument&DocumentIdentifiers="
    ++ document_id.

(** The filter test of the loop body: the filter applies when
    [filter_word] is neither [None] nor empty. *)
Definition should_download (filter_word : option str) (filename : str)
    : bool :=
  match filter_word with
  | Some w => if nonempty w then contains (lower w) (lower filename) else true
  | None => true
  end.

(** The body of [for file_element in file_elements]. *)
Definition download_file (E : Env) (output_dir : str)
    (filter_word : option str) (file_element : Div * list Div)
    (download_count : Z) : M Z :=
  let filename := strip (div_text (fst file_element)) in
  if should_download filter_word filename then
    match find_next "pdfString" (snd file_element) with
    | Some pdf_string_element =>
        let document_id := strip (div_text pdf_string_element) in
        let pdf_url := pdf_url_of document_id in
        log INFO (Downloading filename) ;;
        try_except_RequestException
          (pdf_response <- get E pdf_url ;;
           raise_for_status pdf_response ;;
           let output_path := path_join output_dir (clean_filename filename) in
           write_file E output_path (content pdf_response) ;;
           log INFO (Downloaded output_path) ;;
           ret (download_count + 1))
          (fun e =>
             log ERROR (ErrorDownloading filename e) ;; ret download_count)
    | None => ret download_count
    end
  else
    log DEBUG (SkippingFile (match filter_word with Some w => w | None => [] end)
                            filename) ;;
    ret download_count.

Fixpoint for_each {A B : Type} (l : list A) (body : A -> B -> M B) (acc : B)
    : M B :=
  match l with
  | [] => ret acc
  | x :: r => acc' <- body x acc ;; for_each r body acc'
  end.

Definition extract_pdfs (E : Env) (url output_dir : str)
    (filter_word : option str) : M Z :=
  present <- path_exists output_dir ;;
  (if negb present then makedirs E output_dir else ret tt) ;;
  try_except_RequestException
    (log INFO (AccessingURL url) ;;
     response <- get E url ;;
     raise_for_status response ;;
     let soup := html_divs E (text response) in
     let file_elements := find_all "fileName" soup in
     match file_elements with
     | [] => log INFO (NoFilesFound url) ;; ret 0
     | _ :: _ =>
         for_each file_elements (download_file E output_dir filter_word) 0
     end)
    (fun e => log ERROR (ErrorAccessing url e) ;; ret 0).

(** ** download_documents *)

(** The value of a Python call. *)
Inductive pyval : Type :=
| PyNone
| PyInt (z : Z)
| PyPair (a b : pyval).

Definition truthy_url (u : option str) : bool :=
  match u with Some s => nonempty s | None => false end.

Definition truthy_int (n : option Z) : bool :=
  match n with Some m => negb (m =? 0) | None => false end.

(** The loop variables after the [while] statement. *)
Record loop_vars : Type := mkLoopVars {
  current_url : option str;
  page_count : Z;
  total_downloads : Z
}.

(** [while current_url and (max_pages is None or page_count < max_pages)],
    cut after [fuel] iterations. *)
Fixpoint while_loop (fuel : nat) (E : Env) (output_dir : str)
    (max_pages : option Z) (delay : Z) (filter_word : option str)
    (v : loop_vars) : M loop_vars :=
  match current_url v with
  | Some url =>
      if nonempty url
         && match max_pages with
            | None => true
            | Some m => page_count v <? m
            end
      then
        match fuel with
        | O => out_of_fuel
        | S fuel' =>
            let page_count := page_count v + 1 in
            log INFO (ProcessingPage page_count max_pages) ;;
            download_count <- extract_pdfs E url output_dir filter_word ;;
            let total_downloads := total_downloads v + download_count in
            next_url <- decrement_item_in_url E url ;;
            (if truthy_url next_url then sleep delay else ret tt) ;;
            while_loop fuel' E output_dir max_pages delay filter_word
              (mkLoopVars next_url page_count total_downloads)
        end
      else ret v
  | None => ret v
  end.

(** The item index of an address: the integer that
    [decrement_item_in_url] reads, [0] when it reads none. *)
Definition item_index (E : Env) (url : str) : Z :=
  match urlparse E url with
  | Ok p =>
      match dict_get "item" (parse_qs (query p)) with
      | Some values =>
          match py_int (hd [] values) with Some n => n | None => 0 end
      | None => 0
      end
  | _ => 0
  end.

(** The statements after the loop: the reason for stopping, then the
    summary. *)
Definition report (max_pages : option Z) (v : loop_vars) : M pyval :=
  (if truthy_int max_pages
      && match max_pages with
         | Some m => m <=? page_count v
         | None => false
         end
   then log INFO (ReachedMaximum (match max_pages with
                                  | Some m => m
                                  | None => 0
                                  end))
   else if negb (truthy_url (current_url v)) then log INFO NoMorePages
        else ret tt) ;;
  log INFO (DownloadComplete (page_count v) (total_downloads v)) ;;
  ret PyNone.

(** [download_documents(start_url, output_dir, max_pages, delay,
    filter_word)].  The loop gets one iteration per value of the item
    index from that of [start_url] down to 1, and one more. *)
Definition download_documents (E : Env) (start_url output_dir : str)
    (max_pages : option Z) (delay : Z) (filter_word : option str)
    : M pyval :=
  v <- while_loop (S (Z.to_nat (item_index E start_url))) E output_dir
         max_pages delay filter_word (mkLoopVars (Some start_url) 0 0) ;;
  report max_pages v.

(** The state in which a run starts: the directories and files that
    exist, and no event yet. *)
Definition initial_state (dirs : list str) (files : list (str * str))
    : state :=
  mkState dirs files [].

(** ** Notions used to state the properties *)

(** The values that the pairs of a query give to a key, in order. *)
Definition values_of (k : str) (pairs : list (str * str)) : list str :=
  map snd (filter (fun nv => str_eqb (fst nv) k) pairs).

Definition dict_values (k : str) (d : dict) : list str :=
  match dict_get k d with Some vs => vs | None => [] end.

(** No key of the dictionary holds an empty list. *)
Definition no_empty_list (d : dict) : Prop :=
  Forall (fun kv => snd kv <> []) d.

Definition add_pair (d : dict) (nv : str * str) : dict :=
  dict_append (fst nv) (snd nv) d.

(** The state of the item parameter of a query: absent, present with a
    value that [int] rejects, or present with an integer.  The parameter
    is read as [parse_qsl] reads the query, from the first pair named
    [item]. *)
Inductive item_status : Type :=
| ItemAbsent
| ItemNotInteger (v : str)
| ItemInteger (n : Z).

Definition item_status_of (qs : str) : item_status :=
  match values_of "item" (parse_qsl qs) with
  | [] => ItemAbsent
  | v :: _ =>
      match py_int v with
      | Some n => ItemInteger n
      | None => ItemNotInteger v
      end
  end.

(** An environment without network: every request fails, the file system
    accepts every call.  Used to evaluate the address decrement, which
    reaches neither. *)
Definition plain_env : Env :=
  mkEnv (fun _ => inl (lit "no network")) (fun _ => [])
        (fun _ => true) (fun _ => true) (fun _ => false).

(** *** Pages, file references and what a run leaves behind *)

(** A fetch is [requests.get] followed by [raise_for_status()]: the
    response, or the text of the [RequestException] of either call. *)
Definition fetch (E : Env) (url : str) : str + Response :=
  match requests_get E url with
  | inl e => inl e
  | inr r => match http_error r with Some e => inl e | None => inr r end
  end.

(** The file reference of a filename marker: its label and the
    identifier of the nearest following identifier marker, if any. *)
Definition ref_of_element (fe : Div * list Div) : list (str * str) :=
  match find_next "pdfString" (snd fe) with
  | Some e => [(strip (div_text (fst fe)), strip (div_text e))]
  | None => []
  end.

(** The file references of a page, in document order. *)
Definition file_references (divs : list Div) : list (str * str) :=
  flat_map ref_of_element (find_all "fileName" divs).

(** The references that the filter keeps. *)
Definition wanted (filter_word : option str) (refs : list (str * str))
    : list (str * str) :=
  filter (fun r => should_download filter_word (fst r)) refs.

(** The references whose retrieval address is fetched with success, each
    with the bytes received. *)
Definition fetched (E : Env) (refs : list (str * str)) : list (str * str) :=
  flat_map
    (fun r => match fetch E (pdf_url_of (snd r)) with
              | inr resp => [(fst r, content resp)]
              | inl _ => []
              end)
    refs.

(** The file that a fetched reference is saved as. *)
Definition saved (output_dir : str) (lc : str * str) : str * str :=
  (path_join output_dir (clean_filename (fst lc)), snd lc).

(** The addresses requested in a trace, in order. *)
Definition requests (t : list event) : list str :=
  flat_map (fun e => match e with Get u => [u] | _ => [] end) t.

(** The events of the traversal driver: the start of a page, the access
    to its address, the diagnostics of the address decrement, the pauses,
    the reason for stopping and the summary.  The events of the downloads
    of a page are left out. *)
Definition is_driver_event (e : event) : bool :=
  match e with
  | Sleep _ => true
  | Log _ (ProcessingPage _ _) => true
  | Log _ (AccessingURL _) => true
  | Log _ (ErrorParsingItem _) => true
  | Log _ (NoItemParameter _) => true
  | Log _ (ReachedMaximum _) => true
  | Log _ NoMorePages => true
  | Log _ (DownloadComplete _ _) => true
  | _ => false
  end.

(** The trace of a run as the traversal driver shows it. *)
Definition driver_view (t : list event) : list event :=
  filter is_driver_event t.

(** The label contains the filter word, letter case apart; without a
    filter word every label does. *)
Definition matches_filter (filter_word : option str) (label : str) : Prop :=
  match filter_word with
  | Some w => exists pre post, lower label = pre ++ lower w ++ post
  | None => True
  end.

(** The local file system accepts every call of a run into
    [output_dir]. *)
Definition fs_reliable (E : Env) (output_dir : str) : Prop :=
  makedirs_ok E output_dir = true /\ forall p, open_wb_ok E p = true.

(** The file references of the page at an address; none when the fetch
    of the page fails. *)
Definition page_refs (E : Env) (url : str) : list (str * str) :=
  match fetch E url with
  | inr resp => file_references (html_divs E (text resp))
  | inl _ => []
  end.

(** The files that the extraction of a page downloads: label and bytes. *)
Definition page_downloads (E : Env) (url : str) (filter_word : option str)
    : list (str * str) :=
  fetched E (wanted filter_word (page_refs E url)).

(** The number that the extraction of a page returns. *)
Definition extract_count (E : Env) (url : str) (filter_word : option str)
    : Z :=
  Z.of_nat (List.length (page_downloads E url filter_word)).

(** *** The traversal as a sequence of addresses *)

(** What [decrement_item_in_url] returns, and what it logs. *)
Definition next_address (E : Env) (url : str) : outcome (option str) :=
  snd (decrement_item_in_url E url (initial_state [] [])).

Definition decrement_logs (E : Env) (url : str) : list event :=
  trace (fst (decrement_item_in_url E url (initial_state [] []))).

(** [max_pages is None or page_count < max_pages] *)
Definition within_budget (max_pages : option Z) (page_count : Z) : bool :=
  match max_pages with
  | None => true
  | Some m => page_count <? m
  end.







(** The events of the statements after the loop. *)
Definition report_view (max_pages : option Z) (v : loop_vars)
    : list event :=
  (if truthy_int max_pages
      && match max_pages with
         | Some m => m <=? page_count v
         | None => false
         end
   then [Log INFO (ReachedMaximum (match max_pages with
                                   | Some m => m
                                   | None => 0
                                   end))]
   else if negb (truthy_url (current_url v)) then [Log INFO NoMorePages]
        else [])
  ++ [Log INFO (DownloadComplete (page_count v) (total_downloads v))].

(** *** Encoded text *)

(** What [quote_plus] writes for one character. *)
Definition quote_plus_char (c : ascii) : str :=
  if Ascii.eqb c " " then lit "+" else quote_char [] c.

(** The characters that [urlencode] writes: the unreserved ones, the
    percent sign, the plus sign, and the two separators. *)
Definition encoded_char (c : ascii) : bool :=
  always_safe c || mem c "%+=&".

(** The pairs of a dictionary, key by key, blank values left out. *)
Definition dict_pairs (d : dict) : list (str * str) :=
  flat_map
    (fun kv => flat_map (fun v => if nonempty v then [(fst kv, v)] else [])
                        (snd kv))
    d.

(** The keys of a dictionary, in insertion order. *)
Definition keys (d : dict) : list str := map fst d.

(** A dictionary as [parse_qs] builds them: distinct keys, no empty list
    of values, no blank value. *)
Definition dict_wf (d : dict) : Prop :=
  NoDup (keys d)
  /\ Forall (fun kv => snd kv <> [] /\ Forall (fun v => v <> []) (snd kv)) d.

(** One field of an encoded query. *)
Definition field (k v : str) : str := quote_plus k ++ lit "=" ++ quote_plus v.

(** What [parse_qsl] makes of one field. *)
Definition parse_field (name_value : str) : list (str * str) :=
  match find_split "=" name_value with
  | Some (n, v) =>
      if nonempty v
      then [(unquote (replace_char "+" " " n),
             unquote (replace_char "+" " " v))]
      else []
  | None => []
  end.

(** A text without question mark and without hash sign. *)
Definition plain (s : str) : Prop := mem "?" s = false /\ mem "#" s = false.

(** What follows the query in an address: nothing, or a hash sign and
    the fragment. *)
Definition fragment_tail (f : str) : Prop := f = [] \/ exists t, f = "#"%char :: t.

(** The components of a parsed address other than the query and the
    fragment are plain. *)
Definition plain_parts (p : ParseResult) : Prop :=
  plain (scheme p) /\ plain (netloc p) /\ plain (path p) /\ plain (params p).

(** What [urlunparse] writes before the question mark, and after the
    query. *)
Definition address_head (p : ParseResult) : str :=
  let url := if nonempty (params p) then path p ++ lit ";" ++ params p
             else path p in
  let url :=
    if nonempty (netloc p)
       || (nonempty (scheme p) && in_list (scheme p) uses_netloc
           && negb (starts_with "//" url))
    then
      let url := if nonempty url && negb (starts_with "/" url)
                 then lit "/" ++ url else url in
      lit "//" ++ netloc p ++ url
    else url in
  if nonempty (scheme p) then scheme p ++ lit ":" ++ url else url.

Definition address_tail (p : ParseResult) : str :=
  if nonempty (fragment p) then lit "#" ++ fragment p else [].

(** *** A sample site *)

Definition listing (item : string) : str :=
  lit "https://www.cityoftulsa.org/apps/CouncilDocuments?item=" ++ lit item.

Definition marker (class label : string) : Div :=
  mkDiv [lit class] (lit label).

(** Four listing pages.  Item 3 lists minutes and an agenda, items 2 and
    1 list nothing, item 7 lists two sets of minutes; the document DOC71
    cannot be fetched. *)
Definition sample_get (url : str) : str + Response :=
  if str_eqb url (listing "3") then inr (mkResponse None (lit "page 3") [])
  else if str_eqb url (listing "2") then inr (mkResponse None (lit "page 2") [])
  else if str_eqb url (listing "1") then inr (mkResponse None (lit "page 1") [])
  else if str_eqb url (listing "7") then inr (mkResponse None (lit "page 7") [])
  else if str_eqb url (pdf_url_of (lit "DOC31"))
       then inr (mkResponse None [] (lit "minutes of item 3"))
  else if str_eqb url (pdf_url_of (lit "DOC32"))
       then inr (mkResponse None [] (lit "agenda of item 3"))
  else if str_eqb url (pdf_url_of (lit "DOC72"))
       then inr (mkResponse None [] (lit "minutes B of item 7"))
  else inl (lit "Connection refused").

Definition sample_divs (body : str) : list Div :=
  if str_eqb body (lit "page 3")
  then [marker "fileName" " Regular Minutes.pdf "; marker "pdfString" "DOC31";
        marker "fileName" "Agenda.pdf"; marker "pdfString" "DOC32"]
  else if str_eqb body (lit "page 7")
  then [marker "fileName" "Minutes A.pdf"; marker "pdfString" "DOC71";
        marker "fileName" "Minutes B.pdf"; marker "pdfString" "DOC72"]
  else [].

Definition sample_env : Env :=
  mkEnv sample_get sample_divs (fun _ => true) (fun _ => true)
        (fun _ => false).

(** *** Observations on a trace *)

(** The addresses of the pages processed, in order: one access is logged
    per page. *)
Definition accessed (t : list event) : list str :=
  flat_map (fun e => match e with
                     | Log _ (AccessingURL u) => [u]
                     | _ => []
                     end) t.

Definition is_page_start (e : event) : bool :=
  match e with Log _ (ProcessingPage _ _) => true | _ => false end.




(** The last event of a trace. *)
Definition last_event (t : list event) : option event :=
  match List.rev t with e :: _ => Some e | [] => None end.

(** The page starts of a trace: one per page that the loop begins. *)
Definition page_starts (t : list event) : list event :=
  filter is_page_start t.


(** *** What a call leaves in the trace and in the file system *)

(** The files written in a trace and the directories that [os.makedirs]
    was called for with success, in order. *)
Definition written (t : list event) : list (str * str) :=
  flat_map (fun e => match e with WriteFile p c => [(p, c)] | _ => [] end) t.

Definition made (t : list event) : list str :=
  flat_map (fun e => match e with Makedirs d => [d] | _ => [] end) t.

(** A call whose events all satisfy [Q], and whose effect on the file
    system is that of its events: the trace is extended by some [t], the
    files are those written in [t] on top of the earlier ones, and the
    directories those of the calls of [os.makedirs] in [t]. *)
Definition journal {A : Type} (Q : event -> Prop) (m : M A) : Prop :=
  forall s,
    exists t,
      trace (fst (m s)) = trace s ++ t
      /\ Forall Q t
      /\ fs_files (fst (m s)) = List.rev (written t) ++ fs_files s
      /\ fs_dirs (fst (m s)) = List.rev (made t) ++ fs_dirs s.

(** A file name that [clean_filename] leaves: none of the characters it
    replaces, so no slash and no backslash. *)
Definition clean_name (name : str) : Prop :=
  forallb (fun c => negb (mem c invalid_filename_chars)) name = true.

(** A path directly inside [dir]: [dir], a slash unless [dir] is empty or
    ends with one, and a clean name. *)
Definition inside (dir path : str) : Prop :=
  exists name,
    clean_name name
    /\ path = dir ++ (if negb (nonempty dir) || ends_with_slash dir
                      then [] else lit "/") ++ name.

(** What the events of an extraction into [output_dir] from the page at
    [url] may be: the directory that [os.makedirs] is called for is
    [output_dir], a file written lies directly inside it, a request goes
    to [url] or to the retrieval address of a document; it does not
    pause and writes no record of the traversal driver other than the
    access to [url]. *)
Definition extraction_event (url output_dir : str) (e : event) : Prop :=
  match e with
  | Makedirs d => d = output_dir
  | WriteFile p _ => inside output_dir p
  | Get u => u = url \/ exists document_id, u = pdf_url_of document_id
  | Sleep _ => False
  | Log _ (AccessingURL u) => u = url
  | Log _ (ProcessingPage _ _) => False
  | Log _ (ErrorParsingItem _) => False
  | Log _ (NoItemParameter _) => False
  | Log _ (ReachedMaximum _) => False
  | Log _ NoMorePages => False
  | Log _ (DownloadComplete _ _) => False
  | Log _ _ => True
  end.

(** What the events of a whole run may be. *)
Definition run_event (output_dir : str) (delay : Z) (e : event) : Prop :=
  match e with
  | Makedirs d => d = output_dir
  | WriteFile p _ => inside output_dir p
  | Sleep seconds => seconds = delay /\ 0 <= delay
  | _ => True
  end.

(** The events of the extraction of a page once the output directory is
    there: those of an extraction, the creation of a directory apart. *)
Definition download_event (url output_dir : str) (e : event) : Prop :=
  match e with
  | Makedirs _ => False
  | _ => extraction_event url output_dir e
  end.

(** From [s] to [s'] by the events [t], all of them events of a run:
    the trace grows by [t], the files by what [t] writes, and the
    directories that exist still exist. *)
Definition effects (output_dir : str) (delay : Z) (s s' : state)
    (t : list event) : Prop :=
  trace s' = trace s ++ t
  /\ Forall (run_event output_dir delay) t
  /\ fs_files s' = List.rev (written t) ++ fs_files s
  /\ exists ds, fs_dirs s' = ds ++ fs_dirs s.

(** The directories that the one call of [os.makedirs] in a run leaves
    behind: none when the directory exists at the start; the directory
    and its missing ancestors when the call succeeds; otherwise the
    ancestors created before the failure. *)
Definition makedirs_result (E : Env) (dir : str) (s : state) : list str :=
  if present dir s then []
  else if makedirs_ok E dir then dir :: List.rev (makedirs_missing dir s)
       else List.rev (take_while (makedirs_ok E) (makedirs_missing dir s)).

(** The sample site seen from a machine whose disk refuses every
    creation of a directory and every opening of a file for writing. *)
Definition readonly_env : Env :=
  mkEnv sample_get sample_divs (fun _ => false) (fun _ => false)
        (fun _ => false).

(** *** Addresses without brackets, and the pages of a traversal *)




(** ** main *)

(** The namespace that [parser.parse_args()] returns.  The parsing of
    the command line by [argparse] is not part of the model. *)
Record Args : Type := mkArgs {
  args_start_url : str;
  args_output : str;
  args_max_pages : option Z;
  args_delay : Z;
  args_filter : str;
  args_all_documents : bool
}.

(** The defaults that [main] gives to the parser. *)
Definition default_args : Args :=
  mkArgs (lit "https://www.cityoftulsa.org/apps/CouncilDocuments?item=47837")
         (lit "downloaded_documents") None 1 (lit "Minutes") false.

(** The records that [main] logs before it calls [download_documents],
    one constructor per [logging] call. *)
Inductive announcement : Type :=
| StartingDownload (start_url : str)
| OutputDirectory (output : str)
| MaximumPages (max_pages : Z)
| MaximumUnlimited
| FilterWord (filter_word : str)
| NoFilenameFilter.

Definition render_announcement (a : announcement) : str :=
  match a with
  | StartingDownload start_url =>
      lit "Starting document download from: " ++ start_url
  | OutputDirectory output => lit "Output directory: " ++ output
  | MaximumPages max_pages =>
      lit "Maximum pages to process: " ++ py_str max_pages
  | MaximumUnlimited => lit "Maximum pages: Unlimited"
  | FilterWord filter_word => lit "Filter word: " ++ filter_word
  | NoFilenameFilter => lit "No filename filter: downloading all documents"
  end.

(** What a run of the script shows: the records of [main], then the
    events of [download_documents]. *)
Inductive main_event : Type :=
| Announce (a : announcement)
| Run (e : event).

(** The filter word that [main] passes on. *)
Definition filter_word_of (args : Args) : option str :=
  if args_all_documents args then None else Some (args_filter args).

(** [main()], given the parsed arguments and the directories and files
    that exist when it starts: what the run shows, the state it leaves
    and how the call of [download_documents] ends. *)
Definition main (E : Env) (args : Args) (dirs : list str)
    (files : list (str * str)) : list main_event * (state * outcome pyval) :=
  let filter_word := filter_word_of args in
  let announced :=
    [StartingDownload (args_start_url args);
     OutputDirectory (args_output args);
     match args_max_pages args with
     | Some m => if negb (m =? 0) then MaximumPages m else MaximumUnlimited
     | None => MaximumUnlimited
     end;
     match filter_word with
     | Some w => if nonempty w then FilterWord w else NoFilenameFilter
     | None => NoFilenameFilter
     end] in
  let r := download_documents E (args_start_url args) (args_output args)
             (args_max_pages args) (args_delay args) filter_word
             (initial_state dirs files) in
  (map Announce announced ++ map Run (trace (fst r)), r).

(** *** A site with two odd pages *)

(** Item 20 lists two files and a single identifier; item 21 lists two
    files whose names differ only by characters that the sanitization
    replaces; item 22 lists two files and no identifier; item 23 lists
    nothing. *)
Definition odd_get (url : str) : str + Response :=
  if str_eqb url (listing "20") then inr (mkResponse None (lit "page 20") [])
  else if str_eqb url (listing "21")
       then inr (mkResponse None (lit "page 21") [])
  else if str_eqb url (listing "22")
       then inr (mkResponse None (lit "page 22") [])
  else if str_eqb url (listing "23")
       then inr (mkResponse None (lit "page 23") [])
  else if str_eqb url (pdf_url_of (lit "DOC9"))
       then inr (mkResponse None [] (lit "nine"))
  else if str_eqb url (pdf_url_of (lit "DOC1"))
       then inr (mkResponse None [] (lit "first"))
  else if str_eqb url (pdf_url_of (lit "DOC2"))
       then inr (mkResponse None [] (lit "second"))
  else inl (lit "Connection refused").

Definition odd_divs (body : str) : list Div :=
  if str_eqb body (lit "page 20")
  then [marker "fileName" "Minutes A.pdf"; marker "fileName" "Minutes B.pdf";
        marker "pdfString" "DOC9"]
  else if str_eqb body (lit "page 21")
  then [marker "fileName" "Minutes 1/2.pdf"; marker "pdfString" "DOC1";
        marker "fileName" "Minutes 1:2.pdf"; marker "pdfString" "DOC2"]
  else if str_eqb body (lit "page 22")
  then [marker "fileName" "Minutes C.pdf"; marker "fileName" "Agenda C.pdf"]
  else [].

Definition odd_env : Env :=
  mkEnv odd_get odd_divs (fun _ => true) (fun _ => true) (fun _ => false).

(** The records of the filename markers that the filter leaves out. *)
Definition skipped_records (filter_word : option str)
    (file_elements : list (Div * list Div)) : list event :=
  flat_map
    (fun fe =>
       let filename := strip (div_text (fst fe)) in
       if should_download filter_word filename then []
       else [Log DEBUG
               (SkippingFile (match filter_word with
                              | Some w => w
                              | None => []
                              end) filename)])
    file_elements.

(** [k] integers counted up from [n]: [n; n + 1; ...]. *)
Fixpoint countup (k : nat) (n : Z) : list Z :=
  match k with
  | O => []
  | S k' => n :: countup k' (n + 1)
  end.

(** *** Text and its encoding *)

(** Text of ASCII characters only. *)
Definition ascii_text (s : str) : bool := forallb (fun c => code c <? 128) s.

(** What the decoder holds in a state that it reaches: the bytes of a
    sequence that can still be completed. *)
Definition utf8_pending (st : utf8_state) : Prop :=
  match st with
  | Complete => True
  | Lead2 b0 => 194 <= code b0 < 224
  | Lead3 b0 => 224 <= code b0 < 240
  | Lead3b b0 b1 =>
      224 <= code b0 < 240 /\ is_continuation b1 = true
      /\ (if code b1 <? 160 then code b0 =? 224 else code b0 =? 237) = false
  | Lead4 b0 => 240 <= code b0 < 245
  | Lead4b b0 b1 =>
      240 <= code b0 < 245 /\ is_continuation b1 = true
      /\ (if code b1 <? 144 then code b0 =? 240 else code b0 =? 244) = false
  | Lead4c b0 b1 b2 =>
      240 <= code b0 < 245 /\ is_continuation b1 = true
      /\ (if code b1 <? 144 then code b0 =? 240 else code b0 =? 244) = false
      /\ is_continuation b2 = true
  end.

(** Bytes that the decoder reads as they are, whatever follows them. *)
Definition utf8_closed (out : str) : Prop :=
  forall t, utf8_decode Complete (out ++ t) = out ++ utf8_decode Complete t.

(** Well-formed text: bytes that are the encoding of a text, which the
    decoder reads as they are. *)
Definition well_formed (s : str) : Prop := utf8_replace s = s.

(** A pair as the parser reads it back from its encoded field. *)
Definition decoded_pair (kv : str * str) : str * str :=
  (utf8_replace (fst kv), utf8_replace (snd kv)).

(** A dictionary whose keys and values are well-formed text. *)
Definition dict_text (d : dict) : Prop :=
  Forall (fun kv => well_formed (fst kv) /\ Forall well_formed (snd kv)) d.

(** The number of bytes that the decoder holds in a state. *)
Definition utf8_held (st : utf8_state) : nat :=
  match st with
  | Complete => 0
  | Lead2 _ | Lead3 _ | Lead4 _ => 1
  | Lead3b _ _ | Lead4b _ _ => 2
  | Lead4c _ _ _ => 3
  end.

(** *** The occurrences of a key in a query *)

(** One field of a query as [parse_qsl(qs, keep_blank_values=True)]
    reads it: a blank value is kept, and so is a name without equals
    sign, with a blank value; an empty field is skipped. *)
Definition keep_field (name_value : str) : list (str * str) :=
  if nonempty name_value then
    match find_split "=" name_value with
    | Some (n, v) =>
        [(unquote (replace_char "+" " " n), unquote (replace_char "+" " " v))]
    | None => [(unquote (replace_char "+" " " name_value), [])]
    end
  else [].

(** Every occurrence of a key in a query, with its value, blank or not. *)
Definition parse_qsl_keep_blank (qs : str) : list (str * str) :=
  flat_map keep_field (if nonempty qs then split_on "&" qs else []).


(** [d] lies above [dir]: it is a proper initial part of the path [dir]
    that ends with a slash or that a slash follows. *)
Definition ancestor_of (d dir : str) : Prop :=
  exists r,
    r <> [] /\ dir = d ++ r
    /\ (starts_with "/" r = true \/ ends_with_slash d = true).

(** Projections of a trace that grew by a few events. *)
Ltac trace_simpl :=
  unfold requests, driver_view; rewrite ?flat_map_app, ?filter_app; simpl;
  rewrite ?app_nil_r, <- ?app_assoc; simpl.

(** * Properties *)

(** ** Text *)

Lemma str_eqb_eq (a b : str) : str_eqb a b = true <-> a = b.
Proof.
  revert b; induction a as [|x a IH]; intros [|y b]; simpl;
    try (split; [discriminate | discriminate]); try tauto.
  rewrite andb_true_iff, Ascii.eqb_eq, IH.
  split; [intros [-> ->]; reflexivity | intros [= -> ->]; auto].
Qed.

Lemma str_eqb_refl (a : str) : str_eqb a a = true.
Proof. apply str_eqb_eq; reflexivity. Qed.

Lemma str_eqb_neq (a b : str) : str_eqb a b = false <-> a <> b.
Proof.
  rewrite <- str_eqb_eq. destruct (str_eqb a b); split; congruence.
Qed.

Lemma str_eqb_sym (a b : str) : str_eqb a b = str_eqb b a.
Proof.
  destruct (str_eqb a b) eqn:H1, (str_eqb b a) eqn:H2; auto.
  - apply str_eqb_eq in H1; subst. rewrite str_eqb_refl in H2; discriminate.
  - apply str_eqb_eq in H2; subst. rewrite str_eqb_refl in H1; discriminate.
Qed.

Lemma mem_In (c : ascii) (s : str) : mem c s = true <-> In c s.
Proof.
  unfold mem. rewrite existsb_exists. split.
  - intros [x [Hx Heq]]. apply Ascii.eqb_eq in Heq; subst; auto.
  - intros H; exists c; split; auto. apply Ascii.eqb_refl.
Qed.

Lemma mem_app (c : ascii) (a b : str) : mem c (a ++ b) = mem c a || mem c b.
Proof. unfold mem; apply existsb_app. Qed.

Lemma mem_cons (c x : ascii) (s : str) :
  mem c (x :: s) = Ascii.eqb c x || mem c s.
Proof. reflexivity. Qed.

Lemma find_split_some (c : ascii) (s a b : str) :
  find_split c s = Some (a, b) -> s = a ++ c :: b /\ mem c a = false.
Proof.
  revert a b; induction s as [|x s IH]; simpl; intros a b H; [discriminate|].
  destruct (Ascii.eqb x c) eqn:Hx.
  - apply Ascii.eqb_eq in Hx; subst. inversion H; subst. auto.
  - destruct (find_split c s) as [[a' b']|]; [|discriminate].
    inversion H; subst. destruct (IH a' b eq_refl) as [-> Hm].
    split; [reflexivity|]. rewrite mem_cons, Hm, Ascii.eqb_sym, Hx.
    reflexivity.
Qed.

Lemma find_split_none (c : ascii) (s : str) :
  find_split c s = None <-> mem c s = false.
Proof.
  induction s as [|x s IH]; simpl; [tauto|].
  rewrite (Ascii.eqb_sym c x).
  destruct (Ascii.eqb x c); simpl; [split; discriminate|].
  destruct (find_split c s) as [[a b]|]; split; try discriminate; auto.
  - intros H; apply IH in H; discriminate.
  - intros _; apply IH; reflexivity.
Qed.

Lemma find_split_app (c : ascii) (a b : str) :
  mem c a = false -> find_split c (a ++ c :: b) = Some (a, b).
Proof.
  induction a as [|x a IH]; simpl; intros H.
  - rewrite Ascii.eqb_refl; reflexivity.
  - rewrite (Ascii.eqb_sym c x) in H. apply orb_false_iff in H as [Hx Ha].
    rewrite Hx, (IH Ha). reflexivity.
Qed.

(** ** Dictionaries and query strings *)

Lemma dict_get_append (k k' v : str) (d : dict) :
  dict_get k (dict_append k' v d) =
  if str_eqb k' k then Some (dict_values k d ++ [v]) else dict_get k d.
Proof.
  unfold dict_values. induction d as [|[k0 vs] d IH]; simpl.
  - destruct (str_eqb k' k); reflexivity.
  - destruct (str_eqb k0 k') eqn:H0; simpl.
    + apply str_eqb_eq in H0; subst k0.
      destruct (str_eqb k' k); reflexivity.
    + destruct (str_eqb k0 k) eqn:H1; [|exact IH].
      apply str_eqb_eq in H1; subst k0.
      rewrite str_eqb_sym, H0. reflexivity.
Qed.

Lemma no_empty_list_append (k v : str) (d : dict) :
  no_empty_list d -> no_empty_list (dict_append k v d).
Proof.
  unfold no_empty_list. induction 1 as [|[k0 vs] d Hk Hd IH]; simpl.
  - repeat constructor; discriminate.
  - destruct (str_eqb k0 k); constructor; auto; simpl in *.
    destruct vs; discriminate.
Qed.

Lemma no_empty_list_get (k : str) (d : dict) (vs : list str) :
  no_empty_list d -> dict_get k d = Some vs -> vs <> [].
Proof.
  induction 1 as [|[k0 vs0] d Hk Hd IH]; simpl; [discriminate|].
  destruct (str_eqb k0 k); auto. intros [= <-]; exact Hk.
Qed.

Lemma fold_add_pair_values (k : str) (pairs : list (str * str)) (d : dict) :
  dict_values k (fold_left add_pair pairs d)
  = dict_values k d ++ values_of k pairs.
Proof.
  revert d; induction pairs as [|[n v] pairs IH]; intros d; simpl.
  - rewrite app_nil_r; reflexivity.
  - rewrite IH. unfold values_of; simpl.
    unfold dict_values at 1, add_pair; simpl. rewrite dict_get_append.
    destruct (str_eqb n k) eqn:Hn; simpl.
    + rewrite <- app_assoc; reflexivity.
    + reflexivity.
Qed.

Lemma fold_add_pair_no_empty (pairs : list (str * str)) (d : dict) :
  no_empty_list d -> no_empty_list (fold_left add_pair pairs d).
Proof.
  revert d; induction pairs as [|nv pairs IH]; intros d H; simpl; auto.
  apply IH, no_empty_list_append, H.
Qed.

Lemma parse_qs_no_empty (qs : str) : no_empty_list (parse_qs qs).
Proof. apply fold_add_pair_no_empty; constructor. Qed.

(** What [parse_qs] holds for a key: the values of the pairs of
    [parse_qsl] with that name, in order; the key is absent when there is
    no such pair. *)
Lemma dict_get_parse_qs (k : str) (qs : str) :
  dict_get k (parse_qs qs) =
  match values_of k (parse_qsl qs) with
  | [] => None
  | v :: vs => Some (v :: vs)
  end.
Proof.
  pose proof (fold_add_pair_values k (parse_qsl qs) []) as H.
  pose proof (parse_qs_no_empty qs) as Hne.
  change (fold_left add_pair (parse_qsl qs) []) with (parse_qs qs) in H.
  unfold dict_values in H; simpl in H.
  destruct (dict_get k (parse_qs qs)) as [vs|] eqn:Hg.
  - rewrite <- H. destruct vs; [|reflexivity].
    exfalso; exact (no_empty_list_get _ _ _ Hne Hg eq_refl).
  - rewrite <- H; reflexivity.
Qed.

(** ** Filename sanitization *)

Example invalid_filename_chars_codes :
  map code invalid_filename_chars = [92; 47; 42; 63; 58; 34; 60; 62; 124].
Proof. reflexivity. Qed.

(** C6. For every label, [clean_filename] has the length of the label
    and holds none of the nine characters backslash, slash, asterisk,
    question mark, colon, double quote (the character of code 034), less
    than, greater than and vertical bar; it differs from the label
    exactly where the label has one of the nine, and has an underscore
    there. *)
Theorem clean_filename_spec (label : str) :
  let nine := ["\"%char; "/"%char; "*"%char; "?"%char; ":"%char;
               "034"%char; "<"%char; ">"%char; "|"%char] in
  List.length (clean_filename label) = List.length label
  /\ (forall c, In c nine -> ~ In c (clean_filename label))
  /\ forall i : nat,
       nth_error (clean_filename label) i
       = option_map
           (fun c => if existsb (Ascii.eqb c) nine then "_"%char else c)
           (nth_error label i).
Proof.
  intros nine. unfold clean_filename. split; [apply length_map|]. split.
  - intros c Hc Hin. apply in_map_iff in Hin as [x [Hx _]].
    assert (Hm : mem c invalid_filename_chars = true).
    { apply mem_In. exact Hc. }
    destruct (mem x invalid_filename_chars) eqn:Hxm.
    + subst c. discriminate.
    + subst x. rewrite Hm in Hxm. discriminate.
  - intros i. rewrite nth_error_map. reflexivity.
Qed.

Lemma clean_filename_spec_witness :
  let label := lit "a\b/c*d?e:f" ++ ["034"%char] ++ lit "g<h>i|j k.pdf" in
  clean_filename label = lit "a_b_c_d_e_f_g_h_i_j k.pdf"
  /\ List.length (clean_filename label) = 25%nat
  /\ ~ In "/"%char (clean_filename label)
  /\ ~ In "034"%char (clean_filename label)
  /\ nth_error (clean_filename label) 1 = Some "_"%char.
Proof.
  intros label. destruct (clean_filename_spec label) as [Hl [Hn Hi]].
  split; [reflexivity|]. split; [rewrite Hl; reflexivity|].
  split; [apply Hn; cbn; tauto|]. split; [apply Hn; cbn; tauto|].
  rewrite Hi. reflexivity.
Defined.

(** ** Address decrement: when it yields no address *)

Lemma item_status_dict (qs : str) :
  match dict_get "item" (parse_qs qs) with
  | None => item_status_of qs = ItemAbsent
  | Some values =>
      item_status_of qs =
      match py_int (hd [] values) with
      | Some n => ItemInteger n
      | None => ItemNotInteger (hd [] values)
      end
      /\ values <> []
  end.
Proof.
  rewrite dict_get_parse_qs. unfold item_status_of.
  destruct (values_of "item" (parse_qsl qs)); simpl; [reflexivity|].
  split; [reflexivity | discriminate].
Qed.

(** C3. On an address that [urlparse] accepts, [decrement_item_in_url]
    returns, and it returns [None] exactly when the item parameter is
    absent from the query, or its value is not an integer for [int], or
    its integer value is at most 1.  The value is that of the first
    occurrence of the item key that is not blank, its escapes decoded;
    an integer for [int] is a decimal numeral of at most 4300 digits,
    in the digits of any script, with or without sign, underscores
    between its digits and white space around it. *)
Theorem decrement_none_iff (E : Env) (url : str) (p : ParseResult)
    (s : state) :
  urlparse E url = Ok p ->
  (exists r, snd (decrement_item_in_url E url s) = Ok r)
  /\ (snd (decrement_item_in_url E url s) = Ok None <->
      item_status_of (query p) = ItemAbsent
      \/ (exists v, item_status_of (query p) = ItemNotInteger v)
      \/ (exists n, item_status_of (query p) = ItemInteger n /\ n <= 1)).
Proof.
  intros Hp. unfold decrement_item_in_url. rewrite Hp.
  pose proof (item_status_dict (query p)) as Hst.
  destruct (dict_get "item" (parse_qs (query p))) as [values|].
  - destruct Hst as [Hst _]. rewrite Hst.
    unfold try_except_ValueError.
    destruct (py_int (hd [] values)) as [n|]; simpl.
    + destruct (n <=? 1) eqn:Hn; simpl.
      * split; [eauto|]. split; [|reflexivity].
        intros _. right; right. exists n. split; [reflexivity|lia].
      * split; [eauto|]. split; [discriminate|].
        intros [H|[[v H]|[m [H Hm]]]]; try discriminate.
        inversion H; subst. lia.
    + split; [eauto|]. split; [|reflexivity]. intros _. right; left; eauto.
  - rewrite Hst. simpl. split; [eauto|]. split; auto.
Qed.

Lemma decrement_none_iff_witness :
  let url := lit "https://www.cityoftulsa.org/apps/CouncilDocuments?item=1" in
  let p := mkParseResult (lit "https") (lit "www.cityoftulsa.org")
             (lit "/apps/CouncilDocuments") [] (lit "item=1") [] in
  urlparse plain_env url = Ok p
  /\ snd (decrement_item_in_url plain_env url (initial_state [] []))
     = Ok None.
Proof.
  intros url p. split; [vm_compute; reflexivity|].
  apply (decrement_none_iff plain_env url p (initial_state [] [])).
  - vm_compute; reflexivity.
  - right; right. exists 1. split; [vm_compute; reflexivity | lia].
Defined.

(** The item is read as [int] reads it.  The first value below is the
    fullwidth digit three, percent-encoded: an integer, so that the
    address of item 2 is returned.  A numeral of 4301 digits is no
    integer for [int]; one of 4300 digits is. *)
Example decrement_fullwidth_digit :
  snd (decrement_item_in_url plain_env (lit "http://x/?item=%EF%BC%93")
         (initial_state [] []))
  = Ok (Some (lit "http://x/?item=2")).
Proof. vm_compute. reflexivity. Qed.

Example decrement_digit_limit :
  let s0 := initial_state [] [] in
  snd (decrement_item_in_url plain_env
         (lit "http://x/?item=1" ++ repeat "0"%char 4300) s0)
  = Ok None
  /\ snd (decrement_item_in_url plain_env
            (lit "http://x/?item=1" ++ repeat "0"%char 4299) s0)
     = Ok (Some (lit "http://x/?item=" ++ repeat "9"%char 4299)).
Proof. vm_compute. split; reflexivity. Qed.

(** An escape that is no UTF-8 is decoded to the replacement character,
    which is what the new query holds. *)
Example decrement_undecodable_escape :
  snd (decrement_item_in_url plain_env (lit "http://x/?a=%FF&item=3")
         (initial_state [] []))
  = Ok (Some (lit "http://x/?a=%EF%BF%BD&item=2")).
Proof. vm_compute. reflexivity. Qed.

(** ** Page extraction *)

Lemma starts_with_prefix (p s : str) :
  starts_with p s = true <-> exists r, s = p ++ r.
Proof.
  revert s; induction p as [|a p IH]; intros s; simpl.
  - split; eauto.
  - destruct s as [|b s].
    + split; [discriminate | intros [r H]; discriminate].
    + rewrite andb_true_iff, Ascii.eqb_eq, IH. split.
      * intros [-> [r ->]]. eauto.
      * intros [r [= -> ->]]. eauto.
Qed.

Lemma contains_spec (needle hay : str) :
  contains needle hay = true <-> exists pre post, hay = pre ++ needle ++ post.
Proof.
  induction hay as [|c hay IH]; simpl.
  - rewrite orb_false_r, starts_with_prefix. split.
    + intros [r H]. exists [], r. exact H.
    + intros [pre [post H]]. destruct pre; [eauto|discriminate].
  - rewrite orb_true_iff, starts_with_prefix, IH. split.
    + intros [[r H]|[pre [post H]]].
      * exists [], r. exact H.
      * exists (c :: pre), post. simpl; rewrite H; reflexivity.
    + intros [[|x pre] [post H]]; [left; eauto|].
      right. inversion H; eauto.
Qed.

Lemma should_download_spec (filter_word : option str) (label : str) :
  should_download filter_word label = true <-> matches_filter filter_word label.
Proof.
  destruct filter_word as [w|]; simpl; [|tauto].
  destruct w as [|c w]; simpl nonempty; cbv iota.
  - split; auto. intros _. exists [], (lower label). reflexivity.
  - apply contains_spec.
Qed.

Lemma requests_app (a b : list event) :
  requests (a ++ b) = requests a ++ requests b.
Proof. apply flat_map_app. Qed.

(** One turn of the loop over the filename markers. *)
Lemma download_file_run (E : Env) (output_dir : str)
    (filter_word : option str) (fe : Div * list Div) (n : Z) (s : state) :
  (forall p, open_wb_ok E p = true) ->
  let wl := wanted filter_word (ref_of_element fe) in
  let fl := fetched E wl in
  exists s',
    download_file E output_dir filter_word fe n s
      = (s', Ok (n + Z.of_nat (List.length fl)))
    /\ fs_dirs s' = fs_dirs s
    /\ fs_files s' = List.rev (map (saved output_dir) fl) ++ fs_files s
    /\ requests (trace s')
       = requests (trace s) ++ map (fun r => pdf_url_of (snd r)) wl
    /\ driver_view (trace s') = driver_view (trace s).
Proof.
  intros Hfs. unfold download_file, ref_of_element, wanted, fetched.
  destruct (find_next "pdfString" (snd fe)) as [e|]; simpl;
    destruct (should_download filter_word (strip (div_text (fst fe))));
    simpl.
  - unfold fetch, try_except_RequestException, bind, get, log, emit,
      raise_for_status, write_file, raise, ret; simpl.
    destruct (requests_get E (pdf_url_of (strip (div_text e)))) as [err|r];
      simpl.
    + eexists; split; [rewrite Z.add_0_r; reflexivity|]. simpl.
      repeat split; auto;
        trace_simpl; reflexivity.
    + destruct (http_error r) as [err|]; simpl.
      * eexists; split; [rewrite Z.add_0_r; reflexivity|]. simpl.
        repeat split; auto;
          trace_simpl; reflexivity.
      * rewrite Hfs. simpl.
        eexists; split; [reflexivity|]. simpl.
        repeat split; auto;
          trace_simpl; reflexivity.
  - unfold bind, log, emit, ret; simpl.
    eexists; split; [rewrite Z.add_0_r; reflexivity|]. simpl.
    repeat split; auto;
      trace_simpl; reflexivity.
  - unfold ret. eexists; split; [rewrite Z.add_0_r; reflexivity|].
    rewrite app_nil_r. auto.
  - unfold bind, log, emit, ret; simpl.
    eexists; split; [rewrite Z.add_0_r; reflexivity|]. simpl.
    repeat split; auto;
      trace_simpl; reflexivity.
Qed.

Lemma fetched_app (E : Env) (a b : list (str * str)) :
  fetched E (a ++ b) = fetched E a ++ fetched E b.
Proof. apply flat_map_app. Qed.

Lemma wanted_app (fw : option str) (a b : list (str * str)) :
  wanted fw (a ++ b) = wanted fw a ++ wanted fw b.
Proof. apply filter_app. Qed.

(** The loop over the filename markers. *)
Lemma for_each_run (E : Env) (output_dir : str) (filter_word : option str)
    (fes : list (Div * list Div)) :
  (forall p, open_wb_ok E p = true) ->
  forall (n : Z) (s : state),
  let wl := wanted filter_word (flat_map ref_of_element fes) in
  let fl := fetched E wl in
  exists s',
    for_each fes (download_file E output_dir filter_word) n s
      = (s', Ok (n + Z.of_nat (List.length fl)))
    /\ fs_dirs s' = fs_dirs s
    /\ fs_files s' = List.rev (map (saved output_dir) fl) ++ fs_files s
    /\ requests (trace s')
       = requests (trace s) ++ map (fun r => pdf_url_of (snd r)) wl
    /\ driver_view (trace s') = driver_view (trace s).
Proof.
  intros Hfs. induction fes as [|fe fes IH]; intros n s; simpl.
  - exists s. unfold ret. rewrite Z.add_0_r, app_nil_r. auto.
  - destruct (download_file_run E output_dir filter_word fe n s Hfs)
      as [s1 [Hrun [Hd [Hf [Hr Hs]]]]].
    destruct (IH (n + Z.of_nat (List.length
                (fetched E (wanted filter_word (ref_of_element fe))))) s1)
      as [s2 [Hrun2 [Hd2 [Hf2 [Hr2 Hs2]]]]].
    exists s2. unfold bind. rewrite Hrun, Hrun2.
    rewrite wanted_app, fetched_app, length_app, map_app, map_app, rev_app_distr.
    rewrite Hd2, Hf2, Hr2, Hs2, Hd, Hf, Hr, Hs, Nat2Z.inj_add.
    rewrite <- !app_assoc, Z.add_assoc. auto.
Qed.

Lemma find_all_nil_refs (divs : list Div) :
  find_all "fileName" divs = [] -> file_references divs = [].
Proof. unfold file_references. intros ->; reflexivity. Qed.

(** What [extract_pdfs] does on a reliable file system: it returns the
    number of wanted references of the page that it fetches with success,
    saves exactly those, and requests the page and then the retrieval
    address of each wanted reference. *)
Lemma extract_pdfs_run (E : Env) (url output_dir : str)
    (filter_word : option str) (s : state) :
  fs_reliable E output_dir ->
  exists s',
    extract_pdfs E url output_dir filter_word s
      = (s', Ok (extract_count E url filter_word))
    /\ fs_files s'
       = List.rev (map (saved output_dir) (page_downloads E url filter_word))
         ++ fs_files s
    /\ requests (trace s')
       = requests (trace s)
         ++ url :: map (fun r => pdf_url_of (snd r))
                       (wanted filter_word (page_refs E url))
    /\ driver_view (trace s')
       = driver_view (trace s) ++ [Log INFO (AccessingURL url)].
Proof.
  intros [Hmk Hopen].
  unfold extract_pdfs, extract_count, page_downloads, page_refs, fetch.
  unfold bind at 1, path_exists.
  set (present := existsb (str_eqb output_dir) (fs_dirs s)
                  || existsb (fun f => str_eqb output_dir (fst f))
                       (fs_files s)).
  assert (Hpre : exists s0,
             (if negb present then makedirs E output_dir else ret tt) s
               = (s0, Ok tt)
             /\ fs_files s0 = fs_files s
             /\ requests (trace s0) = requests (trace s)
             /\ driver_view (trace s0) = driver_view (trace s)).
  { destruct present; simpl.
    - exists s; auto.
    - unfold makedirs. rewrite Hmk. eexists; split; [reflexivity|]. simpl.
      trace_simpl. auto. }
  destruct Hpre as [s0 [Hrun0 [Hf0 [Hr0 Hs0]]]].
  unfold bind at 1. rewrite Hrun0.
  unfold try_except_RequestException, bind, log, emit, get,
    raise_for_status, raise, ret; simpl.
  destruct (requests_get E url) as [err|resp]; simpl.
  - eexists; split; [reflexivity|]. simpl.
    trace_simpl. rewrite Hf0.
        fold (requests (trace s0)); fold (driver_view (trace s0)).
        rewrite Hr0, Hs0. auto.
  - destruct (http_error resp) as [err|]; simpl.
    + eexists; split; [reflexivity|]. simpl.
      trace_simpl. rewrite Hf0.
        fold (requests (trace s0)); fold (driver_view (trace s0)).
        rewrite Hr0, Hs0. auto.
    + pose proof (find_all_nil_refs (html_divs E (text resp))) as Hnil.
      unfold file_references in *.
      destruct (find_all _ (html_divs E (text resp)))
        as [|fe fes] eqn:Hall.
      * simpl.
        eexists; split; [reflexivity|]. simpl.
        trace_simpl. rewrite Hf0.
        fold (requests (trace s0)); fold (driver_view (trace s0)).
        rewrite Hr0, Hs0. auto.
      * clear Hnil.
        match goal with
        | |- context [for_each _ _ 0 ?st] =>
            destruct (for_each_run E output_dir filter_word (fe :: fes)
                        Hopen 0 st) as [s2 [Hrun2 [Hd2 [Hf2 [Hr2 Hs2]]]]]
        end.
        rewrite Hrun2. rewrite Z.add_0_l.
        eexists; split; [reflexivity|].
        rewrite Hf2, Hr2, Hs2. simpl.
        trace_simpl. rewrite Hf0.
        fold (requests (trace s0)); fold (driver_view (trace s0)).
        rewrite Hr0, Hs0. auto.
Qed.

(** ** The traversal driver *)

Lemma driver_view_app (a b : list event) :
  driver_view (a ++ b) = driver_view a ++ driver_view b.
Proof. apply filter_app. Qed.

(** [decrement_item_in_url] touches the trace only: it appends its
    diagnostics, which do not depend on the state. *)
Lemma decrement_run (E : Env) (url : str) (s : state) :
  decrement_item_in_url E url s
  = (mkState (fs_dirs s) (fs_files s) (trace s ++ decrement_logs E url),
     next_address E url).
Proof.
  unfold next_address, decrement_logs, decrement_item_in_url.
  destruct s as [dirs files t].
  destruct (urlparse E url) as [p|e|]; simpl;
    try (unfold raise, out_of_fuel; simpl; rewrite app_nil_r; reflexivity).
  destruct (dict_get _ (parse_qs (query p))) as [values|]; simpl.
  - unfold try_except_ValueError.
    destruct (py_int (hd [] values)) as [n|]; simpl.
    + destruct (n <=? 1); simpl; rewrite app_nil_r; reflexivity.
    + reflexivity.
  - reflexivity.
Qed.



Lemma report_run (max_pages : option Z) (v : loop_vars) (s : state) :
  report max_pages v s
  = (mkState (fs_dirs s) (fs_files s) (trace s ++ report_view max_pages v),
     Ok PyNone).
Proof.
  unfold report, report_view, bind, log, emit, ret.
  destruct (truthy_int max_pages
            && match max_pages with
               | Some m => m <=? page_count v
               | None => false
               end); simpl.
  - rewrite <- app_assoc; reflexivity.
  - destruct (negb (truthy_url (current_url v))); simpl.
    + rewrite <- app_assoc; reflexivity.
    + reflexivity.
Qed.



(** ** Text above ASCII *)

Lemma utf8_closed_nil : utf8_closed [].
Proof. intros t. reflexivity. Qed.

Lemma utf8_closed_app (a b : str) :
  utf8_closed a -> utf8_closed b -> utf8_closed (a ++ b).
Proof.
  intros Ha Hb t. rewrite <- !app_assoc, Ha, Hb. reflexivity.
Qed.

Lemma utf8_closed_replacement : utf8_closed replacement.
Proof. intros t. reflexivity. Qed.

Lemma utf8_start_ascii (c : ascii) :
  code c < 128 -> utf8_start c = ([c], Complete).
Proof.
  intros H. unfold utf8_start.
  destruct (code c <? 128) eqn:H1; [reflexivity|].
  apply Z.ltb_ge in H1. lia.
Qed.

Lemma utf8_start_lead2 (c : ascii) :
  194 <= code c < 224 -> utf8_start c = ([], Lead2 c).
Proof.
  intros H. unfold utf8_start.
  destruct (code c <? 128) eqn:H1; [apply Z.ltb_lt in H1; lia|].
  destruct (code c <? 194) eqn:H2; [apply Z.ltb_lt in H2; lia|].
  destruct (code c <? 224) eqn:H3; [reflexivity|].
  apply Z.ltb_ge in H3. lia.
Qed.

Lemma utf8_start_lead3 (c : ascii) :
  224 <= code c < 240 -> utf8_start c = ([], Lead3 c).
Proof.
  intros H. unfold utf8_start.
  destruct (code c <? 128) eqn:H1; [apply Z.ltb_lt in H1; lia|].
  destruct (code c <? 194) eqn:H2; [apply Z.ltb_lt in H2; lia|].
  destruct (code c <? 224) eqn:H3; [apply Z.ltb_lt in H3; lia|].
  destruct (code c <? 240) eqn:H4; [reflexivity|].
  apply Z.ltb_ge in H4. lia.
Qed.

Lemma utf8_start_lead4 (c : ascii) :
  240 <= code c < 245 -> utf8_start c = ([], Lead4 c).
Proof.
  intros H. unfold utf8_start.
  destruct (code c <? 128) eqn:H1; [apply Z.ltb_lt in H1; lia|].
  destruct (code c <? 194) eqn:H2; [apply Z.ltb_lt in H2; lia|].
  destruct (code c <? 224) eqn:H3; [apply Z.ltb_lt in H3; lia|].
  destruct (code c <? 240) eqn:H4; [apply Z.ltb_lt in H4; lia|].
  destruct (code c <? 245) eqn:H5; [reflexivity|].
  apply Z.ltb_ge in H5. lia.
Qed.

(** What the decoder writes when it starts on a byte, and the state it
    is left in. *)
Lemma utf8_start_spec (c : ascii) :
  utf8_closed (fst (utf8_start c)) /\ utf8_pending (snd (utf8_start c))
  /\ (snd (utf8_start c) = Complete ->
      fst (utf8_start c) = [c] /\ code c < 128
      \/ fst (utf8_start c) = replacement /\ 128 <= code c).
Proof.
  unfold utf8_start.
  destruct (code c <? 128) eqn:H1.
  { apply Z.ltb_lt in H1. cbn [fst snd utf8_pending].
    split; [|split; [exact I|auto]].
    intros t. cbn [app utf8_decode utf8_step].
    rewrite (utf8_start_ascii c H1). reflexivity. }
  apply Z.ltb_ge in H1.
  destruct (code c <? 194) eqn:H2.
  { cbn [fst snd utf8_pending].
    split; [apply utf8_closed_replacement|split; [exact I|auto]]. }
  apply Z.ltb_ge in H2.
  destruct (code c <? 224) eqn:H3.
  { apply Z.ltb_lt in H3. cbn [fst snd utf8_pending].
    split; [apply utf8_closed_nil|split; [lia|discriminate]]. }
  apply Z.ltb_ge in H3.
  destruct (code c <? 240) eqn:H4.
  { apply Z.ltb_lt in H4. cbn [fst snd utf8_pending].
    split; [apply utf8_closed_nil|split; [lia|discriminate]]. }
  apply Z.ltb_ge in H4.
  destruct (code c <? 245) eqn:H5.
  { apply Z.ltb_lt in H5. cbn [fst snd utf8_pending].
    split; [apply utf8_closed_nil|split; [lia|discriminate]]. }
  cbn [fst snd utf8_pending].
  split; [apply utf8_closed_replacement|split; [exact I|auto]].
Qed.

Lemma utf8_restart_spec (c : ascii) :
  utf8_closed (fst (utf8_restart c)) /\ utf8_pending (snd (utf8_restart c)).
Proof.
  unfold utf8_restart. destruct (utf8_start_spec c) as [H1 [H2 _]].
  destruct (utf8_start c) as [out st]. cbn [fst snd] in *.
  split; [|exact H2].
  apply utf8_closed_app; [apply utf8_closed_replacement|exact H1].
Qed.

Lemma utf8_step_spec (st : utf8_state) (c : ascii) :
  utf8_pending st ->
  utf8_closed (fst (utf8_step st c)) /\ utf8_pending (snd (utf8_step st c)).
Proof.
  destruct st as [|b0|b0|b0 b1|b0|b0 b1|b0 b1 b2]; cbn [utf8_step utf8_pending].
  - intros _. destruct (utf8_start_spec c) as [H1 [H2 _]]. auto.
  - intros H0. destruct (is_continuation c) eqn:Hc;
      [|apply utf8_restart_spec].
    cbn [fst snd utf8_pending]. split; [|exact I].
    intros t. cbn [app utf8_decode utf8_step].
    rewrite (utf8_start_lead2 b0 H0). cbn [utf8_step app].
    rewrite Hc. reflexivity.
  - intros H0. destruct (is_continuation c) eqn:Hc;
      [|apply utf8_restart_spec].
    destruct (if code c <? 160 then code b0 =? 224 else code b0 =? 237)
      eqn:Hr; [apply utf8_restart_spec|].
    cbn [andb negb fst snd utf8_pending].
    split; [apply utf8_closed_nil|auto].
  - intros [H0 [H1 Hr]]. destruct (is_continuation c) eqn:Hc;
      [|apply utf8_restart_spec].
    cbn [fst snd utf8_pending]. split; [|exact I].
    intros t. cbn [app utf8_decode utf8_step].
    rewrite (utf8_start_lead3 b0 H0). cbn [utf8_step app].
    rewrite H1, Hr. cbn [andb negb app utf8_step]. rewrite Hc. reflexivity.
  - intros H0. destruct (is_continuation c) eqn:Hc;
      [|apply utf8_restart_spec].
    destruct (if code c <? 144 then code b0 =? 240 else code b0 =? 244)
      eqn:Hr; [apply utf8_restart_spec|].
    cbn [andb negb fst snd utf8_pending].
    split; [apply utf8_closed_nil|auto].
  - intros [H0 [H1 Hr]]. destruct (is_continuation c) eqn:Hc;
      [|apply utf8_restart_spec].
    cbn [fst snd utf8_pending].
    split; [apply utf8_closed_nil|auto].
  - intros [H0 [H1 [Hr H2]]]. destruct (is_continuation c) eqn:Hc;
      [|apply utf8_restart_spec].
    cbn [fst snd utf8_pending]. split; [|exact I].
    intros t. cbn [app utf8_decode utf8_step].
    rewrite (utf8_start_lead4 b0 H0). cbn [utf8_step app].
    rewrite H1, Hr. cbn [andb negb app utf8_step]. rewrite H2.
    cbn [app utf8_step]. rewrite Hc. reflexivity.
Qed.

Lemma utf8_decode_closed (s : str) (st : utf8_state) :
  utf8_pending st -> utf8_closed (utf8_decode st s).
Proof.
  revert st. induction s as [|c s IH]; intros st Hst.
  - destruct st; first [apply utf8_closed_nil|apply utf8_closed_replacement].
  - cbn [utf8_decode]. destruct (utf8_step_spec st c Hst) as [H1 H2].
    destruct (utf8_step st c) as [out st']. cbn [fst snd] in *.
    apply utf8_closed_app; [exact H1|apply IH, H2].
Qed.

(** Decoding what was decoded changes nothing. *)
Lemma utf8_replace_idempotent (s : str) :
  utf8_replace (utf8_replace s) = utf8_replace s.
Proof.
  unfold utf8_replace.
  pose proof (utf8_decode_closed s Complete I []) as H.
  rewrite app_nil_r in H. rewrite H. apply app_nil_r.
Qed.

(** ASCII text decodes to itself. *)
Lemma utf8_replace_ascii (s : str) :
  ascii_text s = true -> utf8_replace s = s.
Proof.
  unfold utf8_replace, ascii_text.
  induction s as [|c s IH]; [reflexivity|]. cbn [forallb].
  intros H. apply andb_true_iff in H as [Hc Hs]. apply Z.ltb_lt in Hc.
  cbn [utf8_decode utf8_step]. rewrite (utf8_start_ascii c Hc).
  cbn [app]. rewrite (IH Hs). reflexivity.
Qed.

Lemma utf8_pending_output (s : str) (st : utf8_state) :
  utf8_pending st -> st <> Complete -> ascii_text (utf8_decode st s) = false.
Proof.
  revert st. induction s as [|c s IH]; intros st Hst Hne.
  - destruct st; [contradiction| | | | | |]; reflexivity.
  - cbn [utf8_decode].
    assert (Hre : forall r, ascii_text (fst (utf8_restart c) ++ r) = false).
    { intros r. unfold utf8_restart. destruct (utf8_start c). reflexivity. }
    assert (Hhigh : forall b0 r, 194 <= code b0 ->
                      ascii_text (b0 :: r) = false).
    { intros b0 r H. unfold ascii_text. cbn [forallb].
      destruct (code b0 <? 128) eqn:Hb; [apply Z.ltb_lt in Hb; lia|].
      reflexivity. }
    destruct st as [|b0|b0|b0 b1|b0|b0 b1|b0 b1 b2];
      [contradiction| | | | | |]; cbn [utf8_step utf8_pending] in *.
    + destruct (is_continuation c).
      * apply Hhigh. lia.
      * specialize (Hre (utf8_decode (snd (utf8_restart c)) s)).
        destruct (utf8_restart c). exact Hre.
    + destruct (is_continuation c) eqn:Hc.
      * destruct (if code c <? 160 then code b0 =? 224 else code b0 =? 237)
          eqn:Hr; cbn [andb negb].
        -- specialize (Hre (utf8_decode (snd (utf8_restart c)) s)).
           destruct (utf8_restart c). exact Hre.
        -- cbn [app]. apply IH; [cbn; auto|discriminate].
      * cbn [andb].
        specialize (Hre (utf8_decode (snd (utf8_restart c)) s)).
        destruct (utf8_restart c). exact Hre.
    + destruct (is_continuation c).
      * apply Hhigh. lia.
      * specialize (Hre (utf8_decode (snd (utf8_restart c)) s)).
        destruct (utf8_restart c). exact Hre.
    + destruct (is_continuation c) eqn:Hc.
      * destruct (if code c <? 144 then code b0 =? 240 else code b0 =? 244)
          eqn:Hr; cbn [andb negb].
        -- specialize (Hre (utf8_decode (snd (utf8_restart c)) s)).
           destruct (utf8_restart c). exact Hre.
        -- cbn [app]. apply IH; [cbn; auto|discriminate].
      * cbn [andb].
        specialize (Hre (utf8_decode (snd (utf8_restart c)) s)).
        destruct (utf8_restart c). exact Hre.
    + destruct (is_continuation c) eqn:Hc.
      * cbn [app]. apply IH; [cbn; tauto|discriminate].
      * specialize (Hre (utf8_decode (snd (utf8_restart c)) s)).
        destruct (utf8_restart c). exact Hre.
    + destruct (is_continuation c).
      * apply Hhigh. lia.
      * specialize (Hre (utf8_decode (snd (utf8_restart c)) s)).
        destruct (utf8_restart c). exact Hre.
Qed.

(** Text that decodes to ASCII text is that text. *)
Lemma utf8_replace_ascii_inv (s : str) :
  ascii_text (utf8_replace s) = true -> utf8_replace s = s.
Proof.
  intros H. apply utf8_replace_ascii. revert H. unfold utf8_replace.
  induction s as [|c s IH]; [reflexivity|].
  cbn [utf8_decode utf8_step].
  destruct (utf8_start_spec c) as [_ [Hp Hc]].
  destruct (utf8_start c) as [out st] eqn:Hs. cbn [fst snd] in *.
  destruct st as [|b0|b0|b0 b1|b0|b0 b1|b0 b1 b2].
  - destruct (Hc eq_refl) as [[-> Hlt]|[-> _]].
    + unfold ascii_text. cbn [app forallb]. intros H.
      apply andb_true_iff in H as [H1 H2]. rewrite H1. exact (IH H2).
    + discriminate.
  - unfold ascii_text at 1. rewrite forallb_app. intros H.
    apply andb_true_iff in H as [_ H].
    fold (ascii_text (utf8_decode (Lead2 b0) s)) in H.
    rewrite utf8_pending_output in H by (auto; discriminate). discriminate.
  - unfold ascii_text at 1. rewrite forallb_app. intros H.
    apply andb_true_iff in H as [_ H].
    fold (ascii_text (utf8_decode (Lead3 b0) s)) in H.
    rewrite utf8_pending_output in H by (auto; discriminate). discriminate.
  - unfold ascii_text at 1. rewrite forallb_app. intros H.
    apply andb_true_iff in H as [_ H].
    fold (ascii_text (utf8_decode (Lead3b b0 b1) s)) in H.
    rewrite utf8_pending_output in H by (auto; discriminate). discriminate.
  - unfold ascii_text at 1. rewrite forallb_app. intros H.
    apply andb_true_iff in H as [_ H].
    fold (ascii_text (utf8_decode (Lead4 b0) s)) in H.
    rewrite utf8_pending_output in H by (auto; discriminate). discriminate.
  - unfold ascii_text at 1. rewrite forallb_app. intros H.
    apply andb_true_iff in H as [_ H].
    fold (ascii_text (utf8_decode (Lead4b b0 b1) s)) in H.
    rewrite utf8_pending_output in H by (auto; discriminate). discriminate.
  - unfold ascii_text at 1. rewrite forallb_app. intros H.
    apply andb_true_iff in H as [_ H].
    fold (ascii_text (utf8_decode (Lead4c b0 b1 b2) s)) in H.
    rewrite utf8_pending_output in H by (auto; discriminate). discriminate.
Qed.

Lemma continuation_high (c : ascii) :
  is_continuation c = true -> 128 <= code c.
Proof.
  unfold is_continuation. intros H. apply andb_true_iff in H as [H _].
  apply Z.leb_le in H. exact H.
Qed.

Lemma not_continuation (c : ascii) :
  code c < 128 -> is_continuation c = false.
Proof.
  intros H. destruct (is_continuation c) eqn:Hc; [|reflexivity].
  apply continuation_high in Hc. lia.
Qed.

Lemma utf8_step_ascii (st : utf8_state) (c : ascii) :
  code c < 128 -> utf8_step st c = (utf8_finish st ++ [c], Complete).
Proof.
  intros H. pose proof (not_continuation c H) as Hc.
  destruct st; cbn [utf8_step utf8_finish]; rewrite ?Hc; cbn [andb];
    unfold utf8_restart; rewrite (utf8_start_ascii c H); reflexivity.
Qed.

(** An ASCII character ends what precedes it. *)
Lemma utf8_decode_cut (a b : str) (c : ascii) (st : utf8_state) :
  code c < 128 ->
  utf8_decode st (a ++ c :: b)
  = utf8_decode st a ++ c :: utf8_decode Complete b.
Proof.
  intros Hc. revert st. induction a as [|x a IH]; intros st.
  - cbn [app utf8_decode]. rewrite (utf8_step_ascii st c Hc).
    rewrite <- app_assoc. reflexivity.
  - cbn [app utf8_decode]. destruct (utf8_step st x) as [out st'].
    rewrite IH, app_assoc. reflexivity.
Qed.

Lemma utf8_start_length (c : ascii) :
  (1 <= List.length (fst (utf8_start c)) + utf8_held (snd (utf8_start c)))%nat.
Proof.
  unfold utf8_start.
  repeat match goal with
         | |- context [if ?b then _ else _] => destruct b
         end; cbn; lia.
Qed.

Lemma utf8_step_length (st : utf8_state) (c : ascii) :
  (utf8_held st + 1
   <= List.length (fst (utf8_step st c)) + utf8_held (snd (utf8_step st c)))%nat.
Proof.
  pose proof (utf8_start_length c) as Hs.
  assert (Hr : (4 <= List.length (fst (utf8_restart c))
                     + utf8_held (snd (utf8_restart c)))%nat).
  { unfold utf8_restart. destruct (utf8_start c) as [out st'].
    cbn [fst snd] in *. rewrite length_app. cbn. lia. }
  destruct st; cbn [utf8_step utf8_held];
    repeat match goal with
           | |- context [if ?b then _ else _] => destruct b
           end; cbn [fst snd utf8_held List.length]; lia.
Qed.

(** The decoder writes at least as many bytes as it reads. *)
Lemma utf8_decode_length (s : str) (st : utf8_state) :
  (utf8_held st + List.length s <= List.length (utf8_decode st s))%nat.
Proof.
  revert st. induction s as [|c s IH]; intros st.
  - destruct st; cbn; lia.
  - cbn [utf8_decode List.length].
    pose proof (utf8_step_length st c) as H.
    destruct (utf8_step st c) as [out st']. cbn [fst snd] in H.
    specialize (IH st'). rewrite length_app. lia.
Qed.

Lemma app_length_inv {A : Type} (x a y b : list A) :
  x ++ y = a ++ b -> List.length x = List.length a -> x = a /\ y = b.
Proof.
  revert a. induction x as [|u x IH]; intros [|v a] H Hl;
    try discriminate; [auto|].
  cbn in H. injection H as -> H. injection Hl as Hl.
  destruct (IH a H Hl) as [-> ->]. auto.
Qed.

(** The parts of a text around an ASCII character are texts. *)
Lemma well_formed_cut (a b : str) (c : ascii) :
  code c < 128 -> well_formed (a ++ c :: b) ->
  well_formed a /\ well_formed b.
Proof.
  unfold well_formed, utf8_replace. intros Hc H.
  rewrite (utf8_decode_cut a b c Complete Hc) in H.
  pose proof (utf8_decode_length a Complete) as La.
  pose proof (utf8_decode_length b Complete) as Lb.
  pose proof (f_equal (@List.length ascii) H) as Hl.
  rewrite !length_app in Hl. cbn [List.length utf8_held] in *.
  destruct (app_length_inv _ _ _ _ H) as [Ha Hb]; [lia|].
  injection Hb as Hb. auto.
Qed.

Lemma well_formed_closed (s : str) : well_formed s -> utf8_closed s.
Proof.
  intros H. rewrite <- H. apply (utf8_decode_closed s Complete I).
Qed.

Lemma well_formed_app (a b : str) :
  well_formed a -> well_formed b -> well_formed (a ++ b).
Proof.
  intros Ha Hb. unfold well_formed, utf8_replace.
  rewrite (well_formed_closed a Ha b). f_equal. exact Hb.
Qed.

Lemma well_formed_ascii (s : str) : ascii_text s = true -> well_formed s.
Proof. apply utf8_replace_ascii. Qed.

Lemma well_formed_replace (s : str) : well_formed (utf8_replace s).
Proof. apply utf8_replace_idempotent. Qed.

(** ** Decimal text of integers *)

Lemma lstrip_id (p : ascii -> bool) (s : str) :
  match s with [] => True | c :: _ => p c = false end -> lstrip p s = s.
Proof. destruct s as [|c s]; simpl; [reflexivity|]. intros ->; reflexivity. Qed.

Lemma strip_with_id (p : ascii -> bool) (s : str) :
  forallb (fun c => negb (p c)) s = true -> strip_with p s = s.
Proof.
  intros H. unfold strip_with, rstrip.
  assert (Hl : lstrip p s = s).
  { apply lstrip_id. destruct s as [|c s]; [exact I|]. simpl in H.
    apply andb_true_iff in H as [H _]. destruct (p c); [discriminate|auto]. }
  rewrite Hl. rewrite lstrip_id; [apply rev_involutive|].
  destruct (List.rev s) as [|c r] eqn:Hr; [exact I|].
  rewrite forallb_forall in H. specialize (H c).
  assert (Hin : In c s).
  { apply in_rev. rewrite Hr. left; reflexivity. }
  apply H in Hin. destruct (p c); [discriminate|reflexivity].
Qed.

Lemma uint_digits (d : Decimal.uint) :
  forallb is_digit (lit (DecimalString.NilEmpty.string_of_uint d)) = true.
Proof. induction d; simpl; auto. Qed.

Lemma digit_not_int_space (c : ascii) :
  is_digit c = true -> is_int_space c = false.
Proof.
  unfold is_digit, is_int_space. intros H.
  apply andb_true_iff in H as [H1 H2]. apply Z.leb_le in H1, H2.
  apply orb_false_iff. split.
  - apply andb_false_iff. right. apply Z.leb_gt. lia.
  - apply Z.eqb_neq. lia.
Qed.

Lemma digit_not_sign (c : ascii) :
  is_digit c = true ->
  Ascii.eqb c "-" = false /\ Ascii.eqb c "+" = false
  /\ Ascii.eqb c "_" = false.
Proof.
  intros H. repeat split; apply Ascii.eqb_neq; intros ->; discriminate.
Qed.

Lemma numeral_digits_all (ds : str) (b : bool) :
  forallb is_digit ds = true -> ds <> [] \/ b = true ->
  numeral_digits b ds = Some ds.
Proof.
  revert b; induction ds as [|c ds IH]; intros b Hd Hne; simpl.
  - destruct Hne as [Hne| ->]; [contradiction|reflexivity].
  - simpl in Hd. apply andb_true_iff in Hd as [Hc Hd]. rewrite Hc.
    rewrite (IH true Hd); [reflexivity | right; reflexivity].
Qed.

Lemma digits_value_uint (d : Decimal.uint) :
  digits_value (lit (DecimalString.NilEmpty.string_of_uint d))
  = Some (Z.of_uint d).
Proof.
  unfold digits_value, lit. rewrite string_of_list_ascii_of_string.
  rewrite DecimalString.NilEmpty.usu. reflexivity.
Qed.

Lemma uint_text_nonempty (d : Decimal.uint) :
  d <> Decimal.Nil ->
  lit (DecimalString.NilEmpty.string_of_uint d) <> [].
Proof. destruct d; simpl; intros H; try discriminate. contradiction. Qed.

Lemma uint_text_length (d : Decimal.uint) :
  List.length (lit (DecimalString.NilEmpty.string_of_uint d))
  = Decimal.nb_digits d.
Proof. induction d; simpl; congruence. Qed.

(** ASCII text is what [int] reads as it is. *)
Lemma transform_ascii (s : str) :
  forallb (fun c => code c <? 128) s = true ->
  transform_decimal_and_space 0 0 s = Some s.
Proof.
  induction s as [|c s IH]; [reflexivity|]. cbn [forallb].
  intros H. apply andb_true_iff in H as [Hc Hs].
  cbn [transform_decimal_and_space]. rewrite Hc, (IH Hs). reflexivity.
Qed.

Lemma digit_ascii (c : ascii) : is_digit c = true -> (code c <? 128) = true.
Proof.
  unfold is_digit. intros H. apply andb_true_iff in H as [_ H].
  apply Z.leb_le in H. apply Z.ltb_lt. lia.
Qed.

Lemma digits_ascii (s : str) :
  forallb is_digit s = true -> forallb (fun c => code c <? 128) s = true.
Proof.
  induction s as [|c s IH]; [reflexivity|]. cbn [forallb]. intros H.
  apply andb_true_iff in H as [Hc Hs]. rewrite (digit_ascii c Hc). auto.
Qed.

(** The value of a numeral and the number of its digits. *)
Lemma of_uint_acc_value (d : Decimal.uint) (acc : positive) :
  Z.pos (Pos.of_uint_acc d acc)
  = Z.pos acc * 10 ^ Z.of_nat (Decimal.nb_digits d) + Z.of_uint d.
Proof.
  unfold Z.of_uint. revert acc.
  induction d; intros acc;
    cbn [Pos.of_uint_acc Pos.of_uint Decimal.nb_digits Z.of_N];
    rewrite ?Nat2Z.inj_succ, ?Z.pow_succ_r by lia;
    rewrite ?IHd; try lia;
    set (x := 10 ^ Z.of_nat (Decimal.nb_digits d)); lia.
Qed.

Lemma of_uint_bounds (d : Decimal.uint) :
  0 <= Z.of_uint d < 10 ^ Z.of_nat (Decimal.nb_digits d).
Proof.
  induction d;
    try (unfold Z.of_uint; cbn [Pos.of_uint Decimal.nb_digits Z.of_N];
         rewrite of_uint_acc_value, Nat2Z.inj_succ, Z.pow_succ_r by lia;
         set (x := 10 ^ Z.of_nat (Decimal.nb_digits d)) in *; lia).
  - cbv. split; [discriminate|reflexivity].
  - change (Z.of_uint (Decimal.D0 d)) with (Z.of_uint d).
    cbn [Decimal.nb_digits]. rewrite Nat2Z.inj_succ, Z.pow_succ_r by lia.
    lia.
Qed.

Lemma unorm_head (d : Decimal.uint) :
  Decimal.unorm d = d -> d <> Decimal.D0 Decimal.Nil ->
  match d with Decimal.Nil | Decimal.D0 _ => False | _ => True end.
Proof.
  intros Hn Hz. destruct d; try exact I.
  - discriminate.
  - rewrite DecimalFacts.unorm_D0 in Hn.
    pose proof (DecimalFacts.nb_digits_nzhead d) as Hl.
    unfold Decimal.unorm in Hn.
    destruct (Decimal.nzhead d) eqn:Hh; try discriminate.
    + injection Hn as Hn. subst d. apply Hz; reflexivity.
    + rewrite Hn in Hl. simpl in Hl. lia.
Qed.

Lemma of_uint_ge (d : Decimal.uint) :
  Decimal.unorm d = d -> d <> Decimal.D0 Decimal.Nil ->
  10 ^ Z.of_nat (pred (Decimal.nb_digits d)) <= Z.of_uint d.
Proof.
  intros Hn Hz. pose proof (unorm_head d Hn Hz) as Hh.
  destruct d; try contradiction;
    unfold Z.of_uint; cbn [Pos.of_uint Decimal.nb_digits Z.of_N pred];
    rewrite of_uint_acc_value;
    pose proof (of_uint_bounds d) as Hb;
    set (x := 10 ^ Z.of_nat (Decimal.nb_digits d)) in *; lia.
Qed.

Lemma to_uint_norm (p : positive) :
  Decimal.unorm (Pos.to_uint p) = Pos.to_uint p.
Proof.
  rewrite <- (DecimalPos.Unsigned.to_of (Pos.to_uint p)).
  rewrite DecimalPos.Unsigned.of_to. reflexivity.
Qed.

(** The decimal text of a positive number below [10 ^ k] has at most
    [k] digits. *)
Lemma to_uint_digits (p : positive) (k : Z) :
  0 <= k -> Z.pos p < 10 ^ k ->
  Z.of_nat (Decimal.nb_digits (Pos.to_uint p)) <= k.
Proof.
  intros Hk Hp.
  pose proof (of_uint_ge (Pos.to_uint p) (to_uint_norm p)
                (DecimalPos.Unsigned.to_uint_nonzero p)) as Hge.
  unfold Z.of_uint in Hge. rewrite DecimalPos.Unsigned.of_to in Hge.
  cbn [Z.of_N] in Hge.
  destruct (Z.le_gt_cases (Z.of_nat (Decimal.nb_digits (Pos.to_uint p))) k)
    as [H|H]; [exact H|exfalso].
  assert (Hle : 10 ^ k <= 10 ^ Z.of_nat (pred (Decimal.nb_digits (Pos.to_uint p))))
    by (apply Z.pow_le_mono_r; lia).
  lia.
Qed.

Lemma uint_of_string_digits (ds : str) (d : Decimal.uint) :
  DecimalString.NilEmpty.uint_of_string (string_of_list_ascii ds) = Some d ->
  Decimal.nb_digits d = List.length ds.
Proof.
  revert d. induction ds as [|c ds IH]; intros d; cbn.
  - intros [= <-]. reflexivity.
  - destruct (DecimalString.NilEmpty.uint_of_string (string_of_list_ascii ds))
      as [d0|]; unfold DecimalString.uint_of_char.
    + specialize (IH d0 eq_refl).
      destruct c as [[|] [|] [|] [|] [|] [|] [|] [|]]; cbn;
        try discriminate; intros [= <-]; cbn; congruence.
    + destruct c as [[|] [|] [|] [|] [|] [|] [|] [|]]; cbn; discriminate.
Qed.

Lemma digits_value_bounds (ds : str) (v : Z) :
  digits_value ds = Some v -> 0 <= v < 10 ^ Z.of_nat (List.length ds).
Proof.
  unfold digits_value.
  destruct (DecimalString.NilEmpty.uint_of_string (string_of_list_ascii ds))
    as [d|] eqn:Hd; [|discriminate].
  intros [= <-]. rewrite <- (uint_of_string_digits ds d Hd).
  apply of_uint_bounds.
Qed.

(** What [int] returns is below the limit on the number of digits. *)
Lemma py_int_bound (s : str) (n : Z) :
  py_int s = Some n -> Z.abs n < 10 ^ int_max_str_digits.
Proof.
  unfold py_int.
  destruct (transform_decimal_and_space 0 0 s) as [a|]; [|discriminate].
  destruct (match strip_with is_int_space a with
            | [] => _ | c :: r => _ end) as [negative body].
  destruct (numeral_digits false body) as [ds|]; [|discriminate].
  destruct (int_max_str_digits <? Z.of_nat (List.length ds)) eqn:Hl;
    [discriminate|].
  apply Z.ltb_ge in Hl.
  destruct (digits_value ds) as [v|] eqn:Hv; [|discriminate].
  intros [= <-]. apply digits_value_bounds in Hv.
  assert (Hle : 10 ^ Z.of_nat (List.length ds) <= 10 ^ int_max_str_digits)
    by (apply Z.pow_le_mono_r; lia).
  destruct negative; lia.
Qed.

(** The numerals without sign: what [int] reads back. *)
Lemma py_int_digits (d : Decimal.uint) :
  d <> Decimal.Nil ->
  Z.of_nat (Decimal.nb_digits d) <= int_max_str_digits ->
  py_int (lit (DecimalString.NilEmpty.string_of_uint d)) = Some (Z.of_uint d).
Proof.
  intros Hd Hlen. unfold py_int.
  pose proof (uint_digits d) as Hall.
  pose proof (uint_text_nonempty d Hd) as Hne.
  pose proof (uint_text_length d) as Hl.
  set (t := lit (DecimalString.NilEmpty.string_of_uint d)) in *.
  rewrite transform_ascii by (apply digits_ascii, Hall).
  rewrite strip_with_id.
  2:{ apply forallb_forall. intros c Hc.
      rewrite forallb_forall in Hall.
      rewrite (digit_not_int_space c (Hall c Hc)). reflexivity. }
  destruct t as [|c r] eqn:Ht; [contradiction|].
  assert (Hc : is_digit c = true).
  { simpl in Hall. apply andb_true_iff in Hall as [H _]; exact H. }
  destruct (digit_not_sign c Hc) as [H1 [H2 _]]. rewrite H1, H2.
  rewrite numeral_digits_all; [| exact Hall | left; discriminate].
  rewrite Hl. destruct (int_max_str_digits <? _) eqn:Hlt;
    [apply Z.ltb_lt in Hlt; lia|].
  subst t. rewrite <- Ht, digits_value_uint. reflexivity.
Qed.

Lemma py_int_negative (d : Decimal.uint) :
  d <> Decimal.Nil ->
  Z.of_nat (Decimal.nb_digits d) <= int_max_str_digits ->
  py_int ("-"%char :: lit (DecimalString.NilEmpty.string_of_uint d))
  = Some (- Z.of_uint d).
Proof.
  intros Hd Hlen. unfold py_int.
  pose proof (uint_digits d) as Hall.
  pose proof (uint_text_nonempty d Hd) as Hne.
  pose proof (uint_text_length d) as Hl.
  set (t := lit (DecimalString.NilEmpty.string_of_uint d)) in *.
  rewrite transform_ascii
    by (cbn [forallb]; rewrite (digits_ascii t Hall); reflexivity).
  rewrite strip_with_id.
  2:{ simpl. apply forallb_forall. intros c Hc.
      rewrite forallb_forall in Hall.
      rewrite (digit_not_int_space c (Hall c Hc)). reflexivity. }
  rewrite Ascii.eqb_refl.
  rewrite numeral_digits_all; [| exact Hall | left; exact Hne].
  rewrite Hl. destruct (int_max_str_digits <? _) eqn:Hlt;
    [apply Z.ltb_lt in Hlt; lia|].
  subst t. rewrite digits_value_uint. reflexivity.
Qed.

(** [int(str(z)) == z], for the integers that [str] converts. *)
Lemma py_int_py_str (z : Z) :
  Z.abs z < 10 ^ int_max_str_digits -> py_int (py_str z) = Some z.
Proof.
  intros Hz. unfold py_str. destruct z as [|p|p]; [reflexivity| |].
  - simpl Z.to_int. unfold DecimalString.NilZero.string_of_int,
      DecimalString.NilZero.string_of_uint.
    pose proof (DecimalPos.Unsigned.to_uint_nonnil p) as Hnn.
    pose proof (to_uint_digits p int_max_str_digits) as Hk.
    destruct (Pos.to_uint p) eqn:Hu; try contradiction;
      rewrite <- Hu in *;
      (rewrite py_int_digits;
       [unfold Z.of_uint; rewrite DecimalPos.Unsigned.of_to; reflexivity
       |rewrite Hu; discriminate
       |apply Hk; [discriminate|exact Hz]]).
  - simpl Z.to_int. unfold DecimalString.NilZero.string_of_int,
      DecimalString.NilZero.string_of_uint.
    pose proof (DecimalPos.Unsigned.to_uint_nonnil p) as Hnn.
    pose proof (to_uint_digits p int_max_str_digits) as Hk.
    destruct (Pos.to_uint p) eqn:Hu; try contradiction;
      rewrite <- Hu in *;
      change (lit (String "-" ?s)) with ("-"%char :: lit s);
      (rewrite py_int_negative;
       [unfold Z.of_uint; rewrite DecimalPos.Unsigned.of_to; reflexivity
       |rewrite Hu; discriminate
       |apply Hk; [discriminate|exact Hz]]).
Qed.

(** ** Percent-encoding *)

Ltac each_char c :=
  destruct c as [[|] [|] [|] [|] [|] [|] [|] [|]]; vm_compute;
  try reflexivity; try discriminate; auto.

Lemma split_on_nonempty (c : ascii) (s : str) : split_on c s <> [].
Proof.
  induction s as [|x s IH]; simpl; [discriminate|].
  destruct (Ascii.eqb x c); [discriminate|].
  destruct (split_on c s); [contradiction|discriminate].
Qed.

Lemma split_on_no_sep (c : ascii) (s : str) :
  mem c s = false -> split_on c s = [s].
Proof.
  induction s as [|x s IH]; simpl; [reflexivity|].
  rewrite (Ascii.eqb_sym c x). intros H.
  apply orb_false_iff in H as [Hx Hs]. rewrite Hx, (IH Hs). reflexivity.
Qed.

(** [unquote_to_bytes] in one equation, whether or not a percent sign
    occurs. *)
Lemma unquote_to_bytes_split (s : str) :
  unquote_to_bytes s =
  match split_on "%" s with
  | first :: items => first ++ flat_map unquote_item items
  | [] => s
  end.
Proof.
  unfold unquote_to_bytes. destruct (mem "%" s) eqn:Hm; simpl; [reflexivity|].
  rewrite (split_on_no_sep _ _ Hm). simpl. rewrite app_nil_r. reflexivity.
Qed.

Lemma unquote_to_bytes_nil : unquote_to_bytes [] = [].
Proof. reflexivity. Qed.

Lemma unquote_to_bytes_cons (c : ascii) (r : str) :
  Ascii.eqb c "%" = false ->
  unquote_to_bytes (c :: r) = c :: unquote_to_bytes r.
Proof.
  intros Hc. rewrite !unquote_to_bytes_split. simpl. rewrite Hc.
  pose proof (split_on_nonempty "%" r) as Hne.
  destruct (split_on "%" r) as [|f fs]; [contradiction|reflexivity].
Qed.

Lemma hex_value_not_percent (c : ascii) (n : N) :
  hex_value c = Some n -> Ascii.eqb c "%" = false.
Proof. intros H. apply Ascii.eqb_neq. intros ->. discriminate. Qed.

Lemma unquote_to_bytes_escape (h l : ascii) (a b : N) (r : str) :
  hex_value h = Some a -> hex_value l = Some b ->
  unquote_to_bytes ("%"%char :: h :: l :: r)
  = ascii_of_N (16 * a + b) :: unquote_to_bytes r.
Proof.
  intros Hh Hl. rewrite !unquote_to_bytes_split.
  pose proof (hex_value_not_percent _ _ Hh) as Hh'.
  pose proof (hex_value_not_percent _ _ Hl) as Hl'.
  cbn [split_on]. rewrite Ascii.eqb_refl, Hh', Hl'.
  pose proof (split_on_nonempty "%" r) as Hne.
  destruct (split_on "%" r) as [|f fs]; [contradiction|].
  cbn [flat_map app unquote_item]. rewrite Hh, Hl. reflexivity.
Qed.

Lemma hex_char_value (c : ascii) :
  hex_value (hex_char (N_of_ascii c / 16)) = Some (N_of_ascii c / 16)%N
  /\ hex_value (hex_char (N_of_ascii c mod 16)) = Some (N_of_ascii c mod 16)%N
  /\ ascii_of_N (16 * (N_of_ascii c / 16) + N_of_ascii c mod 16) = c.
Proof. each_char c. Qed.

Lemma quote_char_space (c : ascii) :
  Ascii.eqb c " " = false ->
  quote_char " " c = quote_char [] c
  /\ replace_char " " "+" (quote_char [] c) = quote_char [] c.
Proof. intros H; revert H. each_char c. Qed.

Lemma replace_char_flat_map (a b : ascii) (f : ascii -> str) (s : str) :
  replace_char a b (flat_map f s) = flat_map (fun c => replace_char a b (f c)) s.
Proof.
  unfold replace_char. induction s as [|c s IH]; simpl; [reflexivity|].
  rewrite map_app, IH. reflexivity.
Qed.

(** [quote_plus], character by character. *)
Lemma quote_plus_flat (s : str) : quote_plus s = flat_map quote_plus_char s.
Proof.
  unfold quote_plus. destruct (mem " " s) eqn:Hm; cbn [negb].
  - unfold quote. rewrite replace_char_flat_map.
    apply flat_map_ext. intros c. unfold quote_plus_char.
    destruct (Ascii.eqb c " ") eqn:Hc.
    + apply Ascii.eqb_eq in Hc; subst; reflexivity.
    + destruct (quote_char_space c Hc) as [H1 H2].
      change (lit " ") with [" "%char] in *. rewrite H1, H2. reflexivity.
  - unfold quote. induction s as [|c s IH]; [reflexivity|].
    rewrite mem_cons in Hm. apply orb_false_iff in Hm as [Hc Hs].
    cbn [flat_map]. rewrite (IH Hs). f_equal. unfold quote_plus_char.
    rewrite Ascii.eqb_sym, Hc. reflexivity.
Qed.

Lemma always_safe_plain (c : ascii) :
  always_safe c = true ->
  Ascii.eqb c "%" = false /\ Ascii.eqb c "+" = false
  /\ Ascii.eqb c "=" = false /\ Ascii.eqb c "&" = false
  /\ Ascii.eqb c " " = false.
Proof. intros H; revert H. each_char c. Qed.

Lemma escape_plain (c : ascii) :
  replace_char "+" " "
    ["%"%char; hex_char (N_of_ascii c / 16); hex_char (N_of_ascii c mod 16)]
  = ["%"%char; hex_char (N_of_ascii c / 16); hex_char (N_of_ascii c mod 16)].
Proof. each_char c. Qed.

Lemma unquote_to_bytes_piece (c : ascii) (r : str) :
  unquote_to_bytes (replace_char "+" " " (quote_plus_char c) ++ r)
  = c :: unquote_to_bytes r.
Proof.
  unfold quote_plus_char. destruct (Ascii.eqb c " ") eqn:Hsp.
  - apply Ascii.eqb_eq in Hsp; subst c.
    change (replace_char "+" " " (lit "+") ++ r) with (" "%char :: r).
    apply unquote_to_bytes_cons. reflexivity.
  - unfold quote_char. rewrite orb_false_r.
    destruct (always_safe c) eqn:Hsafe.
    + destruct (always_safe_plain c Hsafe) as [Hp [Hplus _]].
      unfold replace_char. cbn [map app]. rewrite Hplus.
      apply unquote_to_bytes_cons. exact Hp.
    + rewrite escape_plain. cbn [app].
      destruct (hex_char_value c) as [Hh [Hl Hc]].
      rewrite (unquote_to_bytes_escape _ _ _ _ r Hh Hl), Hc. reflexivity.
Qed.

(** Decoding what [quote_plus] wrote gives the bytes back. *)
Lemma unquote_to_bytes_quote_plus (s : str) :
  unquote_to_bytes (replace_char "+" " " (quote_plus s)) = s.
Proof.
  rewrite quote_plus_flat, replace_char_flat_map.
  induction s as [|c s IH]; [reflexivity|].
  cbn [flat_map]. rewrite unquote_to_bytes_piece, IH. reflexivity.
Qed.

Lemma quote_plus_char_text (c : ascii) :
  forallb (fun x => always_safe x || mem x "%+") (quote_plus_char c) = true
  /\ quote_plus_char c <> [].
Proof. split; [each_char c | each_char c]. Qed.

Lemma quote_plus_text (s : str) :
  forallb (fun x => always_safe x || mem x "%+") (quote_plus s) = true.
Proof.
  rewrite quote_plus_flat. induction s as [|c s IH]; [reflexivity|].
  cbn [flat_map]. rewrite forallb_app, IH, andb_true_r.
  apply quote_plus_char_text.
Qed.

Lemma quote_plus_nonempty (s : str) : nonempty (quote_plus s) = nonempty s.
Proof.
  rewrite quote_plus_flat. destruct s as [|c s]; [reflexivity|].
  cbn [flat_map]. destruct (quote_plus_char_text c) as [_ Hne].
  destruct (quote_plus_char c); [contradiction|reflexivity].
Qed.

Lemma text_char_facts (x : ascii) :
  always_safe x || mem x "%+" = true ->
  Ascii.eqb x "=" = false /\ Ascii.eqb x "&" = false
  /\ encoded_char x = true.
Proof. intros H; revert H. each_char x. Qed.

Lemma quote_plus_no_sep (s : str) :
  mem "=" (quote_plus s) = false /\ mem "&" (quote_plus s) = false
  /\ forallb encoded_char (quote_plus s) = true.
Proof.
  pose proof (quote_plus_text s) as H.
  induction (quote_plus s) as [|x t IH]; [auto|].
  cbn [forallb] in H. apply andb_true_iff in H as [Hx Ht].
  destruct (IH Ht) as [H1 [H2 H3]].
  destruct (text_char_facts x Hx) as [F1 [F2 F3]].
  rewrite !mem_cons, H1, H2. cbn [forallb]. rewrite F3, H3.
  rewrite (Ascii.eqb_sym "=" x), (Ascii.eqb_sym "&" x), F1, F2. auto.
Qed.

Lemma text_char_ascii (x : ascii) :
  always_safe x || mem x "%+" = true ->
  (code (if Ascii.eqb x "+" then " "%char else x) <? 128) = true.
Proof. intros H; revert H. each_char x. Qed.

(** What [quote_plus] writes is ASCII text. *)
Lemma quote_plus_ascii (s : str) :
  ascii_text (replace_char "+" " " (quote_plus s)) = true.
Proof.
  pose proof (quote_plus_text s) as H. unfold ascii_text, replace_char.
  induction (quote_plus s) as [|x t IH]; [reflexivity|].
  cbn [forallb map] in *. apply andb_true_iff in H as [Hx Ht].
  rewrite (text_char_ascii x Hx), (IH Ht). reflexivity.
Qed.

(** Decoding what [quote_plus] wrote gives the text back, the bytes that
    are no text replaced. *)
Lemma unquote_quote_plus (s : str) :
  unquote (replace_char "+" " " (quote_plus s)) = utf8_replace s.
Proof.
  unfold unquote. pose proof (unquote_to_bytes_quote_plus s) as H.
  destruct (mem "%" (replace_char "+" " " (quote_plus s))) eqn:Hm;
    cbn [negb].
  - rewrite H. reflexivity.
  - unfold unquote_to_bytes in H. rewrite Hm in H. cbn [negb] in H.
    pose proof (quote_plus_ascii s) as Ha. rewrite H in *.
    symmetry. apply utf8_replace_ascii, Ha.
Qed.

Lemma unquote_text (s : str) :
  utf8_replace s = s -> unquote (replace_char "+" " " (quote_plus s)) = s.
Proof. intros H. rewrite unquote_quote_plus. exact H. Qed.

(** ** Encoding a dictionary and parsing it again *)

Lemma split_on_app (c : ascii) (a b : str) :
  mem c a = false -> split_on c (a ++ c :: b) = a :: split_on c b.
Proof.
  induction a as [|x a IH]; intros H; cbn [app split_on].
  - rewrite Ascii.eqb_refl. reflexivity.
  - rewrite mem_cons in H. apply orb_false_iff in H as [Hx Ha].
    rewrite (Ascii.eqb_sym x c), Hx, (IH Ha). reflexivity.
Qed.

Lemma split_on_join (c : ascii) (fields : list str) :
  fields <> [] -> Forall (fun f => mem c f = false) fields ->
  split_on c (join [c] fields) = fields.
Proof.
  induction fields as [|a r IH]; intros Hne Hall; [contradiction|].
  inversion Hall as [|? ? Ha Hr]; subst.
  destruct r as [|b r].
  - cbn [join]. apply split_on_no_sep, Ha.
  - change (join [c] (a :: b :: r)) with (a ++ c :: join [c] (b :: r)).
    rewrite (split_on_app _ _ _ Ha), IH; [reflexivity|discriminate|exact Hr].
Qed.

Lemma parse_qsl_fields (qs : str) :
  parse_qsl qs
  = flat_map parse_field (if nonempty qs then split_on "&" qs else []).
Proof. reflexivity. Qed.

Lemma parse_qsl_join (fields : list str) :
  Forall (fun f => mem "&" f = false) fields ->
  parse_qsl (join "&" fields) = flat_map parse_field fields.
Proof.
  intros Hall. rewrite parse_qsl_fields.
  destruct (nonempty (join "&" fields)) eqn:Hne.
  - change (lit "&") with ["&"%char]. rewrite split_on_join; auto.
    intros ->. discriminate.
  - destruct fields as [|a [|b r]]; [reflexivity| |].
    + cbn [join] in Hne. destruct a; [reflexivity|discriminate].
    + change (join "&" (a :: b :: r))
        with (a ++ "&"%char :: join "&" (b :: r)) in Hne.
      destruct a; discriminate.
Qed.

Lemma parse_field_field (k v : str) :
  parse_field (field k v)
  = if nonempty v then [(utf8_replace k, utf8_replace v)] else [].
Proof.
  unfold parse_field, field.
  destruct (quote_plus_no_sep k) as [Hk _].
  change (quote_plus k ++ lit "=" ++ quote_plus v)
    with (quote_plus k ++ "="%char :: quote_plus v).
  rewrite (find_split_app _ _ _ Hk), quote_plus_nonempty.
  destruct (nonempty v); [|reflexivity].
  rewrite !unquote_quote_plus. reflexivity.
Qed.

Lemma field_no_amp (k v : str) : mem "&" (field k v) = false.
Proof.
  unfold field. rewrite !mem_app.
  destruct (quote_plus_no_sep k) as [_ [-> _]].
  destruct (quote_plus_no_sep v) as [_ [-> _]]. reflexivity.
Qed.

Lemma parse_fields_of_key (k : str) (vs : list str) :
  flat_map parse_field (map (field k) vs)
  = map decoded_pair
      (flat_map (fun v => if nonempty v then [(k, v)] else []) vs).
Proof.
  induction vs as [|v vs IH]; [reflexivity|].
  cbn [map flat_map]. rewrite IH, parse_field_field, map_app.
  destruct (nonempty v); reflexivity.
Qed.

Lemma urlencode_fields (d : dict) :
  urlencode d = join "&" (flat_map (fun kv => map (field (fst kv)) (snd kv)) d).
Proof. reflexivity. Qed.

(** What the parser reads in an encoded dictionary: its pairs, blank
    values apart, each of them decoded. *)
Lemma parse_qsl_urlencode (d : dict) :
  parse_qsl (urlencode d) = map decoded_pair (dict_pairs d).
Proof.
  rewrite urlencode_fields, parse_qsl_join.
  - unfold dict_pairs. induction d as [|[k vs] d IH]; [reflexivity|].
    cbn [flat_map]. rewrite flat_map_app, IH, map_app. f_equal.
    apply parse_fields_of_key.
  - apply Forall_forall. intros f Hf.
    apply in_flat_map in Hf as [[k vs] [_ Hf]].
    apply in_map_iff in Hf as [v [<- _]]. apply field_no_amp.
Qed.

Lemma dict_pairs_text (d : dict) :
  dict_text d -> map decoded_pair (dict_pairs d) = dict_pairs d.
Proof.
  intros Ht. rewrite <- (map_id (dict_pairs d)) at 2.
  apply map_ext_in. intros [k v] Hin. unfold dict_pairs in Hin.
  apply in_flat_map in Hin as [[k0 vs] [Hd Hin]]. cbn [fst snd] in Hin.
  apply in_flat_map in Hin as [v0 [Hv Hin]].
  destruct (nonempty v0); [|contradiction].
  destruct Hin as [[= <- <-]|[]].
  unfold dict_text in Ht. rewrite Forall_forall in Ht.
  destruct (Ht _ Hd) as [Hk Hvs]. cbn [fst snd] in *.
  rewrite Forall_forall in Hvs. unfold decoded_pair. cbn [fst snd].
  rewrite Hk, (Hvs _ Hv). reflexivity.
Qed.

Lemma urlencode_chars (d : dict) : forallb encoded_char (urlencode d) = true.
Proof.
  unfold urlencode.
  set (fields := flat_map _ d).
  assert (Hf : Forall (fun f => forallb encoded_char f = true) fields).
  { apply Forall_forall. intros f Hf.
    apply in_flat_map in Hf as [[k vs] [_ Hf]].
    apply in_map_iff in Hf as [v [<- _]]. cbn [fst].
    rewrite !forallb_app.
    destruct (quote_plus_no_sep k) as [_ [_ ->]].
    destruct (quote_plus_no_sep v) as [_ [_ ->]]. reflexivity. }
  induction Hf as [|a r Ha Hr IH]; [reflexivity|].
  destruct r as [|b r]; [exact Ha|].
  change (join "&" (a :: b :: r)) with (a ++ lit "&" ++ join "&" (b :: r)).
  rewrite !forallb_app, Ha, IH. reflexivity.
Qed.

(** ** Dictionaries: keys and well-formedness *)

Lemma in_list_In (s : str) (l : list str) : in_list s l = true <-> In s l.
Proof.
  unfold in_list. rewrite existsb_exists. split.
  - intros [x [Hx He]]. apply str_eqb_eq in He; subst; auto.
  - intros H. exists s. split; auto. apply str_eqb_refl.
Qed.

Lemma dict_get_none_keys (k : str) (d : dict) :
  dict_get k d = None <-> ~ In k (keys d).
Proof.
  induction d as [|[k0 vs] d IH]; simpl; [tauto|].
  destruct (str_eqb k0 k) eqn:H0.
  - apply str_eqb_eq in H0; subst. split; [discriminate|]. intros H.
    exfalso; apply H; auto.
  - apply str_eqb_neq in H0. rewrite IH. tauto.
Qed.

Lemma dict_append_absent (k v : str) (d : dict) :
  ~ In k (keys d) -> dict_append k v d = d ++ [(k, [v])].
Proof.
  induction d as [|[k0 vs] d IH]; simpl; intros H; [reflexivity|].
  destruct (str_eqb k0 k) eqn:H0.
  - apply str_eqb_eq in H0; subst. exfalso; apply H; auto.
  - rewrite IH; auto.
Qed.

Lemma dict_append_last (k v : str) (vs : list str) (d : dict) :
  ~ In k (keys d) ->
  dict_append k v (d ++ [(k, vs)]) = d ++ [(k, vs ++ [v])].
Proof.
  induction d as [|[k0 vs0] d IH]; simpl; intros H.
  - rewrite str_eqb_refl. reflexivity.
  - destruct (str_eqb k0 k) eqn:H0.
    + apply str_eqb_eq in H0; subst. exfalso; apply H; auto.
    + rewrite IH; auto.
Qed.

Lemma keys_append_present (k v : str) (d : dict) :
  In k (keys d) -> keys (dict_append k v d) = keys d.
Proof.
  induction d as [|[k0 vs] d IH]; simpl; intros H; [contradiction|].
  destruct (str_eqb k0 k) eqn:H0; [reflexivity|].
  apply str_eqb_neq in H0. simpl. rewrite IH; [reflexivity|].
  destruct H; [contradiction|assumption].
Qed.

Lemma dict_append_wf (k v : str) (d : dict) :
  v <> [] -> dict_wf d -> dict_wf (dict_append k v d).
Proof.
  intros Hv [Hnd Hall]. destruct (in_dec (list_eq_dec ascii_dec) k (keys d))
    as [Hin|Hout].
  - split; [rewrite keys_append_present; auto|].
    clear Hnd Hin. induction Hall as [|[k0 vs] d [H1 H2] Hd IH]; simpl.
    + repeat constructor; auto; discriminate.
    + destruct (str_eqb k0 k); constructor; auto. simpl in *. split.
      * destruct vs; discriminate.
      * apply Forall_app; split; auto.
  - rewrite dict_append_absent by assumption. split.
    + unfold keys. rewrite map_app. simpl.
      apply NoDup_app; auto.
      * repeat constructor. simpl; tauto.
      * intros x Hx [<-|[]]. contradiction.
    + apply Forall_app; split; auto.
      repeat constructor; auto; discriminate.
Qed.

Lemma unquote_to_bytes_nonempty (s : str) :
  s <> [] -> unquote_to_bytes s <> [].
Proof.
  destruct s as [|c r]; [contradiction|]. intros _.
  destruct (Ascii.eqb c "%") eqn:Hc.
  - apply Ascii.eqb_eq in Hc; subst c. rewrite unquote_to_bytes_split.
    cbn [split_on]. rewrite Ascii.eqb_refl.
    pose proof (split_on_nonempty "%" r) as Hne.
    destruct (split_on "%" r) as [|f fs]; [contradiction|].
    cbn [flat_map app]. unfold unquote_item.
    destruct f as [|h [|l rest]]; try discriminate.
    destruct (hex_value h), (hex_value l); discriminate.
  - rewrite unquote_to_bytes_cons by assumption. discriminate.
Qed.

Lemma utf8_replace_nonempty (s : str) : s <> [] -> utf8_replace s <> [].
Proof.
  destruct s as [|c r]; [contradiction|]. intros _.
  unfold utf8_replace. cbn [utf8_decode utf8_step].
  destruct (utf8_start_spec c) as [_ [Hp Hc]].
  destruct (utf8_start c) as [out st]. cbn [fst snd] in *.
  destruct st as [|b0|b0|b0 b1|b0|b0 b1|b0 b1 b2];
    try (intros H; apply app_eq_nil in H as [_ H];
         match goal with
         | H : utf8_decode ?st r = [] |- _ =>
             pose proof (utf8_pending_output r st Hp) as Ho;
             rewrite H in Ho; discriminate Ho; discriminate
         end).
  destruct (Hc eq_refl) as [[-> _]|[-> _]]; discriminate.
Qed.

Lemma unquote_nonempty (s : str) : s <> [] -> unquote s <> [].
Proof.
  intros H. unfold unquote. destruct (negb (mem "%" s)); [exact H|].
  apply utf8_replace_nonempty, unquote_to_bytes_nonempty, H.
Qed.

Lemma parse_qsl_nonblank (qs : str) :
  Forall (fun nv => snd nv <> []) (parse_qsl qs).
Proof.
  rewrite parse_qsl_fields. apply Forall_forall. intros [n v] Hin.
  apply in_flat_map in Hin as [f [_ Hin]]. unfold parse_field in Hin.
  destruct (find_split "=" f) as [[a b]|]; [|contradiction].
  destruct b as [|c b]; [contradiction|]. cbn [nonempty] in Hin.
  destruct Hin as [[= <- <-]|[]]. cbn [snd].
  apply unquote_nonempty. discriminate.
Qed.

(** [parse_qs] builds well-formed dictionaries. *)
Lemma parse_qs_wf (qs : str) : dict_wf (parse_qs qs).
Proof.
  change (parse_qs qs) with (fold_left add_pair (parse_qsl qs) []).
  assert (H0 : dict_wf []) by (split; constructor).
  pose proof (parse_qsl_nonblank qs) as Hnb. revert H0.
  generalize (@nil (str * list str)).
  induction Hnb as [|[n v] l Hv Hl IH]; intros acc Hacc; simpl; auto.
  apply IH. apply dict_append_wf; auto.
Qed.

Lemma dict_pairs_wf_head (k : str) (vs : list str) (d : dict) :
  Forall (fun v => v <> []) vs ->
  dict_pairs ((k, vs) :: d) = map (pair k) vs ++ dict_pairs d.
Proof.
  intros Hvs. unfold dict_pairs. cbn [flat_map fst snd]. f_equal.
  induction Hvs as [|v vs Hv Hr IH]; [reflexivity|].
  cbn [flat_map map]. rewrite IH. destruct v; [contradiction|reflexivity].
Qed.

Lemma fold_add_pair_key (k : str) (vs : list str) (acc : dict)
    (v0 : str) (vs0 : list str) :
  ~ In k (keys acc) ->
  fold_left add_pair (map (pair k) vs) (acc ++ [(k, v0 :: vs0)])
  = acc ++ [(k, (v0 :: vs0) ++ vs)].
Proof.
  intros Hk. revert vs0. induction vs as [|v vs IH]; intros vs0; simpl.
  - rewrite app_nil_r. reflexivity.
  - change (add_pair (acc ++ [(k, v0 :: vs0)]) (k, v))
      with (dict_append k v (acc ++ [(k, v0 :: vs0)])).
    rewrite dict_append_last by assumption.
    change ((v0 :: vs0) ++ [v]) with (v0 :: (vs0 ++ [v])).
    rewrite IH. simpl. rewrite <- app_assoc. reflexivity.
Qed.

(** Parsing the pairs of a well-formed dictionary builds it again. *)
Lemma fold_add_pair_dict (d acc : dict) :
  dict_wf d -> (forall k, In k (keys d) -> ~ In k (keys acc)) ->
  fold_left add_pair (dict_pairs d) acc = acc ++ d.
Proof.
  revert acc. induction d as [|[k vs] d IH]; intros acc [Hnd Hall] Hdisj.
  - simpl. rewrite app_nil_r. reflexivity.
  - inversion Hall as [|? ? [Hne Hvs] Hall']; subst. simpl in Hne, Hvs.
    inversion Hnd as [|? ? Hk Hnd']; subst.
    rewrite dict_pairs_wf_head by assumption. rewrite fold_left_app.
    destruct vs as [|v0 vs]; [contradiction|].
    cbn [map fold_left].
    change (add_pair acc (k, v0)) with (dict_append k v0 acc).
    rewrite dict_append_absent by (apply Hdisj; left; reflexivity).
    rewrite (fold_add_pair_key k vs acc v0 [])
      by (apply Hdisj; left; reflexivity).
    rewrite IH.
    + rewrite <- app_assoc. reflexivity.
    + split; assumption.
    + intros k' Hk'. unfold keys. rewrite map_app, in_app_iff. simpl.
      intros [H|[H|[]]].
      * apply (Hdisj k'); [right; exact Hk' | exact H].
      * subst. contradiction.
Qed.

Lemma parse_qs_urlencode (d : dict) :
  dict_wf d -> dict_text d -> parse_qs (urlencode d) = d.
Proof.
  intros Hwf Ht.
  change (parse_qs (urlencode d))
    with (fold_left add_pair (parse_qsl (urlencode d)) []).
  rewrite parse_qsl_urlencode, (dict_pairs_text d Ht), fold_add_pair_dict;
    auto.
Qed.

(** ** Parsing an address that [urlunparse] wrote *)

Lemma plain_nil : plain [].
Proof. split; reflexivity. Qed.

Lemma plain_app (a b : str) : plain (a ++ b) <-> plain a /\ plain b.
Proof.
  unfold plain. rewrite !mem_app, !orb_false_iff. tauto.
Qed.

Lemma plain_cons (c : ascii) (a : str) :
  plain (c :: a) <->
  Ascii.eqb c "?" = false /\ Ascii.eqb c "#" = false /\ plain a.
Proof.
  unfold plain. rewrite !mem_cons, !orb_false_iff.
  rewrite (Ascii.eqb_sym "?" c), (Ascii.eqb_sym "#" c). tauto.
Qed.

Lemma plain_incl (a b : str) : incl a b -> plain b -> plain a.
Proof.
  intros Hi [H1 H2]. split.
  - destruct (mem "?" a) eqn:H; [|reflexivity].
    apply mem_In, Hi, mem_In in H. congruence.
  - destruct (mem "#" a) eqn:H; [|reflexivity].
    apply mem_In, Hi, mem_In in H. congruence.
Qed.

Lemma find_split_incl (c : ascii) (s a b : str) :
  find_split c s = Some (a, b) -> incl a s /\ incl b s.
Proof.
  intros H. apply find_split_some in H as [-> _]. split.
  - apply incl_appl, incl_refl.
  - apply incl_appr, incl_tl, incl_refl.
Qed.

Lemma rfind_split_some (c : ascii) (s a b : str) :
  rfind_split c s = Some (a, b) -> s = a ++ c :: b.
Proof.
  revert a b; induction s as [|x s IH]; simpl; intros a b H; [discriminate|].
  destruct (rfind_split c s) as [[a' b']|].
  - inversion H; subst. rewrite (IH a' b eq_refl). reflexivity.
  - destruct (Ascii.eqb x c) eqn:Hx; [|discriminate].
    apply Ascii.eqb_eq in Hx; subst. inversion H; subst. reflexivity.
Qed.

Lemma span_until_spec (stop s : str) :
  s = fst (span_until stop s) ++ snd (span_until stop s)
  /\ forallb (fun c => negb (mem c stop)) (fst (span_until stop s)) = true.
Proof.
  induction s as [|c s [IH1 IH2]]; simpl; [auto|].
  destruct (mem c stop) eqn:Hc; simpl; [auto|].
  destruct (span_until stop s) as [a b]. simpl in *.
  rewrite Hc, IH2. split; [f_equal; exact IH1 | reflexivity].
Qed.

Lemma splitparams_incl (url : str) :
  incl (fst (splitparams url)) url /\ incl (snd (splitparams url)) url.
Proof.
  unfold splitparams. destruct (mem "/" url).
  - destruct (rfind_split "/" url) as [[dir base]|] eqn:Hr.
    + apply rfind_split_some in Hr.
      destruct (find_split ";" base) as [[b p]|] eqn:Hf.
      * apply find_split_some in Hf as [Hb _]. subst. simpl. split.
        -- intros x Hx. apply in_app_iff in Hx as [Hx|Hx].
           ++ apply in_app_iff; auto.
           ++ apply in_app_iff. right. simpl in Hx. destruct Hx as [<-|Hx].
              ** left; reflexivity.
              ** right. apply in_app_iff; auto.
        -- intros x Hx. apply in_app_iff. right. right.
           apply in_app_iff. right. right. exact Hx.
      * simpl. split; [apply incl_refl | intros x []].
    + simpl. split; [apply incl_refl | intros x []].
  - destruct (find_split ";" url) as [[a p]|] eqn:Hf.
    + apply find_split_incl in Hf. exact Hf.
    + simpl. split; [|apply incl_refl].
      intros x Hx. revert Hx. clear. induction url as [|c [|c' r] IH].
      * intros [].
      * intros [].
      * intros [<-|Hx]; [left; reflexivity | right; apply IH, Hx].
Qed.

Lemma scheme_char_lower (c : ascii) :
  scheme_char c = true ->
  Ascii.eqb (lower_char c) "?" = false
  /\ Ascii.eqb (lower_char c) "#" = false
  /\ Ascii.eqb c "?" = false /\ Ascii.eqb c ":" = false.
Proof. intros H; revert H. each_char c. Qed.

Lemma split_scheme_plain (url : str) : plain (fst (split_scheme url)).
Proof.
  unfold split_scheme.
  destruct (find_split ":" url) as [[[|c0 pre] rest]|];
    try apply plain_nil.
  destruct (is_alpha c0 && forallb scheme_char (c0 :: pre)) eqn:H;
    [|apply plain_nil].
  apply andb_true_iff in H as [_ H].
  change (plain (lower (c0 :: pre))). revert H.
  generalize (c0 :: pre). intros l.
  induction l as [|x l IH]; intros H; [apply plain_nil|].
  cbn [forallb] in H. apply andb_true_iff in H as [Hx Hl].
  unfold lower. cbn [map]. apply plain_cons.
  destruct (scheme_char_lower x Hx) as [H1 [H2 _]]. auto.
Qed.

Lemma split_scheme_incl (url : str) : incl (snd (split_scheme url)) url.
Proof.
  unfold split_scheme.
  destruct (find_split ":" url) as [[[|c0 pre] rest]|] eqn:Hf;
    try apply incl_refl.
  destruct (is_alpha c0 && forallb scheme_char (c0 :: pre));
    [|apply incl_refl].
  apply find_split_incl in Hf. apply Hf.
Qed.

(** The components that [urlparse] returns, query and fragment apart,
    hold neither a question mark nor a hash sign. *)
Lemma urlparse_plain (E : Env) (url : str) (p : ParseResult) :
  urlparse E url = Ok p -> plain_parts p.
Proof.
  unfold urlparse.
  set (u0 := filter _ (lstrip is_c0_or_space url)).
  pose proof (split_scheme_plain u0) as Hsch.
  destruct (split_scheme u0) as [sch u1]. simpl in Hsch.
  set (nlr := if starts_with "//" u1 then splitnetloc (skipn 2 u1)
              else ([], u1)).
  assert (Hnl : plain (fst nlr)).
  { unfold nlr. destruct (starts_with "//" u1); [|apply plain_nil].
    unfold splitnetloc.
    destruct (span_until_spec "/?#" (skipn 2 u1)) as [_ H]. revert H.
    generalize (fst (span_until "/?#" (skipn 2 u1))). intros l.
    induction l as [|x l IH]; intros H; [apply plain_nil|].
    cbn [forallb] in H. apply andb_true_iff in H as [Hx Hl].
    apply plain_cons. split; [|split; [|apply IH, Hl]].
    - apply Ascii.eqb_neq. intros ->. discriminate.
    - apply Ascii.eqb_neq. intros ->. discriminate. }
  destruct nlr as [nl u2]. simpl in Hnl.
  destruct (negb (netloc_ok E nl)); [discriminate|].
  set (fr := match find_split "#" u2 with
             | Some (a, b) => (a, b)
             | None => (u2, [])
             end).
  assert (Hfr : mem "#" (fst fr) = false).
  { unfold fr. destruct (find_split "#" u2) as [[a b]|] eqn:Hf.
    - apply find_split_some in Hf as [_ H]. exact H.
    - apply find_split_none in Hf. exact Hf. }
  destruct fr as [u3 frag]. simpl in Hfr.
  set (qr := match find_split "?" u3 with
             | Some (a, b) => (a, b)
             | None => (u3, [])
             end).
  assert (Hqr : plain (fst qr)).
  { unfold qr. destruct (find_split "?" u3) as [[a b]|] eqn:Hf.
    - pose proof (find_split_incl _ _ _ _ Hf) as [Hi _].
      apply find_split_some in Hf as [_ H]. split; [exact H|]. cbn [fst].
      destruct (mem "#" a) eqn:Ha; [|reflexivity].
      apply mem_In, Hi, mem_In in Ha. congruence.
    - apply find_split_none in Hf. split; assumption. }
  destruct qr as [u4 qs]. simpl in Hqr.
  set (pr := if in_list sch uses_params && mem ";" u4 then splitparams u4
             else (u4, [])).
  assert (Hpr : plain (fst pr) /\ plain (snd pr)).
  { unfold pr. destruct (in_list sch uses_params && mem ";" u4).
    - destruct (splitparams_incl u4) as [H1 H2].
      split; eapply plain_incl; eauto.
    - split; [exact Hqr | apply plain_nil]. }
  destruct pr as [u5 prm]. simpl in Hpr.
  intros [= <-]. unfold plain_parts. simpl. tauto.
Qed.

Lemma urlunparse_query (p : ParseResult) :
  query p <> [] ->
  urlunparse p = address_head p ++ "?"%char :: query p ++ address_tail p.
Proof.
  intros Hq. unfold urlunparse, address_head, address_tail.
  destruct (query p) as [|c q]; [contradiction|]. cbn [nonempty].
  destruct (nonempty (fragment p)); rewrite <- ?app_assoc;
    [reflexivity | rewrite app_nil_r; reflexivity].
Qed.

Ltac solve_plain :=
  repeat first
    [ assumption
    | apply plain_nil
    | apply plain_app; split
    | apply plain_cons; split; [reflexivity | split; [reflexivity|]] ].

Lemma address_head_plain (p : ParseResult) :
  plain_parts p -> plain (address_head p).
Proof.
  intros [Hs [Hn [Hp Hm]]]. unfold address_head.
  assert (H1 : plain (if nonempty (params p)
                      then path p ++ lit ";" ++ params p else path p)).
  { destruct (nonempty (params p)); solve_plain. }
  set (u1 := if nonempty (params p) then _ else _) in *.
  assert (H2 : plain (if nonempty u1 && negb (starts_with "/" u1)
                      then lit "/" ++ u1 else u1)).
  { destruct (nonempty u1 && negb (starts_with "/" u1)); solve_plain. }
  set (u2 := if nonempty u1 && _ then _ else _) in *.
  assert (H3 : plain (if nonempty (netloc p)
                         || (nonempty (scheme p)
                             && in_list (scheme p) uses_netloc
                             && negb (starts_with "//" u1))
                      then lit "//" ++ netloc p ++ u2 else u1)).
  { destruct (nonempty (netloc p) || _); solve_plain. }
  set (u3 := if nonempty (netloc p) || _ then _ else _) in *.
  destruct (nonempty (scheme p)); solve_plain.
Qed.

Lemma address_tail_fragment (p : ParseResult) : fragment_tail (address_tail p).
Proof.
  unfold address_tail.
  destruct (nonempty (fragment p));
    [right; exists (fragment p); reflexivity | left; reflexivity].
Qed.

(** The stages of [urlsplit] on a text of the shape
    [A ++ "?" :: q ++ F] with [A] plain. *)

Lemma lstrip_shape (a t : str) :
  plain a ->
  exists a', lstrip is_c0_or_space (a ++ "?"%char :: t) = a' ++ "?"%char :: t
             /\ plain a'.
Proof.
  induction a as [|c a IH]; intros Ha.
  - exists []. split; [reflexivity | apply plain_nil].
  - cbn [app lstrip]. destruct (is_c0_or_space c).
    + apply plain_cons in Ha as [_ [_ Ha]]. exact (IH Ha).
    + exists (c :: a). split; [reflexivity | exact Ha].
Qed.

Lemma encoded_char_facts (c : ascii) :
  encoded_char c = true ->
  is_unsafe_url_byte c = false /\ Ascii.eqb c "#" = false.
Proof. intros H; revert H. each_char c. Qed.

Lemma encoded_no_hash (q : str) :
  forallb encoded_char q = true ->
  mem "#" q = false
  /\ filter (fun c => negb (is_unsafe_url_byte c)) q = q.
Proof.
  induction q as [|c q IH]; intros H; [auto|].
  cbn [forallb] in H. apply andb_true_iff in H as [Hc Hq].
  destruct (IH Hq) as [H1 H2]. destruct (encoded_char_facts c Hc) as [F1 F2].
  rewrite mem_cons, H1, (Ascii.eqb_sym "#" c), F2. cbn [filter].
  rewrite F1, H2. auto.
Qed.

Lemma filter_plain (f : ascii -> bool) (a : str) :
  plain a -> plain (filter f a).
Proof. apply plain_incl. intros x Hx. apply filter_In in Hx. tauto. Qed.

Lemma filter_fragment_tail (t : str) :
  fragment_tail t ->
  fragment_tail (filter (fun c => negb (is_unsafe_url_byte c)) t).
Proof.
  intros [->|[f ->]]; [left; reflexivity|]. right. simpl. eauto.
Qed.

Lemma app_first_occurrence (x y : ascii) (a b a' b' : str) :
  a ++ x :: b = a' ++ y :: b' -> mem y a = false -> Ascii.eqb x y = false ->
  mem y a' = false ->
  exists m, a' = a ++ x :: m /\ b = m ++ y :: b'.
Proof.
  revert a'. induction a as [|c a IH]; intros a' H Ha Hxy Ha'.
  - destruct a' as [|c' a'].
    + simpl in H. inversion H; subst. rewrite Ascii.eqb_refl in Hxy.
      discriminate.
    + simpl in H. inversion H; subst. exists a'. auto.
  - rewrite mem_cons in Ha. apply orb_false_iff in Ha as [Hc Ha].
    destruct a' as [|c' a'].
    + simpl in H. inversion H; subst. rewrite Ascii.eqb_refl in Hc.
      discriminate.
    + simpl in H. inversion H; subst.
      rewrite mem_cons in Ha'. apply orb_false_iff in Ha' as [_ Ha'].
      destruct (IH a' H2 Ha Hxy Ha') as [m [-> ->]]. exists m. auto.
Qed.

Lemma scheme_chars_no_question (l : str) :
  forallb scheme_char l = true -> mem "?" l = false.
Proof.
  induction l as [|x l IH]; intros H; [reflexivity|].
  cbn [forallb] in H. apply andb_true_iff in H as [Hx Hl].
  destruct (scheme_char_lower x Hx) as [_ [_ [H1 _]]].
  rewrite mem_cons, (IH Hl), (Ascii.eqb_sym "?" x), H1. reflexivity.
Qed.

Lemma split_scheme_shape (a t : str) :
  plain a ->
  exists a', snd (split_scheme (a ++ "?"%char :: t)) = a' ++ "?"%char :: t
             /\ plain a'.
Proof.
  intros Ha. unfold split_scheme.
  destruct (find_split ":" (a ++ "?"%char :: t)) as [[[|c0 pre] rest]|] eqn:Hf;
    try (exists a; split; [reflexivity|exact Ha]).
  destruct (is_alpha c0 && forallb scheme_char (c0 :: pre)) eqn:Hs;
    [|exists a; split; [reflexivity|exact Ha]].
  apply andb_true_iff in Hs as [_ Hs].
  apply find_split_some in Hf as [Heq _]. symmetry in Heq.
  destruct (app_first_occurrence ":" "?" (c0 :: pre) rest a t Heq)
    as [m [Hm ->]].
  - apply scheme_chars_no_question, Hs.
  - reflexivity.
  - apply Ha.
  - exists m. split; [reflexivity|]. rewrite Hm in Ha.
    apply plain_app in Ha as [_ Ha]. apply plain_cons in Ha. tauto.
Qed.

Lemma span_until_shape (a t : str) :
  plain a ->
  exists a', snd (span_until "/?#" (a ++ "?"%char :: t)) = a' ++ "?"%char :: t
             /\ plain a'.
Proof.
  induction a as [|c a IH]; intros Ha.
  - exists []. split; [reflexivity|apply plain_nil].
  - cbn [app span_until]. destruct (mem c "/?#") eqn:Hc.
    + exists (c :: a). split; [reflexivity|exact Ha].
    + apply plain_cons in Ha as [_ [_ Ha]]. destruct (IH Ha) as [a' [H1 H2]].
      destruct (span_until "/?#" (a ++ "?"%char :: t)) as [x y].
      exists a'. split; [exact H1|exact H2].
Qed.

Lemma netloc_shape (a t : str) :
  plain a ->
  exists a',
    snd (if starts_with "//" (a ++ "?"%char :: t)
         then splitnetloc (skipn 2 (a ++ "?"%char :: t))
         else ([], a ++ "?"%char :: t))
    = a' ++ "?"%char :: t
    /\ plain a'.
Proof.
  intros Ha.
  destruct (starts_with "//" (a ++ "?"%char :: t)) eqn:Hs;
    [|exists a; split; [reflexivity|exact Ha]].
  destruct a as [|c1 [|c2 a]]; try discriminate.
  - simpl in Hs. rewrite ?andb_false_r in Hs.
    destruct c1 as [[|] [|] [|] [|] [|] [|] [|] [|]]; discriminate.
  - apply plain_cons in Ha as [_ [_ Ha]]. apply plain_cons in Ha as [_ [_ Ha]].
    cbn [app skipn]. unfold splitnetloc. apply span_until_shape, Ha.
Qed.

(** Parsing the address again gives the query that was written. *)
Lemma urlparse_written_query (E : Env) (p p' : ParseResult) (q : str) :
  plain_parts p -> q <> [] -> forallb encoded_char q = true ->
  urlparse E (urlunparse (set_query p q)) = Ok p' ->
  query p' = q.
Proof.
  intros Hp Hq Henc.
  rewrite (urlunparse_query (set_query p q)) by exact Hq.
  change (query (set_query p q)) with q.
  change (address_tail (set_query p q)) with (address_tail p).
  change (address_head (set_query p q)) with (address_head p).
  pose proof (address_head_plain p Hp) as HA.
  pose proof (address_tail_fragment p) as HF.
  destruct (encoded_no_hash q Henc) as [Hhash Hfil].
  generalize dependent (address_head p). intros A HA.
  generalize dependent (address_tail p). intros F HF.
  unfold urlparse.
  destruct (lstrip_shape A (q ++ F) HA) as [A1 [-> HA1]].
  rewrite filter_app. cbn [filter]. change (negb (is_unsafe_url_byte "?")) with true.
  cbv iota. rewrite filter_app, Hfil.
  pose proof (filter_plain (fun c => negb (is_unsafe_url_byte c)) A1 HA1) as HA2.
  pose proof (filter_fragment_tail F HF) as HF2.
  generalize dependent (filter (fun c => negb (is_unsafe_url_byte c)) A1).
  intros A2 HA2.
  generalize dependent (filter (fun c => negb (is_unsafe_url_byte c)) F).
  intros F2 HF2.
  destruct (split_scheme_shape A2 (q ++ F2) HA2) as [A3 [H3 HA3]].
  destruct (split_scheme (A2 ++ "?"%char :: q ++ F2)) as [sch u1].
  cbn [snd] in H3. subst u1.
  match goal with
  | |- context [if starts_with ?P ?U then ?S else ?T] =>
      assert (Hx : exists a', snd (if starts_with P U then S else T)
                              = a' ++ "?"%char :: q ++ F2 /\ plain a')
        by (apply netloc_shape; exact HA3);
      destruct (if starts_with P U then S else T) as [nl u2]
  end.
  destruct Hx as [A4 [H4 HA4]]. cbn [snd] in H4. subst u2.
  destruct (negb (netloc_ok E nl)); [discriminate|].
  assert (Hnh : mem "#" (A4 ++ "?"%char :: q) = false).
  { rewrite mem_app, mem_cons, Hhash. destruct HA4 as [_ ->]. reflexivity. }
  assert (Hq1 : find_split "?" (A4 ++ "?"%char :: q) = Some (A4, q))
    by (apply find_split_app, HA4).
  destruct HF2 as [->|[f ->]].
  - rewrite app_nil_r. apply find_split_none in Hnh. rewrite Hnh, Hq1.
    match goal with
    | |- context [if ?c then splitparams ?u else ?t] =>
        destruct (if c then splitparams u else t) as [u5 prm]
    end.
    intros [= <-]. reflexivity.
  - replace (A4 ++ "?"%char :: q ++ "#"%char :: f)
      with ((A4 ++ "?"%char :: q) ++ "#"%char :: f)
      by (rewrite <- app_assoc; reflexivity).
    rewrite (find_split_app _ _ _ Hnh), Hq1.
    match goal with
    | |- context [if ?c then splitparams ?u else ?t] =>
        destruct (if c then splitparams u else t) as [u5 prm]
    end.
    intros [= <-]. reflexivity.
Qed.

(** ** The address that the decrement returns *)

Lemma quote_plus_safe (s : str) :
  forallb always_safe s = true -> quote_plus s = s.
Proof.
  rewrite quote_plus_flat. induction s as [|c s IH]; [reflexivity|].
  cbn [forallb flat_map]. intros H. apply andb_true_iff in H as [Hc Hs].
  rewrite (IH Hs). unfold quote_plus_char, quote_char.
  destruct (always_safe_plain c Hc) as [_ [_ [_ [_ Hsp]]]].
  rewrite Hsp, Hc. reflexivity.
Qed.

Lemma digit_safe (c : ascii) : is_digit c = true -> always_safe c = true.
Proof. intros H; revert H. each_char c. Qed.

Lemma py_str_safe (z : Z) : forallb always_safe (py_str z) = true.
Proof.
  assert (Hu : forall d,
             forallb always_safe
               (lit (DecimalString.NilEmpty.string_of_uint d)) = true).
  { intros d. pose proof (uint_digits d) as H.
    induction (lit (DecimalString.NilEmpty.string_of_uint d)) as [|c l IH];
      [reflexivity|].
    cbn [forallb] in *. apply andb_true_iff in H as [Hc Hl].
    rewrite (digit_safe c Hc), (IH Hl). reflexivity. }
  unfold py_str. destruct z as [|p|p]; [reflexivity| |]; simpl Z.to_int;
    unfold DecimalString.NilZero.string_of_int,
      DecimalString.NilZero.string_of_uint.
  - destruct (Pos.to_uint p) eqn:Hp; try reflexivity; rewrite <- Hp; apply Hu.
  - change (lit (String "-" ?s)) with ("-"%char :: lit s).
    destruct (Pos.to_uint p) eqn:Hp; try reflexivity;
      rewrite <- Hp;
      change (lit (String "-" ?s)) with ("-"%char :: lit s);
      cbn [forallb]; rewrite Hu; reflexivity.
Qed.

Lemma item_field (z : Z) : field "item" (py_str z) = lit "item=" ++ py_str z.
Proof.
  unfold field. rewrite (quote_plus_safe (py_str z) (py_str_safe z)).
  reflexivity.
Qed.


Lemma values_of_app (k : str) (a b : list (str * str)) :
  values_of k (a ++ b) = values_of k a ++ values_of k b.
Proof. unfold values_of. rewrite filter_app, map_app. reflexivity. Qed.

Lemma values_of_other (k : str) (d : dict) :
  ~ In k (keys d) -> values_of k (dict_pairs d) = [].
Proof.
  induction d as [|[k0 vs] d IH]; intros H; [reflexivity|].
  unfold dict_pairs. cbn [flat_map]. fold (dict_pairs d).
  rewrite values_of_app, IH by (intros Hin; apply H; right; exact Hin).
  rewrite app_nil_r. cbn [fst snd].
  assert (Hk : str_eqb k0 k = false).
  { apply str_eqb_neq. intros ->. apply H. left; reflexivity. }
  clear H IH. induction vs as [|v vs IHv]; [reflexivity|].
  cbn [flat_map]. rewrite values_of_app, IHv, app_nil_r.
  destruct (nonempty v); [|reflexivity].
  unfold values_of. cbn [filter fst]. rewrite Hk. reflexivity.
Qed.

Lemma values_of_key (k : str) (vs : list str) :
  values_of k (flat_map (fun v => if nonempty v then [(k, v)] else []) vs)
  = filter nonempty vs.
Proof.
  induction vs as [|v vs IH]; [reflexivity|].
  cbn [flat_map filter]. rewrite values_of_app, IH.
  destruct (nonempty v); [|reflexivity].
  unfold values_of. cbn [filter fst map snd]. rewrite str_eqb_refl.
  reflexivity.
Qed.

(** The values that the pairs of a dictionary give to a key are the
    non-blank values that the dictionary holds for it. *)
Lemma values_of_dict_pairs (k : str) (d : dict) :
  NoDup (keys d) ->
  values_of k (dict_pairs d) = filter nonempty (dict_values k d).
Proof.
  unfold dict_values.
  induction d as [|[k0 vs] d IH]; intros Hnd; [reflexivity|].
  inversion Hnd as [|? ? Hk Hnd']; subst.
  unfold dict_pairs. cbn [flat_map]. fold (dict_pairs d).
  rewrite values_of_app. cbn [fst snd dict_get].
  destruct (str_eqb k0 k) eqn:H0.
  - apply str_eqb_eq in H0; subst k0.
    rewrite values_of_key, values_of_other by exact Hk.
    apply app_nil_r.
  - rewrite IH by exact Hnd'.
    replace (values_of k (flat_map _ vs)) with (@nil str); [reflexivity|].
    clear -H0. induction vs as [|v vs IHv]; [reflexivity|].
    cbn [flat_map]. rewrite values_of_app, <- IHv, app_nil_r.
    destruct (nonempty v); [|reflexivity].
    unfold values_of. cbn [filter fst]. rewrite H0. reflexivity.
Qed.

Lemma keys_dict_set (k : str) (vs vs0 : list str) (d : dict) :
  dict_get k d = Some vs0 -> keys (dict_set k vs d) = keys d.
Proof.
  induction d as [|[k0 v0] d IH]; simpl; [discriminate|].
  destruct (str_eqb k0 k); [reflexivity|].
  intros H. simpl. rewrite IH; auto.
Qed.

Lemma dict_get_set (k : str) (vs : list str) (d : dict) :
  dict_get k (dict_set k vs d) = Some vs.
Proof.
  induction d as [|[k0 v0] d IH]; simpl.
  - rewrite str_eqb_refl. reflexivity.
  - destruct (str_eqb k0 k) eqn:H0; simpl; rewrite H0; auto.
Qed.

Lemma dict_set_wf (k : str) (vs vs0 : list str) (d : dict) :
  dict_wf d -> dict_get k d = Some vs0 ->
  vs <> [] -> Forall (fun v => v <> []) vs ->
  dict_wf (dict_set k vs d).
Proof.
  intros [Hnd Hall] Hg Hne Hvs. split.
  - rewrite (keys_dict_set _ _ _ _ Hg). exact Hnd.
  - clear Hnd Hg. induction Hall as [|[k0 v0] d H0 Hd IH]; simpl.
    + repeat constructor; auto.
    + destruct (str_eqb k0 k); constructor; auto.
Qed.

Lemma py_str_nonempty (z : Z) : py_str z <> [].
Proof.
  unfold py_str. destruct z as [|p|p]; [discriminate| |]; simpl Z.to_int;
    unfold DecimalString.NilZero.string_of_int,
      DecimalString.NilZero.string_of_uint;
    destruct (Pos.to_uint p); discriminate.
Qed.

Lemma nonempty_true (s : str) : s <> [] -> nonempty s = true.
Proof. destruct s; [contradiction|reflexivity]. Qed.

Lemma safe_ascii (c : ascii) :
  always_safe c = true -> (code c <? 128) = true.
Proof. intros H; revert H. each_char c. Qed.

Lemma py_str_ascii (z : Z) : ascii_text (py_str z) = true.
Proof.
  pose proof (py_str_safe z) as H. unfold ascii_text.
  induction (py_str z) as [|c l IH]; [reflexivity|].
  cbn [forallb] in *. apply andb_true_iff in H as [Hc Hl].
  rewrite (safe_ascii c Hc), (IH Hl). reflexivity.
Qed.

(** A key that is ASCII text is read back from that key alone. *)
Lemma utf8_replace_key (a k : str) :
  ascii_text k = true -> str_eqb (utf8_replace a) k = str_eqb a k.
Proof.
  intros Hk. destruct (str_eqb (utf8_replace a) k) eqn:H1.
  - apply str_eqb_eq in H1. symmetry. apply str_eqb_eq.
    rewrite <- H1. symmetry. apply utf8_replace_ascii_inv.
    rewrite H1. exact Hk.
  - destruct (str_eqb a k) eqn:H2; [|reflexivity].
    apply str_eqb_eq in H2. subst a.
    rewrite (utf8_replace_ascii k Hk), str_eqb_refl in H1. discriminate.
Qed.

Lemma values_of_decoded (k : str) (l : list (str * str)) :
  ascii_text k = true ->
  values_of k (map decoded_pair l) = map utf8_replace (values_of k l).
Proof.
  intros Hk. unfold values_of.
  induction l as [|[a v] l IH]; [reflexivity|].
  cbn [map filter fst snd decoded_pair]. rewrite (utf8_replace_key a k Hk).
  destruct (str_eqb a k); cbn [map snd]; rewrite IH; reflexivity.
Qed.

(** The query that the decrement writes holds the item key once, with
    the decremented value. *)
Lemma decremented_query_item (qs : str) (n : Z) (vs0 : list str) :
  dict_get "item" (parse_qs qs) = Some vs0 ->
  let q' := urlencode (dict_set "item" [py_str (n - 1)] (parse_qs qs)) in
  values_of "item" (parse_qsl q') = [py_str (n - 1)]
  /\ q' <> []
  /\ forallb encoded_char q' = true.
Proof.
  intros Hg q'.
  assert (Hwf : dict_wf (dict_set "item" [py_str (n - 1)] (parse_qs qs))).
  { apply (dict_set_wf _ _ vs0); auto using parse_qs_wf; try discriminate.
    repeat constructor. apply py_str_nonempty. }
  assert (Hv : values_of "item" (parse_qsl q') = [py_str (n - 1)]).
  { unfold q'. rewrite parse_qsl_urlencode.
    rewrite values_of_decoded by reflexivity.
    rewrite values_of_dict_pairs by apply Hwf.
    unfold dict_values. rewrite dict_get_set. cbn [filter].
    rewrite nonempty_true by apply py_str_nonempty. cbn [map].
    rewrite (utf8_replace_ascii _ (py_str_ascii (n - 1))). reflexivity. }
  split; [exact Hv|]. split.
  - intros H0. rewrite H0 in Hv. discriminate.
  - apply urlencode_chars.
Qed.

(** *** Queries that are well-formed text *)

Lemma replace_char_id (a b : ascii) (s : str) :
  mem a s = false -> replace_char a b s = s.
Proof.
  unfold replace_char. induction s as [|c s IH]; [reflexivity|].
  rewrite mem_cons. intros H. apply orb_false_iff in H as [Hc Hs].
  cbn [map]. rewrite (Ascii.eqb_sym c a), Hc, (IH Hs). reflexivity.
Qed.

Lemma replace_char_app (a b : ascii) (x y : str) :
  replace_char a b (x ++ y) = replace_char a b x ++ replace_char a b y.
Proof. apply map_app. Qed.

Lemma well_formed_replace_char (a b : ascii) (s : str) :
  code a < 128 -> code b < 128 ->
  well_formed s -> well_formed (replace_char a b s).
Proof.
  intros Ha Hb.
  assert (H : forall n s, (List.length s <= n)%nat ->
              well_formed s -> well_formed (replace_char a b s)).
  { clear s. induction n as [|n IH]; intros s Hn Hs.
    - destruct s; [exact Hs|simpl in Hn; lia].
    - destruct (find_split a s) as [[x y]|] eqn:Hf.
      + apply find_split_some in Hf as [-> Hx].
        destruct (well_formed_cut x y a Ha Hs) as [Wx Wy].
        rewrite replace_char_app, (replace_char_id a b x Hx).
        unfold replace_char at 1. cbn [map]. rewrite Ascii.eqb_refl.
        apply well_formed_app; [exact Wx|].
        change (b :: map _ y) with ([b] ++ replace_char a b y).
        apply well_formed_app.
        * apply well_formed_ascii. unfold ascii_text. cbn [forallb].
          destruct (code b <? 128) eqn:Hlt; [reflexivity|].
          apply Z.ltb_ge in Hlt. lia.
        * apply IH; [|exact Wy]. rewrite length_app in Hn.
          cbn [List.length] in Hn. lia.
      + apply find_split_none in Hf. rewrite (replace_char_id a b s Hf).
        exact Hs. }
  intros Hs. exact (H (List.length s) s (le_n _) Hs).
Qed.

Lemma well_formed_split_on (c : ascii) (s : str) :
  code c < 128 -> well_formed s -> Forall well_formed (split_on c s).
Proof.
  intros Hc.
  assert (H : forall n s, (List.length s <= n)%nat ->
              well_formed s -> Forall well_formed (split_on c s)).
  { clear s. induction n as [|n IH]; intros s Hn Hs.
    - destruct s; [repeat constructor; exact Hs|simpl in Hn; lia].
    - destruct (find_split c s) as [[x y]|] eqn:Hf.
      + apply find_split_some in Hf as [-> Hx].
        destruct (well_formed_cut x y c Hc Hs) as [Wx Wy].
        rewrite (split_on_app c x y Hx). constructor; [exact Wx|].
        apply IH; [|exact Wy]. rewrite length_app in Hn.
        cbn [List.length] in Hn. lia.
      + apply find_split_none in Hf. rewrite (split_on_no_sep c s Hf).
        repeat constructor. exact Hs. }
  intros Hs. exact (H (List.length s) s (le_n _) Hs).
Qed.

Lemma well_formed_unquote (s : str) : well_formed s -> well_formed (unquote s).
Proof.
  intros H. unfold unquote. destruct (negb (mem "%" s)); [exact H|].
  apply well_formed_replace.
Qed.

(** The pairs that the parser reads in a well-formed query are texts. *)
Lemma parse_qsl_text (qs : str) :
  well_formed qs ->
  Forall (fun nv => well_formed (fst nv) /\ well_formed (snd nv))
         (parse_qsl qs).
Proof.
  intros Hq. rewrite parse_qsl_fields. apply Forall_forall.
  intros [n v] Hin. apply in_flat_map in Hin as [f [Hf Hin]].
  assert (Wf : well_formed f).
  { destruct (nonempty qs); [|contradiction].
    pose proof (well_formed_split_on "&" qs ltac:(reflexivity) Hq) as Hall.
    rewrite Forall_forall in Hall. exact (Hall f Hf). }
  unfold parse_field in Hin.
  destruct (find_split "=" f) as [[a b]|] eqn:Hs; [|contradiction].
  apply find_split_some in Hs as [-> _].
  destruct (well_formed_cut a b "=" ltac:(reflexivity) Wf) as [Wa Wb].
  destruct (nonempty b); [|contradiction].
  destruct Hin as [[= <- <-]|[]]. cbn [fst snd].
  split; apply well_formed_unquote, well_formed_replace_char;
    (reflexivity || assumption).
Qed.

Lemma dict_append_text (k v : str) (d : dict) :
  well_formed k -> well_formed v -> dict_text d ->
  dict_text (dict_append k v d).
Proof.
  intros Hk Hv Hd. induction Hd as [|[k0 vs] d [H1 H2] Hd IH]; cbn.
  - repeat constructor; assumption.
  - destruct (str_eqb k0 k); constructor; auto. split; [exact H1|].
    apply Forall_app. split; [exact H2|repeat constructor; exact Hv].
Qed.

(** The dictionary of a well-formed query holds texts. *)
Lemma parse_qs_text (qs : str) : well_formed qs -> dict_text (parse_qs qs).
Proof.
  intros Hq. pose proof (parse_qsl_text qs Hq) as Hp.
  change (parse_qs qs) with (fold_left add_pair (parse_qsl qs) []).
  assert (H0 : dict_text []) by constructor. revert H0.
  generalize (@nil (str * list str)).
  induction Hp as [|[n v] l [Hn Hv] Hl IH]; intros acc Hacc; [exact Hacc|].
  cbn [fold_left]. apply IH. apply dict_append_text; assumption.
Qed.

Lemma dict_set_text (k : str) (vs : list str) (d : dict) :
  well_formed k -> Forall well_formed vs -> dict_text d ->
  dict_text (dict_set k vs d).
Proof.
  intros Hk Hv Hd. induction Hd as [|[k0 vs0] d [H1 H2] Hd IH]; cbn.
  - repeat constructor; assumption.
  - destruct (str_eqb k0 k); constructor; auto.
Qed.

(** Parsed, the query that the decrement writes for a well-formed query
    gives the dictionary that it was written from. *)
Lemma decremented_query_dict (qs : str) (n : Z) (vs0 : list str) :
  well_formed qs ->
  dict_get "item" (parse_qs qs) = Some vs0 ->
  parse_qs (urlencode (dict_set "item" [py_str (n - 1)] (parse_qs qs)))
  = dict_set "item" [py_str (n - 1)] (parse_qs qs).
Proof.
  intros Hq Hg. apply parse_qs_urlencode.
  - apply (dict_set_wf _ _ vs0); auto using parse_qs_wf; try discriminate.
    repeat constructor. apply py_str_nonempty.
  - apply dict_set_text; [reflexivity| |apply parse_qs_text, Hq].
    repeat constructor. apply well_formed_ascii, py_str_ascii.
Qed.

(** ** Parsing again the address that the decrement writes *)

Lemma rfind_split_spec (c : ascii) (s a b : str) :
  rfind_split c s = Some (a, b) -> s = a ++ c :: b /\ mem c b = false.
Proof.
  revert a b; induction s as [|x s IH]; simpl; intros a b H; [discriminate|].
  destruct (rfind_split c s) as [[a' b']|] eqn:Hr.
  - inversion H; subst. destruct (IH a' b eq_refl) as [-> Hm]. auto.
  - destruct (Ascii.eqb x c) eqn:Hx; [|discriminate].
    apply Ascii.eqb_eq in Hx; subst. inversion H; subst. split; [reflexivity|].
    clear -Hr. induction b as [|y b IH]; [reflexivity|].
    simpl in Hr. destruct (rfind_split c b) as [[a' b']|]; [discriminate|].
    destruct (Ascii.eqb y c) eqn:Hy; [discriminate|].
    rewrite mem_cons, (Ascii.eqb_sym c y), Hy. exact (IH eq_refl).
Qed.

Lemma rfind_split_none (c : ascii) (s : str) :
  mem c s = false -> rfind_split c s = None.
Proof.
  induction s as [|x s IH]; [reflexivity|]. rewrite mem_cons.
  intros H. apply orb_false_iff in H as [Hx Hs]. simpl.
  rewrite (IH Hs), (Ascii.eqb_sym x c), Hx. reflexivity.
Qed.

Lemma rfind_split_app (c : ascii) (a b : str) :
  mem c b = false -> rfind_split c (a ++ c :: b) = Some (a, b).
Proof.
  intros Hb. induction a as [|x a IH]; simpl.
  - rewrite (rfind_split_none c b Hb), Ascii.eqb_refl. reflexivity.
  - rewrite IH. reflexivity.
Qed.

Lemma filter_all {A : Type} (f : A -> bool) (l : list A) :
  forallb f l = true -> filter f l = l.
Proof.
  induction l as [|x l IH]; [reflexivity|]. cbn [forallb filter].
  intros H. apply andb_true_iff in H as [-> Hl]. rewrite (IH Hl).
  reflexivity.
Qed.

Lemma forallb_incl {A : Type} (f : A -> bool) (a b : list A) :
  incl a b -> forallb f b = true -> forallb f a = true.
Proof.
  intros Hi Hb. apply forallb_forall. intros x Hx.
  rewrite forallb_forall in Hb. apply Hb, Hi, Hx.
Qed.

Lemma span_until_app (stop a b : str) :
  forallb (fun c => negb (mem c stop)) a = true ->
  match b with [] => True | c :: _ => mem c stop = true end ->
  span_until stop (a ++ b) = (a, b).
Proof.
  intros Ha Hb. induction a as [|x a IH]; cbn [app].
  - destruct b as [|c b]; [reflexivity|]. cbn [span_until]. rewrite Hb.
    reflexivity.
  - cbn [forallb] in Ha. apply andb_true_iff in Ha as [Hx Ha].
    cbn [span_until]. destruct (mem x stop); [discriminate|].
    rewrite (IH Ha). reflexivity.
Qed.

Lemma scheme_char_written (c : ascii) :
  scheme_char c = true ->
  scheme_char (lower_char c) = true
  /\ lower_char (lower_char c) = lower_char c
  /\ Ascii.eqb (lower_char c) ":" = false
  /\ is_unsafe_url_byte (lower_char c) = false
  /\ is_c0_or_space (lower_char c) = false
  /\ (is_alpha c = true -> is_alpha (lower_char c) = true).
Proof.
  destruct c as [[|] [|] [|] [|] [|] [|] [|] [|]]; vm_compute;
    intros H; try discriminate H; repeat split; auto.
Qed.

(** A scheme that [urlsplit] returned is read again as it is. *)
Lemma split_scheme_written (c0 : ascii) (pre rest : str) :
  is_alpha c0 = true -> forallb scheme_char (c0 :: pre) = true ->
  split_scheme (lower (c0 :: pre) ++ ":"%char :: rest)
  = (lower (c0 :: pre), rest).
Proof.
  intros Ha Hs. unfold split_scheme.
  assert (Hl : forall l, forallb scheme_char l = true ->
             mem ":" (lower l) = false
             /\ forallb scheme_char (lower l) = true
             /\ lower (lower l) = lower l).
  { induction l as [|x l IH]; [auto|]. cbn [forallb]. intros H.
    apply andb_true_iff in H as [Hx Hl]. destruct (IH Hl) as [H1 [H2 H3]].
    destruct (scheme_char_written x Hx) as [F1 [F2 [F3 _]]].
    unfold lower in *. cbn [map forallb]. rewrite mem_cons, H1, H2, H3, F1, F2.
    rewrite (Ascii.eqb_sym ":" (lower_char x)), F3. auto. }
  destruct (Hl _ Hs) as [H1 [H2 H3]].
  rewrite (find_split_app _ _ rest H1).
  unfold lower in *. cbn [map] in *. rewrite H2, H3.
  cbn [forallb] in Hs. apply andb_true_iff in Hs as [Hc _].
  destruct (scheme_char_written c0 Hc) as [_ [_ [_ [_ [_ F]]]]].
  rewrite (F Ha). reflexivity.
Qed.

Lemma split_scheme_slash (u : str) :
  split_scheme ("/"%char :: u) = ([], "/"%char :: u).
Proof.
  unfold split_scheme.
  destruct (find_split ":" ("/"%char :: u)) as [[[|c0 pre] rest]|] eqn:Hf;
    try reflexivity.
  apply find_split_some in Hf as [Heq _]. injection Heq as <- _.
  reflexivity.
Qed.

Lemma span_until_rest (stop s : str) :
  match snd (span_until stop s) with
  | [] => True
  | c :: _ => mem c stop = true
  end.
Proof.
  induction s as [|c s IH]; [exact I|]. cbn [span_until].
  destruct (mem c stop) eqn:Hc; [exact Hc|].
  destruct (span_until stop s) as [a b]. exact IH.
Qed.

Lemma skipn_incl {A : Type} (n : nat) (l : list A) : incl (skipn n l) l.
Proof.
  revert l. induction n as [|n IH]; intros l; [apply incl_refl|].
  destruct l as [|x l]; [apply incl_refl|]. cbn [skipn].
  apply incl_tl, IH.
Qed.

(** What [urlparse] returns: a scheme in lower case, a host that passed
    the bracket tests and holds no separator, no component with a byte
    that [urlsplit] removes; behind a host, the path and the parameters
    are cut from a text that is empty or starts with a slash. *)
Lemma urlparse_shape (E : Env) (url : str) (p : ParseResult) :
  urlparse E url = Ok p ->
  (scheme p = []
   \/ exists c0 pre,
        scheme p = lower (c0 :: pre) /\ is_alpha c0 = true
        /\ forallb scheme_char (c0 :: pre) = true)
  /\ netloc_ok E (netloc p) = true
  /\ forallb (fun c => negb (mem c "/?#")) (netloc p) = true
  /\ (forall c, In c (netloc p ++ path p ++ params p ++ fragment p) ->
                is_unsafe_url_byte c = false)
  /\ (netloc p <> [] ->
      exists u, match u with [] => True | c :: _ => c = "/"%char end
                /\ plain u
                /\ (if in_list (scheme p) uses_params && mem ";" u
                    then splitparams u else (u, []))
                   = (path p, params p)).
Proof.
  unfold urlparse.
  set (u0 := filter _ (lstrip is_c0_or_space url)).
  assert (H0 : forall c, In c u0 -> is_unsafe_url_byte c = false).
  { intros c Hc. apply filter_In in Hc as [_ Hc].
    destruct (is_unsafe_url_byte c); [discriminate|reflexivity]. }
  pose proof (split_scheme_incl u0) as Hi1.
  assert (Hsch : fst (split_scheme u0) = []
                 \/ exists c0 pre,
                      fst (split_scheme u0) = lower (c0 :: pre)
                      /\ is_alpha c0 = true
                      /\ forallb scheme_char (c0 :: pre) = true).
  { unfold split_scheme.
    destruct (find_split ":" u0) as [[[|c0 pre] rest]|]; auto.
    destruct (is_alpha c0 && forallb scheme_char (c0 :: pre)) eqn:Hs; auto.
    apply andb_true_iff in Hs as [Ha Hs]. right. exists c0, pre. auto. }
  destruct (split_scheme u0) as [sch u1]. cbn [fst snd] in *.
  set (nlr := if starts_with "//" u1 then splitnetloc (skipn 2 u1)
              else ([], u1)).
  assert (Hnl : forallb (fun c => negb (mem c "/?#")) (fst nlr) = true
                /\ incl (fst nlr) u1 /\ incl (snd nlr) u1
                /\ (fst nlr <> [] ->
                    match snd nlr with
                    | [] => True
                    | c :: _ => mem c "/?#" = true
                    end)).
  { unfold nlr. destruct (starts_with "//" u1).
    - unfold splitnetloc.
      destruct (span_until_spec "/?#" (skipn 2 u1)) as [He Hall].
      pose proof (span_until_rest "/?#" (skipn 2 u1)) as Hr.
      pose proof (skipn_incl 2 u1) as Hsk. rewrite He in Hsk.
      split; [exact Hall|]. split; [|split].
      + intros x Hx. apply Hsk, in_app_iff. auto.
      + intros x Hx. apply Hsk, in_app_iff. auto.
      + intros _. exact Hr.
    - cbn [fst snd]. split; [reflexivity|]. split; [intros x []|].
      split; [apply incl_refl|]. intros H. contradiction. }
  destruct nlr as [nl u2]. cbn [fst snd] in Hnl.
  destruct Hnl as [Hnl1 [Hnl2 [Hnl3 Hnl4]]].
  destruct (netloc_ok E nl) eqn:Hok; [|discriminate]. cbn [negb].
  set (fr := match find_split "#" u2 with
             | Some (a, b) => (a, b)
             | None => (u2, [])
             end).
  assert (Hfr : incl (fst fr) u2 /\ incl (snd fr) u2
                /\ mem "#" (fst fr) = false
                /\ exists t, u2 = fst fr ++ t).
  { unfold fr. destruct (find_split "#" u2) as [[a b]|] eqn:Hf.
    - pose proof (find_split_incl _ _ _ _ Hf) as [Ha Hb].
      apply find_split_some in Hf as [He Hm]. cbn [fst snd].
      split; [exact Ha|]. split; [exact Hb|]. split; [exact Hm|].
      eexists. exact He.
    - apply find_split_none in Hf. cbn [fst snd].
      split; [apply incl_refl|]. split; [intros x []|]. split; [exact Hf|].
      exists []. rewrite app_nil_r. reflexivity. }
  destruct fr as [u3 frag]. cbn [fst snd] in Hfr.
  destruct Hfr as [Hfr1 [Hfr2 [Hfr3 [t3 Hfr4]]]].
  set (qr := match find_split "?" u3 with
             | Some (a, b) => (a, b)
             | None => (u3, [])
             end).
  assert (Hqr : incl (fst qr) u3 /\ mem "?" (fst qr) = false
                /\ exists t, u3 = fst qr ++ t).
  { unfold qr. destruct (find_split "?" u3) as [[a b]|] eqn:Hf.
    - pose proof (find_split_incl _ _ _ _ Hf) as [Ha Hb].
      apply find_split_some in Hf as [He Hm]. cbn [fst snd].
      split; [exact Ha|]. split; [exact Hm|]. eexists. exact He.
    - apply find_split_none in Hf. cbn [fst snd].
      split; [apply incl_refl|]. split; [exact Hf|].
      exists []. rewrite app_nil_r. reflexivity. }
  destruct qr as [u4 qs]. cbn [fst snd] in Hqr.
  destruct Hqr as [Hqr1 [Hqr2 [t4 Hqr4]]].
  set (pr := if in_list sch uses_params && mem ";" u4 then splitparams u4
             else (u4, [])).
  assert (Hpr : incl (fst pr) u4 /\ incl (snd pr) u4).
  { unfold pr. destruct (in_list sch uses_params && mem ";" u4).
    - apply splitparams_incl.
    - split; [apply incl_refl|intros x []]. }
  assert (Hpe : (if in_list sch uses_params && mem ";" u4
                 then splitparams u4 else (u4, [])) = pr) by reflexivity.
  destruct pr as [u5 prm]. cbn [fst snd] in Hpr. destruct Hpr as [Hp1 Hp2].
  intros [= <-]. cbn [scheme netloc path params fragment].
  split; [exact Hsch|]. split; [exact Hok|]. split; [exact Hnl1|].
  split.
  - intros c Hc. apply H0, Hi1.
    rewrite !in_app_iff in Hc. destruct Hc as [Hc|[Hc|[Hc|Hc]]].
    + apply Hnl2, Hc.
    + apply Hnl3, Hfr1, Hqr1, Hp1, Hc.
    + apply Hnl3, Hfr1, Hqr1, Hp2, Hc.
    + apply Hnl3, Hfr2, Hc.
  - intros Hne. exists u4. split; [|split; [|exact Hpe]].
    + specialize (Hnl4 Hne). subst u3 u2.
      destruct u4 as [|c u4]; [exact I|]. cbn [app] in Hnl4.
      rewrite mem_cons in Hqr2. apply orb_false_iff in Hqr2 as [Hq _].
      rewrite mem_app, mem_cons in Hfr3.
      apply orb_false_iff in Hfr3 as [Hf _].
      apply orb_false_iff in Hf as [Hf _].
      revert Hnl4 Hq Hf. clear. each_char c.
    + split; [exact Hqr2|]. subst u3. rewrite mem_app in Hfr3.
      apply orb_false_iff in Hfr3 as [Hf _]. exact Hf.
Qed.

(** The path and the parameters that [urlparse] cut from a text are cut
    again from what [urlunparse] writes for them. *)
Lemma params_written (sch u pth prm : str) :
  match u with [] => True | c :: _ => c = "/"%char end ->
  (if in_list sch uses_params && mem ";" u then splitparams u else (u, []))
  = (pth, prm) ->
  let a := if nonempty prm then pth ++ lit ";" ++ prm else pth in
  incl a u
  /\ match a with [] => True | c :: _ => c = "/"%char end
  /\ (if in_list sch uses_params && mem ";" a then splitparams a else (a, []))
     = (pth, prm).
Proof.
  intros Hu Hp a.
  assert (Hsame : a = u -> incl a u
            /\ match a with [] => True | c :: _ => c = "/"%char end
            /\ (if in_list sch uses_params && mem ";" a
                then splitparams a else (a, [])) = (pth, prm)).
  { intros ->. split; [apply incl_refl|]. split; [exact Hu|exact Hp]. }
  destruct (in_list sch uses_params && mem ";" u) eqn:Hc.
  2:{ apply Hsame. injection Hp as <- <-. reflexivity. }
  unfold splitparams in Hp. destruct (mem "/" u) eqn:Hslash.
  2:{ apply andb_true_iff in Hc as [_ Hc].
      destruct u as [|c u]; [discriminate|]. subst c. discriminate. }
  destruct (rfind_split "/" u) as [[dir base]|] eqn:Hr.
  2:{ apply Hsame. injection Hp as <- <-. reflexivity. }
  destruct (find_split ";" base) as [[b p']|] eqn:Hf.
  2:{ apply Hsame. injection Hp as <- <-. reflexivity. }
  injection Hp as <- <-.
  apply rfind_split_spec in Hr as [Hr Hbase].
  apply find_split_some in Hf as [Hf Hb]. subst base.
  destruct p' as [|c p'].
  - unfold a. cbn [nonempty].
    change (dir ++ lit "/" ++ b) with (dir ++ "/"%char :: b).
    split; [|split].
    + subst u. intros x Hx. apply in_app_iff in Hx as [Hx|Hx].
      * apply in_app_iff. auto.
      * apply in_app_iff. right. destruct Hx as [<-|Hx]; [left; reflexivity|].
        right. apply in_app_iff. auto.
    + subst u. destruct dir; [reflexivity|exact Hu].
    + destruct (in_list sch uses_params && mem ";" (dir ++ "/"%char :: b));
        [|reflexivity].
      unfold splitparams.
      rewrite mem_app, mem_cons, Ascii.eqb_refl, orb_true_r.
      rewrite mem_app in Hbase. apply orb_false_iff in Hbase as [Hb' _].
      rewrite (rfind_split_app "/" dir b Hb').
      apply find_split_none in Hb. rewrite Hb. reflexivity.
  - apply Hsame. unfold a. cbn [nonempty]. subst u.
    rewrite <- !app_assoc. reflexivity.
Qed.

(** Behind a host, the address that [urlunparse] writes with a new query
    is parsed into the components it was written from. *)
Lemma urlparse_written (E : Env) (url : str) (p : ParseResult) (q : str) :
  urlparse E url = Ok p -> netloc p <> [] ->
  q <> [] -> forallb encoded_char q = true ->
  urlparse E (urlunparse (set_query p q)) = Ok (set_query p q).
Proof.
  intros Hp Hne Hq Henc.
  destruct (urlparse_shape E url p Hp) as [Hsch [Hok [Hnl [Hclean Hu]]]].
  pose proof (urlparse_plain E url p Hp) as [_ [_ [Hpp Hpm]]].
  destruct (Hu Hne) as [u [Hu1 [Hu2 Hu3]]]. clear Hu Hp.
  destruct p as [sch nl pth prm qs frag].
  cbn [scheme netloc path params fragment] in *.
  destruct (params_written sch u pth prm Hu1 Hu3) as [Ha1 [Ha2 Ha3]].
  destruct (encoded_no_hash q Henc) as [Hhash Hfil].
  unfold urlunparse, set_query.
  cbn [scheme netloc path params query fragment].
  set (a := if nonempty prm then pth ++ lit ";" ++ prm else pth) in *.
  assert (Hpa : plain a) by (apply (plain_incl a u Ha1 Hu2)).
  set (ok := fun c => negb (is_unsafe_url_byte c)).
  assert (Hcl : forall s, incl s (nl ++ pth ++ prm ++ frag) ->
                  forallb ok s = true).
  { intros s Hs. apply forallb_forall. intros c Hc. unfold ok.
    rewrite (Hclean c (Hs c Hc)). reflexivity. }
  assert (Hcn : forallb ok nl = true)
    by (apply Hcl; intros c Hc; rewrite !in_app_iff; auto).
  assert (Hcf : forallb ok frag = true)
    by (apply Hcl; intros c Hc; rewrite !in_app_iff; auto).
  assert (Hca : forallb ok a = true).
  { unfold a. destruct (nonempty prm).
    - rewrite !forallb_app. cbn [forallb lit list_ascii_of_string].
      rewrite (Hcl pth), (Hcl prm);
        [reflexivity| |]; intros c Hc; rewrite !in_app_iff; auto.
    - apply Hcl. intros c Hc. rewrite !in_app_iff. auto. }
  rewrite (nonempty_true nl Hne). cbn [orb].
  replace (if nonempty a && negb (starts_with "/" a) then lit "/" ++ a else a)
    with a
    by (destruct a as [|c a']; [reflexivity|]; rewrite Ha2; reflexivity).
  rewrite (nonempty_true q Hq).
  set (t := if nonempty frag then lit "#" ++ frag else []).
  assert (Ht : fragment_tail t /\ forallb ok t = true
               /\ match t with [] => [] | _ :: f => f end = frag).
  { unfold t. destruct frag as [|c f]; cbn [nonempty].
    - split; [left; reflexivity|]. split; reflexivity.
    - split; [right; eexists; reflexivity|]. split; [exact Hcf|reflexivity]. }
  destruct Ht as [Ht1 [Ht2 Ht3]].
  set (w0 := lit "//" ++ nl ++ a).
  set (w1 := if nonempty sch then sch ++ lit ":" ++ w0 else w0).
  match goal with
  | |- urlparse E ?x = _ =>
      replace x with (w1 ++ "?"%char :: q ++ t)
        by (unfold t; destruct (nonempty frag);
            [rewrite <- app_assoc; reflexivity
            |rewrite app_nil_r; reflexivity])
  end.
  assert (Hrest : w0 ++ "?"%char :: q ++ t
                  = "/"%char :: "/"%char :: nl ++ a ++ "?"%char :: q ++ t).
  { unfold w0. cbn [lit list_ascii_of_string app].
    rewrite <- !app_assoc. reflexivity. }
  (* the scheme *)
  assert (Hs1 : lstrip is_c0_or_space (w1 ++ "?"%char :: q ++ t)
                = w1 ++ "?"%char :: q ++ t).
  { apply lstrip_id. unfold w1. destruct Hsch as [->|[c0 [pre [-> [Hal Hsc]]]]].
    - cbn [nonempty]. rewrite Hrest. reflexivity.
    - cbn [lower map nonempty app]. cbn [forallb] in Hsc.
      apply andb_true_iff in Hsc as [Hc0 _].
      apply (scheme_char_written c0 Hc0). }
  assert (Hs2 : filter ok (w1 ++ "?"%char :: q ++ t)
                = w1 ++ "?"%char :: q ++ t).
  { apply filter_all. rewrite forallb_app. cbn [forallb].
    rewrite forallb_app, Ht2.
    replace (forallb ok q) with true
      by (symmetry; apply forallb_forall; intros c Hc;
          rewrite forallb_forall in Henc;
          apply (encoded_char_facts c) in Henc; [|exact Hc];
          unfold ok; destruct Henc as [-> _]; reflexivity).
    rewrite !andb_true_r.
    assert (Hw0 : forallb ok w0 = true).
    { unfold w0. rewrite !forallb_app, Hcn, Hca. reflexivity. }
    unfold w1. destruct Hsch as [->|[c0 [pre [-> [Hal Hsc]]]]];
      [exact Hw0|].
    cbn [nonempty lower map]. rewrite !forallb_app. cbn [forallb].
    rewrite Hw0, !andb_true_r. cbn [forallb] in Hsc.
    apply andb_true_iff in Hsc as [Hc0 Hsc]. unfold ok at 1.
    destruct (scheme_char_written c0 Hc0) as [_ [_ [_ [-> _]]]].
    cbn [negb andb]. clear -Hsc. induction pre as [|x pre IH];
      [reflexivity|].
    cbn [forallb map] in *. apply andb_true_iff in Hsc as [Hx Hsc].
    unfold ok at 1.
    destruct (scheme_char_written x Hx) as [_ [_ [_ [-> _]]]].
    exact (IH Hsc). }
  assert (Hs3 : split_scheme (w1 ++ "?"%char :: q ++ t)
                = (sch, w0 ++ "?"%char :: q ++ t)).
  { unfold w1. destruct Hsch as [->|[c0 [pre [-> [Hal Hsc]]]]].
    - cbn [nonempty]. rewrite Hrest. apply split_scheme_slash.
    - replace (nonempty (lower (c0 :: pre))) with true by reflexivity.
      rewrite <- !app_assoc.
      change (lit ":" ++ w0 ++ "?"%char :: q ++ t)
        with (":"%char :: w0 ++ "?"%char :: q ++ t).
      apply split_scheme_written; assumption. }
  assert (Hs4 : splitnetloc (nl ++ a ++ "?"%char :: q ++ t)
                = (nl, a ++ "?"%char :: q ++ t)).
  { unfold splitnetloc. apply span_until_app; [exact Hnl|].
    destruct a as [|c a']; [reflexivity|]. rewrite Ha2. reflexivity. }
  unfold urlparse. fold ok. rewrite Hs1, Hs2, Hs3, Hrest.
  cbn [starts_with lit list_ascii_of_string Ascii.eqb Bool.eqb andb skipn].
  rewrite Hs4, Hok. cbn [negb].
  assert (Hnh : mem "#" (a ++ "?"%char :: q) = false).
  { rewrite mem_app, mem_cons, Hhash. destruct Hpa as [_ ->]. reflexivity. }
  clearbody t. destruct Ht1 as [->|[f ->]]; cbn [app] in Ht3; subst frag.
  - rewrite app_nil_r. apply find_split_none in Hnh. rewrite Hnh.
    rewrite (find_split_app "?" a q (proj1 Hpa)).
    match goal with
    | |- context [if ?c then splitparams ?x else ?y] =>
        change (if c then splitparams x else y)
          with (if in_list sch uses_params && mem ";" a
                then splitparams a else (a, []))
    end.
    rewrite Ha3. reflexivity.
  - replace (a ++ "?"%char :: q ++ "#"%char :: f)
      with ((a ++ "?"%char :: q) ++ "#"%char :: f)
      by (rewrite <- app_assoc; reflexivity).
    rewrite (find_split_app _ _ _ Hnh).
    rewrite (find_split_app "?" a q (proj1 Hpa)).
    match goal with
    | |- context [if ?c then splitparams ?x else ?y] =>
        change (if c then splitparams x else y)
          with (if in_list sch uses_params && mem ";" a
                then splitparams a else (a, []))
    end.
    rewrite Ha3. reflexivity.
Qed.

Lemma urlparse_not_cut (E : Env) (url : str) : urlparse E url <> OutOfFuel.
Proof.
  unfold urlparse.
  destruct (split_scheme _) as [sch u1].
  destruct (if starts_with "//" u1 then _ else _) as [nl u2].
  destruct (negb (netloc_ok E nl)); [discriminate|].
  destruct (match find_split "#" u2 with Some _ => _ | None => _ end)
    as [u3 frag].
  destruct (match find_split "?" u3 with Some _ => _ | None => _ end)
    as [u4 qs].
  destruct (if in_list sch uses_params && mem ";" u4 then _ else _).
  discriminate.
Qed.




(** The integer of the item parameter is one that [int] returns. *)
Lemma item_status_bound (qs : str) (n : Z) :
  item_status_of qs = ItemInteger n -> Z.abs n < 10 ^ int_max_str_digits.
Proof.
  unfold item_status_of.
  destruct (values_of "item" (parse_qsl qs)) as [|v vs]; [discriminate|].
  destruct (py_int v) as [m|] eqn:Hv; [|discriminate].
  intros [= <-]. exact (py_int_bound v m Hv).
Qed.




(** ** Filtering *)

Lemma wanted_none (refs : list (str * str)) : wanted None refs = refs.
Proof.
  unfold wanted. induction refs as [|r refs IH]; [reflexivity|].
  simpl. f_equal. exact IH.
Qed.

(** C7. On a reliable file system, [extract_pdfs] requests the page and
    then the retrieval address of exactly those file references of the
    page whose label passes the filter, in document order, and saves
    those that it fetches; a label passes a filter word exactly when it
    contains the word, letter case apart; without a filter word every
    file reference of the page is requested. *)
Theorem extract_pdfs_filter (E : Env) (url output_dir : str)
    (filter_word : option str) (s : state) :
  fs_reliable E output_dir ->
  (forall label,
     should_download filter_word label = true
     <-> matches_filter filter_word label)
  /\ (exists s' n,
        extract_pdfs E url output_dir filter_word s = (s', Ok n)
        /\ requests (trace s')
           = requests (trace s)
             ++ url :: map (fun r => pdf_url_of (snd r))
                        (filter (fun r => should_download filter_word (fst r))
                                (page_refs E url))
        /\ fs_files s'
           = List.rev
               (map (saved output_dir)
                  (fetched E
                     (filter (fun r => should_download filter_word (fst r))
                             (page_refs E url))))
             ++ fs_files s)
  /\ (filter_word = None ->
      filter (fun r => should_download filter_word (fst r)) (page_refs E url)
      = page_refs E url).
Proof.
  intros Hfs. split; [intros label; apply should_download_spec|]. split.
  - destruct (extract_pdfs_run E url output_dir filter_word s Hfs)
      as [s' [Hrun [Hf [Hr _]]]].
    exists s', (extract_count E url filter_word). auto.
  - intros ->. apply wanted_none.
Qed.

Lemma sample_env_reliable (output_dir : str) : fs_reliable sample_env output_dir.
Proof. split; reflexivity. Qed.

Lemma extract_pdfs_filter_witness :
  let s := initial_state [] [] in
  let r := extract_pdfs sample_env (listing "3") "out" (Some (lit "minutes")) s in
  fs_reliable sample_env "out"
  /\ requests (trace (fst r))
     = [listing "3"; pdf_url_of "DOC31"]
  /\ fs_files (fst r) = [(lit "out/Regular Minutes.pdf", lit "minutes of item 3")]
  /\ snd r = Ok 1.
Proof.
  intros s r. split; [apply sample_env_reliable|].
  destruct (extract_pdfs_filter sample_env (listing "3") "out"
              (Some (lit "minutes")) s (sample_env_reliable "out"))
    as [_ [[s' [n [Hrun [Hreq Hfiles]]]] _]].
  unfold r. rewrite Hrun. cbn [fst snd]. rewrite Hreq, Hfiles.
  vm_compute in Hrun. inversion Hrun; subst n.
  repeat split; vm_compute; reflexivity.
Defined.

(** ** Fetch failures *)






(** ** Observations on the traversal *)

Lemma accessed_app (a b : list event) :
  accessed (a ++ b) = accessed a ++ accessed b.
Proof. apply flat_map_app. Qed.

Lemma accessed_driver_view (t : list event) :
  accessed (driver_view t) = accessed t.
Proof.
  induction t as [|e t IH]; [reflexivity|].
  unfold driver_view in *. cbn [filter].
  destruct e as [lv m| | | |]; cbn [is_driver_event];
    try (destruct m); cbn [accessed flat_map app];
    fold (accessed t); fold (accessed (filter is_driver_event t));
    rewrite ?IH; reflexivity.
Qed.







(** ** Calls that end and start no page, in any environment *)




















(** ** The page ceiling *)





(** ** Scenario A: a traversal from item 3 *)





(** ** What the driver returns and what it reports *)

Lemma last_event_app (t : list event) (e : event) :
  last_event (t ++ [e]) = Some e.
Proof. unfold last_event. rewrite rev_app_distr. reflexivity. Qed.

Lemma report_view_last (max_pages : option Z) (v : loop_vars) (t : list event) :
  last_event (t ++ report_view max_pages v)
  = Some (Log INFO (DownloadComplete (page_count v) (total_downloads v))).
Proof.
  unfold report_view. rewrite app_assoc. apply last_event_app.
Qed.




(** ** The pause between pages *)










(** ** Duplicate item keys *)

Lemma unquote_blank (s : str) : nonempty (unquote s) = nonempty s.
Proof.
  destruct s as [|c s]; [reflexivity|].
  apply nonempty_true, unquote_nonempty. discriminate.
Qed.

Lemma replace_char_blank (a b : ascii) (s : str) :
  nonempty (replace_char a b s) = nonempty s.
Proof. destruct s; reflexivity. Qed.

(** The parser drops the occurrences whose value is blank. *)
Lemma parse_field_keep (f : str) :
  parse_field f = filter (fun nv => nonempty (snd nv)) (keep_field f).
Proof.
  unfold parse_field, keep_field. destruct f as [|c f]; [reflexivity|].
  cbn [nonempty]. destruct (find_split "=" (c :: f)) as [[n v]|];
    [|reflexivity].
  cbn [filter snd]. rewrite unquote_blank, replace_char_blank.
  destruct (nonempty v); reflexivity.
Qed.

Lemma parse_qsl_keep (qs : str) :
  parse_qsl qs
  = filter (fun nv => nonempty (snd nv)) (parse_qsl_keep_blank qs).
Proof.
  rewrite parse_qsl_fields. unfold parse_qsl_keep_blank.
  induction (if nonempty qs then split_on "&" qs else []) as [|f l IH];
    [reflexivity|].
  cbn [flat_map]. rewrite filter_app, IH, parse_field_keep. reflexivity.
Qed.

Lemma values_of_keep (k : str) (qs : str) :
  values_of k (parse_qsl qs)
  = filter nonempty (values_of k (parse_qsl_keep_blank qs)).
Proof.
  rewrite parse_qsl_keep. unfold values_of.
  induction (parse_qsl_keep_blank qs) as [|[n v] l IH]; [reflexivity|].
  cbn [filter fst snd]. destruct (nonempty v) eqn:Hv;
    cbn [filter fst snd]; destruct (str_eqb n k) eqn:Hk;
    cbn [filter map fst snd]; rewrite ?Hv, ?IH; reflexivity.
Qed.

(** An encoded well-formed dictionary holds no blank occurrence. *)
Lemma parse_qsl_keep_urlencode (d : dict) :
  dict_wf d -> parse_qsl_keep_blank (urlencode d) = parse_qsl (urlencode d).
Proof.
  intros [_ Hall]. rewrite parse_qsl_fields. unfold parse_qsl_keep_blank.
  set (fields := if nonempty (urlencode d) then _ else _).
  assert (Hf : forall f, In f fields ->
                 exists k v, v <> [] /\ f = field k v).
  { intros f Hin.
    assert (Hin' : In f (flat_map (fun kv => map (field (fst kv)) (snd kv)) d)).
    { unfold fields in Hin. rewrite urlencode_fields in Hin.
      destruct (nonempty (join "&" _)) eqn:Hne; [|contradiction].
      change (lit "&") with ["&"%char] in Hin.
      rewrite split_on_join in Hin; [exact Hin| |].
      - intros H0. rewrite H0 in Hne. discriminate.
      - apply Forall_forall. intros g Hg.
        apply in_flat_map in Hg as [[k vs] [_ Hg]].
        apply in_map_iff in Hg as [v [<- _]]. apply field_no_amp. }
    apply in_flat_map in Hin' as [[k vs] [Hd Hv]].
    apply in_map_iff in Hv as [v [<- Hv]].
    rewrite Forall_forall in Hall. destruct (Hall _ Hd) as [_ Hvs].
    rewrite Forall_forall in Hvs. exists k, v. split; [|reflexivity].
    exact (Hvs v Hv). }
  induction fields as [|f l IH]; [reflexivity|].
  cbn [flat_map]. rewrite IH by (intros g Hg; apply Hf; right; exact Hg).
  f_equal. destruct (Hf f (or_introl eq_refl)) as [k [v [Hv ->]]].
  rewrite parse_field_field, (nonempty_true v Hv).
  unfold keep_field, field.
  destruct (quote_plus_no_sep k) as [Hk _].
  change (quote_plus k ++ lit "=" ++ quote_plus v)
    with (quote_plus k ++ "="%char :: quote_plus v).
  rewrite (find_split_app _ _ _ Hk), !unquote_quote_plus.
  destruct (quote_plus k ++ "="%char :: quote_plus v) eqn:He;
    [destruct (quote_plus k); discriminate|reflexivity].
Qed.

(** C10, as stated, fails: the parser drops the occurrences of a key
    whose value is blank, so that the integer is read from the first
    occurrence that holds a value.  In the address below the first
    occurrence of the item key holds no integer, and the decrement
    returns the address of item 4, from the second occurrence. *)
Lemma decrement_skips_blank_item :
  let url := lit "https://www.cityoftulsa.org/apps/CouncilDocuments?item=&item=5&item=9" in
  values_of "item" (parse_qsl_keep_blank (lit "item=&item=5&item=9"))
  = [[]; lit "5"; lit "9"]
  /\ py_int [] = None
  /\ snd (decrement_item_in_url plain_env url (initial_state [] []))
     = Ok (Some (lit "https://www.cityoftulsa.org/apps/CouncilDocuments?item=4")).
Proof. intros url. vm_compute. repeat split. Qed.

(** C10, amended.  When the query of an address that [urlparse] accepts
    holds the item key more than once, and the first of its occurrences
    whose value is not blank holds an integer [n > 1]:
    [decrement_item_in_url] returns the address written with a new
    query, which holds the item key exactly once, with [n - 1] and with
    no blank occurrence beside it, and which is the query that
    [urlparse] reads in the returned address. *)
Theorem decrement_duplicate_item (E : Env) (url : str) (p : ParseResult)
    (occurrences rest : list str) (v : str) (n : Z) (s : state) :
  urlparse E url = Ok p ->
  values_of "item" (parse_qsl_keep_blank (query p)) = occurrences ->
  (2 <= List.length occurrences)%nat ->
  filter nonempty occurrences = v :: rest ->
  py_int v = Some n -> 1 < n ->
  exists q',
    snd (decrement_item_in_url E url s)
    = Ok (Some (urlunparse (set_query p q')))
    /\ values_of "item" (parse_qsl_keep_blank q') = [py_str (n - 1)]
    /\ values_of "item" (parse_qsl q') = [py_str (n - 1)]
    /\ (forall p',
          urlparse E (urlunparse (set_query p q')) = Ok p' -> query p' = q').
Proof.
  intros Hp Hocc _ Hfirst Hint Hn.
  assert (Hvals : values_of "item" (parse_qsl (query p)) = v :: rest).
  { rewrite values_of_keep, Hocc. exact Hfirst. }
  assert (Hg : dict_get "item" (parse_qs (query p)) = Some (v :: rest)).
  { rewrite dict_get_parse_qs, Hvals. reflexivity. }
  destruct (decremented_query_item (query p) n (v :: rest) Hg)
    as [Hv [Hne Hch]].
  exists (urlencode (dict_set "item" [py_str (n - 1)] (parse_qs (query p)))).
  split; [|split; [|split]].
  - unfold decrement_item_in_url. rewrite Hp, Hg.
    unfold try_except_ValueError. cbn [hd]. rewrite Hint.
    destruct (n <=? 1) eqn:Hle; [apply Z.leb_le in Hle; lia|].
    reflexivity.
  - rewrite parse_qsl_keep_urlencode; [exact Hv|].
    apply (dict_set_wf _ _ (v :: rest)); auto using parse_qs_wf;
      try discriminate.
    repeat constructor. apply py_str_nonempty.
  - exact Hv.
  - intros p' Hp'.
    exact (urlparse_written_query E p p' _ (urlparse_plain E url p Hp)
             Hne Hch Hp').
Qed.

Lemma decrement_duplicate_item_witness :
  let url := lit "https://www.cityoftulsa.org/apps/CouncilDocuments?item=&item=5&item=9&x=1" in
  let p := mkParseResult (lit "https") (lit "www.cityoftulsa.org")
             (lit "/apps/CouncilDocuments") [] (lit "item=&item=5&item=9&x=1")
             [] in
  urlparse plain_env url = Ok p
  /\ values_of "item" (parse_qsl_keep_blank (query p))
     = [[]; lit "5"; lit "9"]
  /\ filter nonempty [[]; lit "5"; lit "9"] = [lit "5"; lit "9"]
  /\ py_int (lit "5") = Some 5 /\ 1 < 5
  /\ exists q',
       snd (decrement_item_in_url plain_env url (initial_state [] []))
       = Ok (Some (urlunparse (set_query p q')))
       /\ values_of "item" (parse_qsl_keep_blank q') = [lit "4"].
Proof.
  intros url p. assert (H5 : 1 < 5) by lia.
  assert (Hp : urlparse plain_env url = Ok p) by reflexivity.
  assert (Hv : values_of "item" (parse_qsl_keep_blank (query p))
               = [[]; lit "5"; lit "9"]) by reflexivity.
  assert (Hf : filter nonempty [[]; lit "5"; lit "9"] = [lit "5"; lit "9"])
    by reflexivity.
  assert (Hi : py_int (lit "5") = Some 5) by reflexivity.
  assert (Hl : (2 <= List.length [[]; lit "5"; lit "9"])%nat)
    by (cbn; lia).
  repeat (split; [assumption|]).
  destruct (decrement_duplicate_item plain_env url p [[]; lit "5"; lit "9"]
              [lit "9"] (lit "5") 5 (initial_state [] []) Hp Hv Hl Hf Hi H5)
    as [q' [Hr [Hq _]]].
  exists q'. split; [exact Hr | exact Hq].
Defined.

(** ** What the decrement preserves *)

Lemma join_middle (sep : str) (f1 f2 : list str) :
  exists a b, forall x, join sep (f1 ++ x :: f2) = a ++ x ++ b.
Proof.
  induction f1 as [|y f1 [a [b IH]]].
  - exists [], (match f2 with [] => [] | _ :: _ => sep ++ join sep f2 end).
    intros x. cbn [app join]. destruct f2; [rewrite app_nil_r|]; reflexivity.
  - exists (y ++ sep ++ a), b. intros x.
    change (join sep ((y :: f1) ++ x :: f2))
      with (join sep (y :: (f1 ++ x :: f2))).
    cbn [join]. destruct (f1 ++ x :: f2) eqn:Hl.
    + destruct f1; discriminate.
    + rewrite <- Hl, IH, <- !app_assoc. reflexivity.
Qed.

Lemma dict_get_split (k : str) (vs : list str) (d : dict) :
  dict_get k d = Some vs ->
  exists d1 d2,
    d = d1 ++ (k, vs) :: d2
    /\ forall vs', dict_set k vs' d = d1 ++ (k, vs') :: d2.
Proof.
  induction d as [|[k0 v0] d IH]; simpl; [discriminate|].
  destruct (str_eqb k0 k) eqn:H0.
  - apply str_eqb_eq in H0; subst k0. intros [= ->].
    exists [], d. split; [reflexivity|]. intros vs'. reflexivity.
  - intros H. destruct (IH H) as [d1 [d2 [-> Hset]]].
    exists ((k0, v0) :: d1), d2. split; [reflexivity|].
    intros vs'. rewrite Hset. reflexivity.
Qed.

(** The encoded query of a dictionary around the field of a key that
    holds one value. *)
Lemma urlencode_around (k v : str) (d : dict) :
  dict_get k d = Some [v] ->
  exists a b,
    forall v', urlencode (dict_set k [v'] d) = a ++ field k v' ++ b.
Proof.
  intros Hg. destruct (dict_get_split k [v] d Hg) as [d1 [d2 [-> Hset]]].
  destruct (join_middle "&"
              (flat_map (fun kv => map (field (fst kv)) (snd kv)) d1)
              (flat_map (fun kv => map (field (fst kv)) (snd kv)) d2))
    as [a [b Hj]].
  exists a, b. intros v'. rewrite Hset, urlencode_fields, flat_map_app.
  cbn [flat_map map fst snd app]. apply Hj.
Qed.

Lemma dict_set_same (k : str) (vs : list str) (d : dict) :
  dict_get k d = Some vs -> dict_set k vs d = d.
Proof.
  intros H. destruct (dict_get_split k vs d H) as [d1 [d2 [Hd Hset]]].
  rewrite Hset. symmetry. exact Hd.
Qed.

(** C2, as stated, fails: the query is written again from a dictionary,
    which groups the values of a repeated key and holds no blank value,
    and the address is written again from its components.  The first
    address below comes back with its parameters in another order, so it
    is not the input with the item value replaced, and the second one
    without its blank parameter; the third one comes back with another
    host and another path, the fourth one with another path. *)
Lemma decrement_reorders_parameters :
  let s0 := initial_state [] [] in
  let url := lit "https://www.cityoftulsa.org/apps/CouncilDocuments?a=1&b=2&a=3&item=3" in
  (item_index plain_env url = 3
   /\ snd (decrement_item_in_url plain_env url s0)
      = Ok (Some (lit "https://www.cityoftulsa.org/apps/CouncilDocuments?a=1&a=3&b=2&item=2"))
   /\ parse_qsl (lit "a=1&b=2&a=3&item=3")
      = [(lit "a", lit "1"); (lit "b", lit "2"); (lit "a", lit "3");
         (lit "item", lit "3")]
   /\ parse_qsl (lit "a=1&a=3&b=2&item=2")
      = [(lit "a", lit "1"); (lit "a", lit "3"); (lit "b", lit "2");
         (lit "item", lit "2")]
   /\ snd (decrement_item_in_url plain_env
             (lit "https://www.cityoftulsa.org/apps/CouncilDocuments?a=&item=3")
             s0)
      = Ok (Some (lit "https://www.cityoftulsa.org/apps/CouncilDocuments?item=2")))
  /\ (urlparse plain_env (lit "http:////x?item=3")
      = Ok (mkParseResult (lit "http") [] (lit "//x") [] (lit "item=3") [])
      /\ snd (decrement_item_in_url plain_env (lit "http:////x?item=3") s0)
         = Ok (Some (lit "http://x?item=2"))
      /\ urlparse plain_env (lit "http://x?item=2")
         = Ok (mkParseResult (lit "http") (lit "x") [] [] (lit "item=2") []))
  /\ (urlparse plain_env (lit "http:docs?item=3")
      = Ok (mkParseResult (lit "http") [] (lit "docs") [] (lit "item=3") [])
      /\ snd (decrement_item_in_url plain_env (lit "http:docs?item=3") s0)
         = Ok (Some (lit "http:///docs?item=2"))
      /\ urlparse plain_env (lit "http:///docs?item=2")
         = Ok (mkParseResult (lit "http") [] (lit "/docs") [] (lit "item=2")
                 [])).
Proof. intros s0 url. vm_compute. repeat split. Qed.

(** C2, amended.  For every address that [urlparse] accepts and whose
    item parameter holds an integer [n > 1], the decrement returns the
    address written from the same scheme, host, path, parameters and
    fragment and from a new query, in which the item key occurs once,
    with [n - 1].  That query is the one that [urlparse] reads in the
    returned address; when the address has a host, [urlparse] reads all
    the components in it that it was written from: scheme, host, path,
    parameters and fragment are those of the input.  When the old query
    is well-formed text, the new query, parsed, gives the dictionary of
    the old one (the keys that have a value that is not blank, in order
    of first occurrence, each with its non-blank values, escapes
    decoded) with [n - 1] alone under the item key.  When the input is in written form (it is what [urlunparse]
    writes for its components, its query is what [urlencode] writes for
    a well-formed dictionary of texts, and the item value is the decimal
    text of [n]), the returned address is the input with the text of [n]
    replaced by that of [n - 1], and equal to it everywhere else. *)
Theorem decrement_preserves (E : Env) (url : str) (p : ParseResult) (n : Z)
    (s : state) :
  urlparse E url = Ok p ->
  item_status_of (query p) = ItemInteger n ->
  1 < n ->
  exists q',
    snd (decrement_item_in_url E url s)
    = Ok (Some (urlunparse (set_query p q')))
    /\ values_of "item" (parse_qsl_keep_blank q') = [py_str (n - 1)]
    /\ item_status_of q' = ItemInteger (n - 1)
    /\ (forall p', urlparse E (urlunparse (set_query p q')) = Ok p' ->
                   query p' = q')
    /\ (netloc p <> [] ->
        urlparse E (urlunparse (set_query p q')) = Ok (set_query p q'))
    /\ (well_formed (query p) ->
        parse_qs q' = dict_set "item" [py_str (n - 1)] (parse_qs (query p))
        /\ keys (parse_qs q') = keys (parse_qs (query p)))
    /\ (forall d,
          urlunparse p = url -> dict_wf d -> dict_text d ->
          query p = urlencode d ->
          dict_get "item" d = Some [py_str n] ->
          exists pre post,
            url = pre ++ lit "item=" ++ py_str n ++ post
            /\ urlunparse (set_query p q')
               = pre ++ lit "item=" ++ py_str (n - 1) ++ post).
Proof.
  intros Hp Hst Hn.
  pose proof (item_status_bound (query p) n Hst) as Hbound.
  pose proof (item_status_dict (query p)) as Hd.
  destruct (dict_get "item" (parse_qs (query p))) as [values|] eqn:Hg;
    [|rewrite Hd in Hst; discriminate].
  destruct Hd as [Hd _]. rewrite Hst in Hd.
  destruct (py_int (hd [] values)) as [m|] eqn:Hint; [|discriminate].
  inversion Hd; subst m. clear Hd.
  destruct (decremented_query_item (query p) n values Hg)
    as [Hv [Hne Hch]].
  assert (Hwf : dict_wf (dict_set "item" [py_str (n - 1)]
                           (parse_qs (query p)))).
  { apply (dict_set_wf _ _ values); auto using parse_qs_wf; try discriminate.
    repeat constructor. apply py_str_nonempty. }
  set (q' := urlencode (dict_set "item" [py_str (n - 1)]
                          (parse_qs (query p)))) in *.
  exists q'. split; [|split; [|split; [|split; [|split; [|split]]]]].
  - unfold decrement_item_in_url. rewrite Hp, Hg.
    unfold try_except_ValueError. rewrite Hint.
    destruct (n <=? 1) eqn:Hle; [apply Z.leb_le in Hle; lia|].
    reflexivity.
  - unfold q'. rewrite parse_qsl_keep_urlencode by exact Hwf. exact Hv.
  - unfold item_status_of. rewrite Hv, py_int_py_str by lia. reflexivity.
  - intros p' Hp'.
    exact (urlparse_written_query E p p' q' (urlparse_plain E url p Hp)
             Hne Hch Hp').
  - intros Hnl. exact (urlparse_written E url p q' Hp Hnl Hne Hch).
  - intros Hq.
    pose proof (decremented_query_dict (query p) n values Hq Hg) as Hparse.
    fold q' in Hparse. split; [exact Hparse|].
    rewrite Hparse. apply (keys_dict_set _ _ values), Hg.
  - intros d Hwritten Hwfd Htext Hq Hitem.
    assert (Hpd : parse_qs (query p) = d)
      by (rewrite Hq; apply parse_qs_urlencode; assumption).
    destruct (urlencode_around "item" (py_str n) d Hitem) as [a [b Hab]].
    assert (Hq1 : query p = a ++ field "item" (py_str n) ++ b).
    { rewrite Hq, <- (Hab (py_str n)), dict_set_same; auto. }
    assert (Hq2 : q' = a ++ field "item" (py_str (n - 1)) ++ b).
    { unfold q'. rewrite Hpd. apply Hab. }
    exists (address_head p ++ "?"%char :: a), (b ++ address_tail p).
    split.
    + rewrite <- Hwritten at 1. rewrite urlunparse_query.
      * rewrite Hq1, item_field, <- !app_assoc. reflexivity.
      * rewrite Hq1, item_field. destruct a; discriminate.
    + rewrite (urlunparse_query (set_query p q')) by exact Hne.
      change (query (set_query p q')) with q'.
      change (address_tail (set_query p q')) with (address_tail p).
      change (address_head (set_query p q')) with (address_head p).
      rewrite Hq2, item_field, <- !app_assoc. reflexivity.
Qed.

Lemma decrement_preserves_witness :
  let s0 := initial_state [] [] in
  let url := lit "https://www.cityoftulsa.org/apps/CouncilDocuments?b=%FF&item=47837&a=x+y#top" in
  let p := mkParseResult (lit "https") (lit "www.cityoftulsa.org")
             (lit "/apps/CouncilDocuments") []
             (lit "b=%FF&item=47837&a=x+y") (lit "top") in
  let q' := lit "b=%EF%BF%BD&item=47836&a=x+y" in
  let url2 := lit "https://www.cityoftulsa.org/apps/CouncilDocuments?item=47837" in
  let p2 := mkParseResult (lit "https") (lit "www.cityoftulsa.org")
              (lit "/apps/CouncilDocuments") [] (lit "item=47837") [] in
  (urlparse plain_env url = Ok p
   /\ item_status_of (query p) = ItemInteger 47837
   /\ 1 < 47837
   /\ snd (decrement_item_in_url plain_env url s0)
      = Ok (Some (lit "https://www.cityoftulsa.org/apps/CouncilDocuments?b=%EF%BF%BD&item=47836&a=x+y#top"))
   /\ urlparse plain_env
        (lit "https://www.cityoftulsa.org/apps/CouncilDocuments?b=%EF%BF%BD&item=47836&a=x+y#top")
      = Ok (set_query p q')
   /\ keys (parse_qs q') = [lit "b"; lit "item"; lit "a"])
  /\ (urlparse plain_env url2 = Ok p2
      /\ item_status_of (query p2) = ItemInteger 47837
      /\ exists pre post,
           url2 = pre ++ lit "item=" ++ py_str 47837 ++ post
           /\ snd (decrement_item_in_url plain_env url2 s0)
              = Ok (Some (pre ++ lit "item=" ++ py_str (47837 - 1) ++ post))).
Proof.
  intros s0 url p q' url2 p2. assert (Hn : 1 < 47837) by lia. split.
  - assert (Hp : urlparse plain_env url = Ok p) by reflexivity.
    assert (Hst : item_status_of (query p) = ItemInteger 47837)
      by reflexivity.
    do 3 (split; [assumption|]).
    destruct (decrement_preserves plain_env url p 47837 s0 Hp Hst Hn)
      as [q1 [Hr [_ [_ [_ [Hhost [Hdict _]]]]]]].
    assert (Hq : q1 = q').
    { assert (H : snd (decrement_item_in_url plain_env url s0)
                  = Ok (Some (urlunparse (set_query p q'))))
        by reflexivity.
      rewrite Hr in H. injection H as H.
      apply (f_equal (urlparse plain_env)) in H.
      rewrite (Hhost ltac:(discriminate)) in H.
      assert (H' : urlparse plain_env (urlunparse (set_query p q'))
                   = Ok (set_query p q')) by reflexivity.
      rewrite H' in H. injection H as H. exact H. }
    subst q1. split; [exact Hr|]. split.
    + apply (Hhost ltac:(discriminate)).
    + destruct (Hdict ltac:(reflexivity)) as [_ Hk]. rewrite Hk. reflexivity.
  - assert (Hp : urlparse plain_env url2 = Ok p2) by reflexivity.
    assert (Hst : item_status_of (query p2) = ItemInteger 47837)
      by reflexivity.
    do 2 (split; [assumption|]).
    destruct (decrement_preserves plain_env url2 p2 47837 s0 Hp Hst Hn)
      as [q1 [Hr [_ [_ [_ [_ [_ Hwritten]]]]]]].
    destruct (Hwritten [(lit "item", [lit "47837"])]) as [pre [post [H1 H2]]].
    + reflexivity.
    + split.
      * repeat constructor. simpl. tauto.
      * repeat constructor; discriminate.
    + repeat constructor.
    + reflexivity.
    + reflexivity.
    + exists pre, post. split; [exact H1|]. rewrite Hr, H2. reflexivity.
Defined.

Example decrement_default_address :
  snd (decrement_item_in_url plain_env
         (lit "https://www.cityoftulsa.org/apps/CouncilDocuments?item=47837")
         (initial_state [] []))
  = Ok (Some (lit "https://www.cityoftulsa.org/apps/CouncilDocuments?item=47836")).
Proof. reflexivity. Qed.

Example decrement_duplicate_example :
  snd (decrement_item_in_url plain_env
         (lit "https://www.cityoftulsa.org/apps/CouncilDocuments?item=5&item=9&x=1")
         (initial_state [] []))
  = Ok (Some (lit "https://www.cityoftulsa.org/apps/CouncilDocuments?item=4&x=1")).
Proof. reflexivity. Qed.

(** * Further properties of the script *)

(** ** The ancestors of a directory *)

Lemma lstrip_suffix (p : ascii -> bool) (s : str) :
  exists r, s = r ++ lstrip p s /\ forallb p r = true.
Proof.
  induction s as [|c s [r [IH1 IH2]]]; [exists []; auto|].
  cbn [lstrip]. destruct (p c) eqn:Hc.
  - exists (c :: r). cbn [app forallb]. rewrite <- IH1, Hc, IH2. auto.
  - exists []. auto.
Qed.

Lemma rstrip_prefix (p : ascii -> bool) (s : str) :
  exists r, s = rstrip p s ++ r /\ forallb p r = true.
Proof.
  unfold rstrip. destruct (lstrip_suffix p (List.rev s)) as [r [Hr Hp]].
  exists (List.rev r). split.
  - rewrite <- rev_app_distr, <- Hr, rev_involutive. reflexivity.
  - rewrite forallb_forall in *. intros x Hx. apply Hp, in_rev, Hx.
Qed.

Lemma ends_with_slash_app (a : str) : ends_with_slash (a ++ lit "/") = true.
Proof.
  unfold ends_with_slash. rewrite rev_app_distr. reflexivity.
Qed.

(** The head and the tail that [posixpath.split] returns: the head is an
    initial part of the path, cut at a slash, and the tail is what
    follows the last slash of the path. *)
Lemma path_split_spec (p head tail : str) :
  path_split p = (head, tail) -> head <> [] ->
  exists r,
    p = head ++ r ++ tail
    /\ (starts_with "/" r = true \/ ends_with_slash head = true).
Proof.
  unfold path_split. destruct (rfind_split "/" p) as [[a t]|] eqn:Hr.
  - apply rfind_split_spec in Hr as [-> _].
    destruct (forallb _ (a ++ lit "/")).
    + intros [= <- <-] _. exists []. split.
      * rewrite <- app_assoc. reflexivity.
      * right. apply ends_with_slash_app.
    + intros [= <- <-] _.
      destruct (rstrip_prefix (fun c => Ascii.eqb c "/") (a ++ lit "/"))
        as [r [Hr Hs]].
      change (lit "/") with ["/"%char] in *.
      exists r. split.
      * rewrite (app_assoc _ r t), <- Hr, <- app_assoc. reflexivity.
      * destruct r as [|c r].
        -- right. rewrite app_nil_r in Hr. rewrite <- Hr.
           apply (ends_with_slash_app a).
        -- left. cbn [forallb] in Hs. apply andb_true_iff in Hs as [Hc _].
           apply Ascii.eqb_eq in Hc. subst c. reflexivity.
  - intros [= <- <-] H. contradiction.
Qed.

Lemma ancestor_of_app (d dir t : str) :
  ancestor_of d dir -> ancestor_of d (dir ++ t).
Proof.
  intros [r [Hr [He Hb]]]. exists (r ++ t).
  split; [destruct r; [contradiction|discriminate]|].
  split; [rewrite He, <- app_assoc; reflexivity|].
  destruct Hb as [Hb|Hb]; [left|right; exact Hb].
  destruct r as [|c r]; [contradiction|exact Hb].
Qed.

Lemma ancestor_of_trans (a b c : str) :
  ancestor_of a b -> ancestor_of b c -> ancestor_of a c.
Proof.
  intros Hab [r [Hr [He _]]]. rewrite He. apply ancestor_of_app, Hab.
Qed.

(** The head that [os.makedirs] calls itself on lies above the path. *)
Lemma makedirs_head (name head tail : str) :
  (let '(h, t) := path_split name in
   if nonempty t then (h, t) else path_split h) = (head, tail) ->
  nonempty head = true -> nonempty tail = true ->
  ancestor_of head name.
Proof.
  destruct (path_split name) as [h t] eqn:H1.
  destruct (nonempty t) eqn:Ht.
  - intros [= <- <-] Hh _.
    destruct (path_split_spec name h t H1) as [r1 [E1 B1]];
      [destruct h; discriminate|].
    exists (r1 ++ t). split; [|split; [exact E1|]].
    + destruct t; [discriminate|]. destruct r1; discriminate.
    + destruct B1 as [B1|B1]; [left|right; exact B1].
      destruct r1 as [|c r1]; [discriminate|exact B1].
  - intros H2 Hh Hne.
    destruct (path_split_spec h head tail H2) as [r2 [E2 B2]];
      [destruct head; discriminate|].
    assert (Hhh : ancestor_of head h).
    { exists (r2 ++ tail). split; [|split; [exact E2|]].
      - destruct tail; [discriminate|]. destruct r2; discriminate.
      - destruct B2 as [B2|B2]; [left|right; exact B2].
        destruct r2 as [|c r2]; [discriminate|exact B2]. }
    destruct (path_split_spec name h t H1) as [r1 [E1 _]].
    { destruct Hhh as [r [Hr [He _]]]. rewrite He.
      destruct head; [discriminate|discriminate]. }
    rewrite E1. apply ancestor_of_app, Hhh.
Qed.

Lemma ancestor_of_length (d dir : str) :
  ancestor_of d dir -> (List.length d < List.length dir)%nat.
Proof.
  intros [r [Hr [-> _]]]. rewrite length_app. destruct r; [contradiction|].
  cbn [List.length]. lia.
Qed.


(** The bound of [missing_ancestors] is never reached: above the length
    of the path, the bound makes no difference. *)
Lemma missing_ancestors_bound (exists_ : str -> bool) :
  forall (b1 b2 : nat) (name : str),
  (List.length name < b1)%nat -> (List.length name < b2)%nat ->
  missing_ancestors b1 exists_ name = missing_ancestors b2 exists_ name.
Proof.
  induction b1 as [|b1 IH]; intros b2 name H1 H2; [lia|].
  destruct b2 as [|b2]; [lia|]. cbn [missing_ancestors].
  pose proof (makedirs_head name) as Hh.
  destruct (path_split name) as [h t].
  destruct (if nonempty t then (h, t) else path_split h) as [head tail].
  destruct (nonempty head && nonempty tail && negb (exists_ head)) eqn:Hc;
    [|reflexivity].
  apply andb_true_iff in Hc as [Hc _]. apply andb_true_iff in Hc as [Hc1 Hc2].
  pose proof (ancestor_of_length _ _ (Hh head tail eq_refl Hc1 Hc2)) as Hl.
  rewrite (IH b2 head) by lia. reflexivity.
Qed.

(** Every ancestor that [os.makedirs] creates is missing and lies above
    the path. *)
Lemma missing_ancestors_spec (exists_ : str -> bool) :
  forall (bound : nat) (name d : str),
  In d (missing_ancestors bound exists_ name) ->
  exists_ d = false /\ ancestor_of d name.
Proof.
  induction bound as [|bound IH]; intros name d; [intros []|].
  cbn [missing_ancestors].
  pose proof (makedirs_head name) as Hh.
  destruct (path_split name) as [h t].
  destruct (if nonempty t then (h, t) else path_split h) as [head tail].
  destruct (nonempty head && nonempty tail && negb (exists_ head)) eqn:Hc;
    [|intros []].
  apply andb_true_iff in Hc as [Hc He]. apply andb_true_iff in Hc as [Hc1 Hc2].
  pose proof (Hh head tail eq_refl Hc1 Hc2) as Ha.
  intros Hin. apply in_app_iff in Hin as [Hin|[<-|[]]].
  - destruct (IH head d Hin) as [Hd Hd']. split; [exact Hd|].
    exact (ancestor_of_trans _ _ _ Hd' Ha).
  - split; [destruct (exists_ head); [discriminate|reflexivity]|exact Ha].
Qed.

Lemma take_while_incl {A : Type} (f : A -> bool) (l : list A) :
  incl (take_while f l) l.
Proof.
  induction l as [|x l IH]; [apply incl_refl|]. cbn [take_while].
  destruct (f x); [|intros y []].
  intros y [<-|Hy]; [left; reflexivity|right; apply IH, Hy].
Qed.

(** What the one call of [os.makedirs] leaves behind: directories that
    were missing, each of them the directory itself or one that lies
    above it. *)
Lemma makedirs_result_spec (E : Env) (dir : str) (s : state) (d : str) :
  In d (makedirs_result E dir s) ->
  present dir s = false
  /\ present d s = false
  /\ (d = dir /\ makedirs_ok E dir = true \/ ancestor_of d dir).
Proof.
  unfold makedirs_result. destruct (present dir s) eqn:Hp; [intros []|].
  intros Hin. split; [reflexivity|].
  assert (Hm : In d (makedirs_missing dir s) ->
               present d s = false /\ ancestor_of d dir).
  { apply missing_ancestors_spec. }
  destruct (makedirs_ok E dir).
  - destruct Hin as [<-|Hin]; [auto|].
    apply in_rev in Hin. destruct (Hm Hin) as [H1 H2]. auto.
  - apply in_rev, take_while_incl in Hin. destruct (Hm Hin) as [H1 H2]. auto.
Qed.

(** ** Events and file system of a call, in any environment *)

Lemma written_app (a b : list event) : written (a ++ b) = written a ++ written b.
Proof. apply flat_map_app. Qed.

Lemma made_app (a b : list event) : made (a ++ b) = made a ++ made b.
Proof. apply flat_map_app. Qed.

Lemma journal_weaken {A : Type} (Q Q' : event -> Prop) (m : M A) :
  (forall e, Q e -> Q' e) -> journal Q m -> journal Q' m.
Proof.
  intros HQ Hm s. destruct (Hm s) as [t [Ht [Hq Hfs]]].
  exists t. split; [exact Ht|]. split; [|exact Hfs].
  eapply Forall_impl; [exact HQ|exact Hq].
Qed.

Lemma journal_quiet {A : Type} (Q : event -> Prop) (m : M A) :
  (forall s, fst (m s) = s) -> journal Q m.
Proof.
  intros H s. exists []. rewrite H, app_nil_r. repeat split. constructor.
Qed.

Lemma journal_ret {A : Type} (Q : event -> Prop) (a : A) : journal Q (ret a).
Proof. apply journal_quiet. reflexivity. Qed.

Lemma journal_raise {A : Type} (Q : event -> Prop) (e : exn) :
  journal Q (@raise A e).
Proof. apply journal_quiet. reflexivity. Qed.

Lemma journal_after (Q : event -> Prop) (s s1 s2 : state)
    (t1 t2 : list event) :
  trace s1 = trace s ++ t1 -> Forall Q t1 ->
  fs_files s1 = List.rev (written t1) ++ fs_files s ->
  fs_dirs s1 = List.rev (made t1) ++ fs_dirs s ->
  trace s2 = trace s1 ++ t2 -> Forall Q t2 ->
  fs_files s2 = List.rev (written t2) ++ fs_files s1 ->
  fs_dirs s2 = List.rev (made t2) ++ fs_dirs s1 ->
  trace s2 = trace s ++ (t1 ++ t2)
  /\ Forall Q (t1 ++ t2)
  /\ fs_files s2 = List.rev (written (t1 ++ t2)) ++ fs_files s
  /\ fs_dirs s2 = List.rev (made (t1 ++ t2)) ++ fs_dirs s.
Proof.
  intros H1 Q1 F1 D1 H2 Q2 F2 D2.
  rewrite H2, H1, F2, F1, D2, D1, written_app, made_app, !rev_app_distr,
    <- !app_assoc.
  repeat split. apply Forall_app. split; assumption.
Qed.

Lemma journal_bind {A B : Type} (Q : event -> Prop) (m : M A) (k : A -> M B) :
  journal Q m -> (forall a, journal Q (k a)) -> journal Q (bind m k).
Proof.
  intros Hm Hk s. unfold bind.
  destruct (Hm s) as [t1 [H1 [Q1 [F1 D1]]]].
  destruct (m s) as [s1 [a|e|]]; cbn [fst] in *;
    try (exists t1; repeat split; assumption).
  destruct (Hk a s1) as [t2 [H2 [Q2 [F2 D2]]]].
  exists (t1 ++ t2).
  exact (journal_after Q s s1 _ t1 t2 H1 Q1 F1 D1 H2 Q2 F2 D2).
Qed.

Lemma journal_emit (Q : event -> Prop) (e : event) :
  Q e -> written [e] = [] -> made [e] = [] -> journal Q (emit e).
Proof.
  intros HQ Hw Hm s. exists [e]. unfold emit. cbn [fst trace fs_files fs_dirs].
  rewrite Hw, Hm. repeat split. constructor; [exact HQ|constructor].
Qed.

Lemma journal_log (Q : event -> Prop) (lv : level) (m : message) :
  Q (Log lv m) -> journal Q (log lv m).
Proof. intros H. apply journal_emit; [exact H|reflexivity|reflexivity]. Qed.

Lemma journal_try_request {A : Type} (Q : event -> Prop) (body : M A)
    (handler : str -> M A) :
  journal Q body -> (forall e, journal Q (handler e)) ->
  journal Q (try_except_RequestException body handler).
Proof.
  intros Hb Hh s. unfold try_except_RequestException.
  destruct (Hb s) as [t1 [H1 [Q1 [F1 D1]]]].
  destruct (body s) as [s1 [a|[| |e]|]]; cbn [fst] in *;
    try (exists t1; repeat split; assumption).
  destruct (Hh e s1) as [t2 [H2 [Q2 [F2 D2]]]].
  exists (t1 ++ t2).
  exact (journal_after Q s s1 _ t1 t2 H1 Q1 F1 D1 H2 Q2 F2 D2).
Qed.

Lemma journal_try_value {A : Type} (Q : event -> Prop) (body handler : M A) :
  journal Q body -> journal Q handler ->
  journal Q (try_except_ValueError body handler).
Proof.
  intros Hb Hh s. unfold try_except_ValueError.
  destruct (Hb s) as [t1 [H1 [Q1 [F1 D1]]]].
  destruct (body s) as [s1 [a|[| |e]|]]; cbn [fst] in *;
    try (exists t1; repeat split; assumption).
  destruct (Hh s1) as [t2 [H2 [Q2 [F2 D2]]]].
  exists (t1 ++ t2).
  exact (journal_after Q s s1 _ t1 t2 H1 Q1 F1 D1 H2 Q2 F2 D2).
Qed.

Lemma journal_if {A : Type} (Q : event -> Prop) (b : bool) (m1 m2 : M A) :
  journal Q m1 -> journal Q m2 -> journal Q (if b then m1 else m2).
Proof. destruct b; auto. Qed.

Lemma journal_get (Q : event -> Prop) (E : Env) (url : str) :
  Q (Get url) -> journal Q (get E url).
Proof.
  intros H. unfold get. apply journal_bind.
  - apply journal_emit; [exact H|reflexivity|reflexivity].
  - intros _. destruct (requests_get E url);
      [apply journal_raise|apply journal_ret].
Qed.

Lemma journal_raise_for_status (Q : event -> Prop) (r : Response) :
  journal Q (raise_for_status r).
Proof.
  unfold raise_for_status.
  destruct (http_error r); [apply journal_raise|apply journal_ret].
Qed.

Lemma journal_write_file (Q : event -> Prop) (E : Env) (path data : str) :
  Q (WriteFile path data) -> journal Q (write_file E path data).
Proof.
  intros H s. unfold write_file. destruct (open_wb_ok E path).
  - exists [WriteFile path data]. cbn [fst trace fs_files fs_dirs].
    repeat split. constructor; [exact H|constructor].
  - exists []. cbn [fst]. rewrite app_nil_r. repeat split. constructor.
Qed.

Lemma journal_sleep (Q : event -> Prop) (seconds : Z) :
  (0 <= seconds -> Q (Sleep seconds)) -> journal Q (sleep seconds).
Proof.
  intros H. unfold sleep. destruct (seconds <? 0) eqn:Hs.
  - apply journal_raise.
  - apply journal_emit; [|reflexivity|reflexivity].
    apply H. apply Z.ltb_ge. exact Hs.
Qed.

Lemma journal_for_each {A B : Type} (Q : event -> Prop) (l : list A)
    (body : A -> B -> M B) :
  (forall x b, journal Q (body x b)) ->
  forall acc, journal Q (for_each l body acc).
Proof.
  intros Hb. induction l as [|x l IH]; intros acc; cbn [for_each].
  - apply journal_ret.
  - apply journal_bind; [apply Hb|]. intros b. apply IH.
Qed.

(** The file that a label is saved as lies directly inside the output
    directory. *)
Lemma clean_filename_clean (label : str) : clean_name (clean_filename label).
Proof.
  unfold clean_name, clean_filename. induction label as [|c l IH];
    [reflexivity|].
  cbn [map forallb]. rewrite IH, andb_true_r.
  destruct (mem c invalid_filename_chars) eqn:Hc; [reflexivity|].
  rewrite Hc. reflexivity.
Qed.

Lemma clean_name_no_slash (name : str) :
  clean_name name -> starts_with "/" name = false /\ mem "/" name = false.
Proof.
  unfold clean_name. intros H. split.
  - destruct name as [|c r]; [reflexivity|]. cbn [forallb] in H.
    apply andb_true_iff in H as [H _]. revert H. each_char c.
  - induction name as [|c r IH]; [reflexivity|]. cbn [forallb] in H.
    apply andb_true_iff in H as [Hc Hr]. rewrite mem_cons, (IH Hr), orb_false_r.
    revert Hc. each_char c.
Qed.

Lemma path_join_inside (dir label : str) :
  inside dir (path_join dir (clean_filename label)).
Proof.
  exists (clean_filename label). split; [apply clean_filename_clean|].
  unfold path_join.
  destruct (clean_name_no_slash _ (clean_filename_clean label)) as [-> _].
  destruct (negb (nonempty dir) || ends_with_slash dir); reflexivity.
Qed.

Lemma journal_download_file (E : Env) (url output_dir : str)
    (filter_word : option str) (fe : Div * list Div) (n : Z) :
  journal (download_event url output_dir)
    (download_file E output_dir filter_word fe n).
Proof.
  unfold download_file. apply journal_if.
  - destruct (find_next "pdfString" (snd fe)); [|apply journal_ret].
    apply journal_bind; [apply journal_log; exact I|]. intros _.
    apply journal_try_request.
    + apply journal_bind.
      { apply journal_get. right. eexists. reflexivity. }
      intros r. apply journal_bind; [apply journal_raise_for_status|].
      intros _. apply journal_bind.
      { apply journal_write_file. apply path_join_inside. }
      intros _. apply journal_bind; [apply journal_log; exact I|].
      intros _. apply journal_ret.
    + intros e. apply journal_bind; [apply journal_log; exact I|].
      intros _. apply journal_ret.
  - apply journal_bind; [apply journal_log; exact I|]. intros _.
    apply journal_ret.
Qed.

(** The [try] statement of [extract_pdfs]. *)
Lemma journal_extract_body (E : Env) (url output_dir : str)
    (filter_word : option str) :
  journal (download_event url output_dir)
    (try_except_RequestException
       (log INFO (AccessingURL url) ;;
        response <- get E url ;;
        raise_for_status response ;;
        match find_all "fileName" (html_divs E (text response)) with
        | [] => log INFO (NoFilesFound url) ;; ret 0
        | _ :: _ =>
            for_each (find_all "fileName" (html_divs E (text response)))
              (download_file E output_dir filter_word) 0
        end)
       (fun e => log ERROR (ErrorAccessing url e) ;; ret 0)).
Proof.
  apply journal_try_request.
  - apply journal_bind; [apply journal_log; reflexivity|]. intros _.
    apply journal_bind; [apply journal_get; left; reflexivity|]. intros r.
    apply journal_bind; [apply journal_raise_for_status|]. intros _.
    destruct (find_all "fileName" (html_divs E (text r))) as [|fe fes].
    + apply journal_bind; [apply journal_log; exact I|]. intros _.
      apply journal_ret.
    + apply journal_for_each. intros x b. apply journal_download_file.
  - intros e. apply journal_bind; [apply journal_log; exact I|].
    intros _. apply journal_ret.
Qed.

Lemma download_event_extraction (url output_dir : str) (e : event) :
  download_event url output_dir e -> extraction_event url output_dir e.
Proof. destruct e; cbn; auto. contradiction. Qed.

Lemma download_events_made (url output_dir : str) (t : list event) :
  Forall (download_event url output_dir) t ->
  made t = [] /\ page_starts t = [].
Proof.
  induction 1 as [|e t He _ [IH1 IH2]]; [split; reflexivity|].
  unfold made, page_starts in *. cbn [flat_map filter].
  rewrite IH1, IH2.
  destruct e as [lv m| | | |]; cbn in He; try contradiction;
    try (split; reflexivity).
  destruct m; cbn in He; try contradiction; split; reflexivity.
Qed.

(** ** What [extract_pdfs] returns is the number of files it wrote *)

Ltac run_step :=
  match goal with
  | |- context [requests_get ?E ?u] => destruct (requests_get E u)
  | |- context [http_error ?r] => destruct (http_error r)
  | |- context [open_wb_ok ?E ?p] => destruct (open_wb_ok E p)
  | |- context [makedirs_ok ?E ?p] => destruct (makedirs_ok E p)
  end.

Ltac run_monad :=
  repeat (cbv beta iota zeta
            delta [bind log emit try_except_RequestException get
                   raise_for_status write_file makedirs ret raise];
          cbn [fst snd fs_files fs_dirs trace];
          try run_step).

Lemma download_file_count (E : Env) (output_dir : str)
    (filter_word : option str) (fe : Div * list Div) (n : Z) (s : state) :
  match snd (download_file E output_dir filter_word fe n s) with
  | Ok n' =>
      n <= n'
      /\ Z.of_nat (List.length
                     (fs_files (fst (download_file E output_dir filter_word
                                       fe n s))))
         = Z.of_nat (List.length (fs_files s)) + (n' - n)
  | Raise (RequestException _) => False
  | _ => True
  end.
Proof.
  unfold download_file.
  destruct (should_download filter_word (strip (div_text (fst fe))));
    [destruct (find_next "pdfString" (snd fe)) as [e|]|];
    run_monad; try exact I; cbn [List.length]; split; lia.
Qed.

Lemma for_each_count (E : Env) (output_dir : str)
    (filter_word : option str) (fes : list (Div * list Div)) :
  forall (n : Z) (s : state),
  match snd (for_each fes (download_file E output_dir filter_word) n s) with
  | Ok n' =>
      n <= n'
      /\ Z.of_nat (List.length
                     (fs_files (fst (for_each fes
                                       (download_file E output_dir filter_word)
                                       n s))))
         = Z.of_nat (List.length (fs_files s)) + (n' - n)
  | Raise (RequestException _) => False
  | _ => True
  end.
Proof.
  induction fes as [|fe fes IH]; intros n s; cbn [for_each].
  - cbn. split; lia.
  - unfold bind.
    pose proof (download_file_count E output_dir filter_word fe n s) as H.
    destruct (download_file E output_dir filter_word fe n s)
      as [s1 [n1|[| |e]|]]; cbn [fst snd] in *; try exact I; try contradiction.
    specialize (IH n1 s1).
    destruct (for_each fes (download_file E output_dir filter_word) n1 s1)
      as [s2 [n2|[| |e]|]]; cbn [fst snd] in *; try exact I;
      try contradiction.
    split; lia.
Qed.

Lemma extract_body_count (E : Env) (url output_dir : str)
    (filter_word : option str) (s : state) :
  let r :=
    try_except_RequestException
      (log INFO (AccessingURL url) ;;
       response <- get E url ;;
       raise_for_status response ;;
       match find_all "fileName" (html_divs E (text response)) with
       | [] => log INFO (NoFilesFound url) ;; ret 0
       | _ :: _ =>
           for_each (find_all "fileName" (html_divs E (text response)))
             (download_file E output_dir filter_word) 0
       end)
      (fun e => log ERROR (ErrorAccessing url e) ;; ret 0) s in
  match snd r with
  | Ok n =>
      0 <= n
      /\ Z.of_nat (List.length (fs_files (fst r)))
         = Z.of_nat (List.length (fs_files s)) + n
  | _ => True
  end.
Proof.
  run_monad; try (split; [lia|cbn [List.length]; lia]).
  destruct (find_all "fileName" (html_divs E (text r))) as [|fe fes];
    run_monad; [split; lia|].
  match goal with
  | |- context [for_each ?l ?b 0 ?st] =>
      pose proof (for_each_count E output_dir filter_word l 0 st) as H;
      destruct (for_each l b 0 st) as [s2 [n2|[| |err]|]]
  end; run_monad; cbn [fst snd fs_files] in *; try exact I;
    try contradiction.
  split; lia.
Qed.

Lemma present_grows (p : str) (s s' : state) (ds : list str)
    (fs : list (str * str)) :
  fs_dirs s' = ds ++ fs_dirs s -> fs_files s' = fs ++ fs_files s ->
  present p s = true -> present p s' = true.
Proof.
  unfold present. intros -> ->. rewrite !existsb_app. intros H.
  apply orb_true_iff in H as [H|H]; rewrite H, ?orb_true_r; reflexivity.
Qed.

Lemma path_exists_present (p : str) (s : state) :
  path_exists p s = (s, Ok (present p s)).
Proof. reflexivity. Qed.

(** The effects of [extract_pdfs] in any environment. *)
Lemma extract_pdfs_effects (E : Env) (url output_dir : str)
    (filter_word : option str) (s s' : state) (o : outcome Z) :
  extract_pdfs E url output_dir filter_word s = (s', o) ->
  exists t,
    trace s' = trace s ++ t
    /\ Forall (extraction_event url output_dir) t
    /\ fs_files s' = List.rev (written t) ++ fs_files s
    /\ fs_dirs s' = makedirs_result E output_dir s ++ fs_dirs s
    /\ made t = (if present output_dir s then []
                 else if makedirs_ok E output_dir then [output_dir] else [])
    /\ page_starts t = []
    /\ (forall n, o = Ok n ->
          n = Z.of_nat (List.length (written t))
          /\ present output_dir s' = true)
    /\ (present output_dir s = false -> makedirs_ok E output_dir = false ->
        t = [] /\ o = Raise OSError).
Proof.
  unfold extract_pdfs. unfold bind at 1. rewrite path_exists_present.
  cbv beta iota zeta. unfold makedirs_result.
  destruct (present output_dir s) eqn:Hp; cbn [negb].
  - unfold bind at 1, ret at 1. cbv beta iota. intros Hrun.
    destruct (journal_extract_body E url output_dir filter_word s)
      as [t [Ht [Hq [Hf Hd]]]].
    pose proof (extract_body_count E url output_dir filter_word s) as Hc.
    cbv zeta in Hc. rewrite Hrun in Ht, Hf, Hd, Hc. cbn [fst snd] in *.
    destruct (download_events_made _ _ _ Hq) as [Hm Hs].
    rewrite Hm in Hd. cbn [List.rev app] in Hd.
    exists t. split; [exact Ht|].
    split; [eapply Forall_impl; [apply download_event_extraction|exact Hq]|].
    split; [exact Hf|]. split; [exact Hd|]. split; [exact Hm|].
    split; [exact Hs|]. split; [|discriminate].
    intros n ->. destruct Hc as [_ Hc]. split.
    + rewrite Hf, length_app, length_rev in Hc. lia.
    + apply (present_grows output_dir s s' [] (List.rev (written t)));
        assumption.
  - unfold bind at 1, makedirs.
    destruct (makedirs_ok E output_dir) eqn:Hmk.
    + cbv beta iota.
      set (s0 := mkState (output_dir :: List.rev (makedirs_missing output_dir s)
                            ++ fs_dirs s)
                   (fs_files s) (trace s ++ [Makedirs output_dir])).
      intros Hrun.
      destruct (journal_extract_body E url output_dir filter_word s0)
        as [t [Ht [Hq [Hf Hd]]]].
      pose proof (extract_body_count E url output_dir filter_word s0) as Hc.
      cbv zeta in Hc. rewrite Hrun in Ht, Hf, Hd, Hc. cbn [fst snd] in *.
      destruct (download_events_made _ _ _ Hq) as [Hm Hs].
      rewrite Hm in Hd. cbn [List.rev app] in Hd.
      assert (Hmade : made (Makedirs output_dir :: t) = [output_dir]).
      { unfold made. cbn [flat_map]. fold (made t). rewrite Hm. reflexivity. }
      assert (Hwr : written (Makedirs output_dir :: t) = written t)
        by reflexivity.
      exists (Makedirs output_dir :: t).
      split; [rewrite Ht; unfold s0; cbn [trace]; rewrite <- app_assoc;
              reflexivity|].
      split.
      { constructor; [reflexivity|].
        eapply Forall_impl; [apply download_event_extraction|exact Hq]. }
      split; [rewrite Hf, Hwr; reflexivity|].
      split; [rewrite Hd; reflexivity|].
      split; [exact Hmade|].
      split; [exact Hs|].
      split; [|discriminate].
      intros n ->. destruct Hc as [_ Hc]. split.
      * rewrite Hwr. rewrite Hf, length_app, length_rev in Hc.
        unfold s0 in Hc. cbn [fs_files] in Hc. lia.
      * unfold present. rewrite Hd. unfold s0. cbn [fs_dirs existsb].
        rewrite str_eqb_refl. reflexivity.
    + intros [= <- <-]. exists []. cbn [trace fs_files fs_dirs].
      rewrite app_nil_r.
      split; [reflexivity|]. split; [constructor|].
      split; [reflexivity|]. split; [reflexivity|]. split; [reflexivity|].
      split; [reflexivity|]. split; [discriminate|]. split; reflexivity.
Qed.

(** ** What the address decrement does *)

Lemma decrement_cases (E : Env) (url : str) (p : ParseResult) :
  urlparse E url = Ok p ->
  (decrement_logs E url, next_address E url)
  = match item_status_of (query p) with
    | ItemAbsent => ([Log ERROR (NoItemParameter url)], Ok None)
    | ItemNotInteger _ => ([Log ERROR (ErrorParsingItem url)], Ok None)
    | ItemInteger n =>
        ([], Ok (if n <=? 1 then None
                 else Some (urlunparse
                              (set_query p
                                 (urlencode
                                    (dict_set "item" [py_str (n - 1)]
                                       (parse_qs (query p))))))))
    end.
Proof.
  intros Hp. unfold decrement_logs, next_address, decrement_item_in_url.
  rewrite Hp. pose proof (item_status_dict (query p)) as Hs.
  destruct (dict_get "item" (parse_qs (query p))) as [values|].
  - destruct Hs as [-> _]. unfold try_except_ValueError.
    destruct (py_int (hd [] values)) as [n|]; [|reflexivity].
    destruct (n <=? 1); reflexivity.
  - rewrite Hs. reflexivity.
Qed.

Lemma decrement_rejected (E : Env) (url : str) (e : exn) :
  urlparse E url = Raise e ->
  decrement_logs E url = [] /\ next_address E url = Raise e.
Proof.
  intros Hp. unfold decrement_logs, next_address, decrement_item_in_url.
  rewrite Hp. split; reflexivity.
Qed.

Lemma decrement_logs_cases (E : Env) (url : str) :
  decrement_logs E url = []
  \/ decrement_logs E url = [Log ERROR (ErrorParsingItem url)]
  \/ decrement_logs E url = [Log ERROR (NoItemParameter url)].
Proof.
  destruct (urlparse E url) as [p|e|] eqn:Hp.
  - pose proof (decrement_cases E url p Hp) as H.
    destruct (item_status_of (query p)); injection H as -> _; auto.
  - left. apply (decrement_rejected E url e Hp).
  - exfalso. exact (urlparse_not_cut E url Hp).
Qed.

(** ** The effects of a whole run, in any environment *)

Lemma effects_refl (output_dir : str) (delay : Z) (s : state) :
  effects output_dir delay s s [].
Proof.
  unfold effects. rewrite app_nil_r. repeat split; [constructor|].
  exists []. reflexivity.
Qed.

Lemma effects_trans (output_dir : str) (delay : Z) (s s1 s2 : state)
    (t1 t2 : list event) :
  effects output_dir delay s s1 t1 -> effects output_dir delay s1 s2 t2 ->
  effects output_dir delay s s2 (t1 ++ t2).
Proof.
  intros [H1 [Q1 [F1 [d1 D1]]]] [H2 [Q2 [F2 [d2 D2]]]].
  split; [rewrite H2, H1, <- app_assoc; reflexivity|].
  split; [apply Forall_app; split; assumption|].
  split.
  - rewrite F2, F1, written_app, rev_app_distr, <- app_assoc. reflexivity.
  - exists (d2 ++ d1). rewrite D2, D1, <- app_assoc. reflexivity.
Qed.

Lemma effects_log (output_dir : str) (delay : Z) (s : state)
    (logs : list event) :
  Forall (fun e => exists lv m, e = Log lv m) logs ->
  effects output_dir delay s
    (mkState (fs_dirs s) (fs_files s) (trace s ++ logs)) logs
  /\ written logs = [] /\ made logs = []
  /\ List.length (page_starts logs)
     = List.length (filter is_page_start logs).
Proof.
  intros H.
  assert (Hw : written logs = [] /\ made logs = []
               /\ Forall (run_event output_dir delay) logs).
  { induction H as [|e l [lv [m ->]] _ [IH1 [IH2 IH3]]].
    - repeat split. constructor.
    - unfold written, made in *. cbn [flat_map]. rewrite IH1, IH2.
      repeat split. constructor; [exact I|exact IH3]. }
  destruct Hw as [Hw [Hm Hq]]. unfold effects. cbn [trace fs_files fs_dirs].
  rewrite Hw. repeat split; [exact Hq|exists []; reflexivity|exact Hm].
Qed.

Lemma extraction_event_run (url output_dir : str) (delay : Z) (e : event) :
  extraction_event url output_dir e -> run_event output_dir delay e.
Proof. destruct e; cbn; auto. contradiction. Qed.

Lemma decrement_logs_are_logs (E : Env) (url : str) :
  Forall (fun e => exists lv m, e = Log lv m) (decrement_logs E url)
  /\ page_starts (decrement_logs E url) = [].
Proof.
  destruct (decrement_logs_cases E url) as [-> | [-> | ->]];
    (split; [repeat constructor; eauto|reflexivity]).
Qed.

Lemma while_loop_effects (E : Env) (output_dir : str) (max_pages : option Z)
    (delay : Z) (filter_word : option str) :
  forall (fuel : nat) (v : loop_vars) (s s' : state) (o : outcome loop_vars),
  while_loop fuel E output_dir max_pages delay filter_word v s = (s', o) ->
  exists t,
    effects output_dir delay s s' t
    /\ (made t = [] \/ (present output_dir s = false /\ made t = [output_dir]))
    /\ (fs_dirs s' = fs_dirs s
        \/ fs_dirs s' = makedirs_result E output_dir s ++ fs_dirs s)
    /\ (forall v', o = Ok v' ->
          page_count v' = page_count v + Z.of_nat (List.length (page_starts t))
          /\ total_downloads v'
             = total_downloads v + Z.of_nat (List.length (written t))).
Proof.
  assert (Hstop : forall (v : loop_vars) (s s' : state) o,
            ret v s = (s', o) ->
            exists t,
              effects output_dir delay s s' t
              /\ (made t = []
                  \/ (present output_dir s = false /\ made t = [output_dir]))
              /\ (fs_dirs s' = fs_dirs s
                  \/ fs_dirs s' = makedirs_result E output_dir s ++ fs_dirs s)
              /\ (forall v', o = Ok v' ->
                    page_count v'
                    = page_count v + Z.of_nat (List.length (page_starts t))
                    /\ total_downloads v'
                       = total_downloads v
                         + Z.of_nat (List.length (written t)))).
  { intros v s s' o H. unfold ret in H. injection H as <- <-.
    exists []. split; [apply effects_refl|]. split; [left; reflexivity|].
    split; [left; reflexivity|].
    intros v' [= <-]. cbn. lia. }
  induction fuel as [|fuel IH]; intros [cur pc tot] s s' o Hrun.
  - cbn [while_loop current_url page_count] in Hrun.
    destruct cur as [u|]; [|exact (Hstop _ _ _ _ Hrun)].
    destruct (nonempty u && _); [|exact (Hstop _ _ _ _ Hrun)].
    injection Hrun as <- <-. exists [].
    split; [apply effects_refl|]. split; [left; reflexivity|].
    split; [left; reflexivity|]. discriminate.
  - cbn [while_loop current_url page_count total_downloads] in Hrun.
    destruct cur as [u|]; [|exact (Hstop _ _ _ _ Hrun)].
    destruct (nonempty u && _); [|exact (Hstop _ _ _ _ Hrun)].
    unfold bind at 1 in Hrun. unfold log, emit in Hrun. cbv beta iota in Hrun.
    set (start := Log INFO (ProcessingPage (pc + 1) max_pages)) in *.
    set (s0 := mkState (fs_dirs s) (fs_files s) (trace s ++ [start])) in *.
    assert (E0 : effects output_dir delay s s0 [start]).
    { apply (effects_log output_dir delay s [start]).
      repeat constructor. unfold start. eauto. }
    assert (P0 : present output_dir s0 = present output_dir s) by reflexivity.
    unfold bind at 1 in Hrun.
    destruct (extract_pdfs E u output_dir filter_word s0) as [s1 o1] eqn:Hex.
    destruct (extract_pdfs_effects E u output_dir filter_word s0 s1 o1 Hex)
      as [t1 [T1 [Q1 [F1 [D1 [M1 [S1 [C1 _]]]]]]]].
    change (makedirs_result E output_dir s0)
      with (makedirs_result E output_dir s) in D1.
    change (fs_dirs s0) with (fs_dirs s) in D1.
    assert (E1 : effects output_dir delay s0 s1 t1).
    { split; [exact T1|]. split; [|split; [exact F1|eexists; exact D1]].
      eapply Forall_impl; [apply extraction_event_run|exact Q1]. }
    assert (M1' : made t1 = []
                  \/ (present output_dir s = false /\ made t1 = [output_dir])).
    { rewrite M1, P0. destruct (present output_dir s); [left; reflexivity|].
      destruct (makedirs_ok E output_dir); [right|left]; auto. }
    pose proof (effects_trans _ _ _ _ _ _ _ E0 E1) as E01.
    destruct o1 as [n|e|];
      [|injection Hrun as <- <-; exists ([start] ++ t1);
        split; [exact E01|]; split; [exact M1'|];
        split; [right; exact D1|]; discriminate ..].
    destruct (C1 n eq_refl) as [Cn P1].
    unfold bind at 1 in Hrun. rewrite decrement_run in Hrun.
    destruct (decrement_logs_are_logs E u) as [L2 S2].
    destruct (effects_log output_dir delay s1 _ L2) as [E2 [W2 [M2 _]]].
    set (s2 := mkState (fs_dirs s1) (fs_files s1)
                 (trace s1 ++ decrement_logs E u)) in *.
    pose proof (effects_trans _ _ _ _ _ _ _ E01 E2) as E02.
    assert (P2 : present output_dir s2 = true) by exact P1.
    assert (M02 : made (([start] ++ t1) ++ decrement_logs E u) = made t1).
    { rewrite !made_app, M2, app_nil_r. reflexivity. }
    assert (W02 : written (([start] ++ t1) ++ decrement_logs E u)
                  = written t1).
    { rewrite !written_app, W2, app_nil_r. reflexivity. }
    assert (S02 : page_starts (([start] ++ t1) ++ decrement_logs E u)
                  = [start]).
    { unfold page_starts in *. rewrite !filter_app, S1, S2. reflexivity. }
    destruct (next_address E u) as [next|e|];
      [|injection Hrun as <- <-; eexists;
        split; [exact E02|]; split; [rewrite M02; exact M1'|];
        split; [right; exact D1|]; discriminate ..].
    unfold bind at 1 in Hrun.
    assert (Hsl : exists t3,
              effects output_dir delay s2
                (fst ((if truthy_url next then sleep delay else ret tt) s2)) t3
              /\ made t3 = [] /\ written t3 = [] /\ page_starts t3 = []
              /\ fs_dirs (fst ((if truthy_url next then sleep delay
                                else ret tt) s2)) = fs_dirs s2).
    { destruct (truthy_url next); [|exists []; split;
                                    [apply effects_refl|repeat split]].
      unfold sleep. destruct (delay <? 0) eqn:Hd.
      - exists []. split; [apply effects_refl|repeat split].
      - exists [Sleep delay]. split; [|repeat split].
        unfold effects, emit. cbn [fst trace fs_files fs_dirs].
        repeat split; [|exists []; reflexivity].
        repeat constructor. apply Z.ltb_ge. exact Hd. }
    destruct Hsl as [t3 [E3 [M3 [W3 [S3 D3]]]]].
    destruct ((if truthy_url next then sleep delay else ret tt) s2)
      as [s3 o3]; cbn [fst] in E3, D3.
    pose proof (effects_trans _ _ _ _ _ _ _ E02 E3) as E03.
    assert (M03 : made ((([start] ++ t1) ++ decrement_logs E u) ++ t3)
                  = made t1).
    { rewrite made_app, M02, M3, app_nil_r. reflexivity. }
    assert (D03 : fs_dirs s3 = makedirs_result E output_dir s ++ fs_dirs s).
    { rewrite D3. exact D1. }
    destruct o3 as [[]|e|];
      [|injection Hrun as <- <-; eexists;
        split; [exact E03|]; split; [rewrite M03; exact M1'|];
        split; [right; exact D03|]; discriminate ..].
    destruct (IH _ _ _ _ Hrun) as [t4 [E4 [M4 [D4 C4]]]].
    assert (P3 : present output_dir s3 = true).
    { destruct E3 as [_ [_ [F3 [d3 Hd3]]]].
      exact (present_grows _ _ _ _ _ Hd3 F3 P2). }
    destruct M4 as [M4|[M4 _]]; [|rewrite P3 in M4; discriminate].
    assert (D4' : fs_dirs s' = fs_dirs s3).
    { destruct D4 as [D4|D4]; [exact D4|]. unfold makedirs_result in D4.
      rewrite P3 in D4. exact D4. }
    eexists. split; [exact (effects_trans _ _ _ _ _ _ _ E03 E4)|].
    split; [rewrite made_app, M03, M4, app_nil_r; exact M1'|].
    split; [right; rewrite D4'; exact D03|].
    intros v' Hv. destruct (C4 v' Hv) as [C5 C6].
    cbn [page_count total_downloads] in *.
    unfold page_starts in *. rewrite filter_app, length_app.
    rewrite filter_app, S3, app_nil_r. fold (page_starts t4).
    rewrite (written_app _ t4), written_app, W02, W3, app_nil_r, length_app.
    split; [|lia].
    rewrite C5. unfold page_starts in S02. rewrite S02. cbn [List.length].
    unfold page_starts. lia.
Qed.

Lemma report_view_logs (max_pages : option Z) (v : loop_vars) :
  Forall (fun e => exists lv m, e = Log lv m) (report_view max_pages v)
  /\ page_starts (report_view max_pages v) = [].
Proof.
  unfold report_view.
  destruct (truthy_int max_pages && _);
    [|destruct (negb (truthy_url (current_url v)))];
    (split; [repeat constructor; eauto|reflexivity]).
Qed.

Lemma download_documents_effects (E : Env) (start_url output_dir : str)
    (max_pages : option Z) (delay : Z) (filter_word : option str)
    (s s' : state) (o : outcome pyval) :
  download_documents E start_url output_dir max_pages delay filter_word s
  = (s', o) ->
  exists t,
    effects output_dir delay s s' t
    /\ (made t = [] \/ (present output_dir s = false /\ made t = [output_dir]))
    /\ (fs_dirs s' = fs_dirs s
        \/ fs_dirs s' = makedirs_result E output_dir s ++ fs_dirs s)
    /\ (forall v, o = Ok v ->
          v = PyNone
          /\ last_event t
             = Some (Log INFO
                       (DownloadComplete
                          (Z.of_nat (List.length (page_starts t)))
                          (Z.of_nat (List.length (written t)))))).
Proof.
  unfold download_documents, bind. intros Hrun.
  destruct (while_loop _ E output_dir max_pages delay filter_word _ s)
    as [s1 o1] eqn:Hloop.
  destruct (while_loop_effects _ _ _ _ _ _ _ _ _ _ Hloop)
    as [t [Et [Mt [Dt Ct]]]].
  destruct o1 as [v|e|];
    [|injection Hrun as <- <-; exists t; split; [exact Et|];
      split; [exact Mt|]; split; [exact Dt|]; discriminate ..].
  rewrite report_run in Hrun. injection Hrun as <- <-.
  destruct (report_view_logs max_pages v) as [Lr Sr].
  destruct (effects_log output_dir delay s1 _ Lr) as [Er [Wr [Mr _]]].
  exists (t ++ report_view max_pages v).
  split; [exact (effects_trans _ _ _ _ _ _ _ Et Er)|].
  split; [rewrite made_app, Mr, app_nil_r; exact Mt|].
  split; [exact Dt|].
  intros v0 [= <-]. split; [reflexivity|].
  rewrite report_view_last. destruct (Ct v eq_refl) as [C1 C2].
  cbn [page_count total_downloads] in *.
  unfold page_starts in *. rewrite filter_app, Sr, app_nil_r.
  rewrite written_app, Wr, app_nil_r. rewrite C1, C2. reflexivity.
Qed.

Lemma while_loop_first (E : Env) (output_dir : str) (max_pages : option Z)
    (delay : Z) (filter_word : option str) (fuel : nat) (url : str)
    (pc tot : Z) (s : state) :
  nonempty url = true -> within_budget max_pages pc = true ->
  while_loop (S fuel) E output_dir max_pages delay filter_word
    (mkLoopVars (Some url) pc tot) s
  = (log INFO (ProcessingPage (pc + 1) max_pages) ;;
     download_count <- extract_pdfs E url output_dir filter_word ;;
     next_url <- decrement_item_in_url E url ;;
     (if truthy_url next_url then sleep delay else ret tt) ;;
     while_loop fuel E output_dir max_pages delay filter_word
       (mkLoopVars next_url (pc + 1) (tot + download_count))) s.
Proof.
  intros Hne Hb. cbn [while_loop current_url page_count total_downloads].
  fold (within_budget max_pages pc). rewrite Hne, Hb. reflexivity.
Qed.

(** ** Properties of the address decrement *)

(** X1. For an address that [urlparse] accepts, [decrement_item_in_url]
    touches neither the file system nor the network: it leaves the state
    as it is but for at most one error record, which says that the item
    parameter is missing when it is, that it cannot be parsed when its
    value is not an integer for [int], and nothing when it is an
    integer, also one that cannot be decremented. *)
Theorem decrement_diagnostics (E : Env) (url : str) (p : ParseResult)
    (s : state) :
  urlparse E url = Ok p ->
  fst (decrement_item_in_url E url s)
  = mkState (fs_dirs s) (fs_files s)
      (trace s ++ match item_status_of (query p) with
                  | ItemAbsent => [Log ERROR (NoItemParameter url)]
                  | ItemNotInteger _ => [Log ERROR (ErrorParsingItem url)]
                  | ItemInteger _ => []
                  end).
Proof.
  intros Hp. rewrite decrement_run. cbn [fst snd].
  pose proof (decrement_cases E url p Hp) as H.
  destruct (item_status_of (query p)); injection H as -> _; reflexivity.
Qed.

Lemma decrement_diagnostics_witness :
  let url := lit "http://example.org/docs?page=2&item=" in
  let p := mkParseResult (lit "http") (lit "example.org") (lit "/docs") []
             (lit "page=2&item=") [] in
  let long := lit "http://example.org/docs?item=1" ++ repeat "0"%char 4300 in
  urlparse plain_env url = Ok p
  /\ fst (decrement_item_in_url plain_env url (initial_state [] []))
     = mkState [] [] [Log ERROR (NoItemParameter url)]
  /\ urlparse plain_env long
     = Ok (mkParseResult (lit "http") (lit "example.org") (lit "/docs") []
             (lit "item=1" ++ repeat "0"%char 4300) [])
  /\ fst (decrement_item_in_url plain_env long (initial_state [] []))
     = mkState [] [] [Log ERROR (ErrorParsingItem long)].
Proof.
  intros url p long.
  assert (H : urlparse plain_env url = Ok p) by (vm_compute; reflexivity).
  assert (H' : urlparse plain_env long
               = Ok (mkParseResult (lit "http") (lit "example.org")
                       (lit "/docs") []
                       (lit "item=1" ++ repeat "0"%char 4300) []))
    by (vm_compute; reflexivity).
  split; [exact H|]. split.
  - exact (decrement_diagnostics plain_env url p (initial_state [] []) H).
  - split; [exact H'|].
    rewrite (decrement_diagnostics plain_env long _ (initial_state [] [])
               H').
    assert (Hs : item_status_of (lit "item=1" ++ repeat "0"%char 4300)
                 = ItemNotInteger (lit "1" ++ repeat "0"%char 4300))
      by (vm_compute; reflexivity).
    cbn [query]. rewrite Hs. reflexivity.
Defined.

(** ** Properties of the extraction of a page *)

(** X2. In every environment, when [extract_pdfs] returns, the number it
    returns is the number of files it wrote during the call; every file
    it wrote lies directly inside the output directory under a name
    without any of the characters that the sanitization replaces; its
    requests went to the page address or to the retrieval address of a
    document; it did not pause; and the output directory exists
    afterwards. *)
Theorem extract_pdfs_counts_writes (E : Env) (url output_dir : str)
    (filter_word : option str) (s s' : state) (n : Z) :
  extract_pdfs E url output_dir filter_word s = (s', Ok n) ->
  exists t,
    trace s' = trace s ++ t
    /\ Forall (extraction_event url output_dir) t
    /\ fs_files s' = List.rev (written t) ++ fs_files s
    /\ n = Z.of_nat (List.length (written t))
    /\ present output_dir s' = true.
Proof.
  intros Hrun.
  destruct (extract_pdfs_effects E url output_dir filter_word s s' (Ok n) Hrun)
    as [t [Ht [Hq [Hf [_ [_ [_ [Hc _]]]]]]]].
  destruct (Hc n eq_refl) as [Hn Hp].
  exists t. split; [exact Ht|]. split; [exact Hq|]. split; [exact Hf|].
  split; [exact Hn|exact Hp].
Qed.

Lemma extract_pdfs_counts_writes_witness :
  let s := initial_state [] [] in
  let s' := fst (extract_pdfs sample_env (listing "7") "out"
                   (Some (lit "Minutes")) s) in
  extract_pdfs sample_env (listing "7") "out" (Some (lit "Minutes")) s
  = (s', Ok 1)
  /\ exists t,
       trace s' = trace s ++ t
       /\ Forall (extraction_event (listing "7") "out") t
       /\ fs_files s' = List.rev (written t) ++ fs_files s
       /\ 1 = Z.of_nat (List.length (written t))
       /\ present "out" s' = true.
Proof.
  intros s s'.
  assert (H : extract_pdfs sample_env (listing "7") "out"
                (Some (lit "Minutes")) s = (s', Ok 1))
    by (vm_compute; reflexivity).
  split; [exact H|].
  exact (extract_pdfs_counts_writes sample_env (listing "7") "out"
           (Some (lit "Minutes")) s s' 1 H).
Defined.

(** ** Properties of a whole run *)

(** X3. In every environment and from every state, a run of
    [download_documents] reaches the file system in the output directory
    and above it only.  It calls [os.makedirs] at most once, for the
    output directory, and only when that directory did not exist at the
    start; every directory that exists after the run and did not before
    is the output directory or lies above it: it is a proper initial
    part of its path, cut at a slash.  Every file it writes, a new one
    or one that it replaces, lies directly inside the output directory
    under a sanitized name.  Every pause it makes has the length
    [delay], which is then not negative. *)
Theorem run_is_confined (E : Env) (start_url output_dir : str)
    (max_pages : option Z) (delay : Z) (filter_word : option str)
    (s : state) :
  let s' := fst (download_documents E start_url output_dir max_pages delay
                   filter_word s) in
  exists t ds,
    trace s' = trace s ++ t
    /\ Forall (run_event output_dir delay) t
    /\ fs_files s' = List.rev (written t) ++ fs_files s
    /\ (made t = []
        \/ (present output_dir s = false /\ made t = [output_dir]))
    /\ fs_dirs s' = ds ++ fs_dirs s
    /\ (present output_dir s = true -> ds = [])
    /\ (forall d, In d ds ->
          present d s = false
          /\ (d = output_dir \/ ancestor_of d output_dir)).
Proof.
  intros s'.
  destruct (download_documents E start_url output_dir max_pages delay
              filter_word s) as [s1 o] eqn:Hrun.
  destruct (download_documents_effects _ _ _ _ _ _ _ _ _ Hrun)
    as [t [[Ht [Hq [Hf _]]] [Hm [Hd _]]]].
  subst s'. cbn [fst].
  assert (Hds : exists ds,
            fs_dirs s1 = ds ++ fs_dirs s
            /\ (ds = [] \/ ds = makedirs_result E output_dir s)).
  { destruct Hd as [Hd|Hd]; [exists []|eexists]; split; eauto. }
  destruct Hds as [ds [Hd1 Hd2]]. exists t, ds.
  split; [exact Ht|]. split; [exact Hq|]. split; [exact Hf|].
  split; [exact Hm|]. split; [exact Hd1|]. split.
  - intros Hp. destruct Hd2 as [->| ->]; [reflexivity|].
    unfold makedirs_result. rewrite Hp. reflexivity.
  - intros d Hin. destruct Hd2 as [->| ->]; [destruct Hin|].
    destruct (makedirs_result_spec E output_dir s d Hin)
      as [_ [Hp [[-> _]|Hr]]]; auto.
Qed.

Lemma run_is_confined_witness :
  let s := initial_state [lit "data"] [] in
  let s' := fst (download_documents sample_env (listing "3")
                   "data/council/2024" None 1 (Some (lit "Minutes")) s) in
  fs_dirs s' = [lit "data/council/2024"; lit "data/council"; lit "data"]
  /\ present "data/council" s = false
  /\ ancestor_of "data/council" "data/council/2024".
Proof.
  intros s s'.
  destruct (run_is_confined sample_env (listing "3") "data/council/2024"
              None 1 (Some (lit "Minutes")) s)
    as [t [ds [_ [_ [_ [_ [Hd [_ Hin]]]]]]]].
  fold s' in Hd.
  assert (Hc : fs_dirs s'
               = [lit "data/council/2024"; lit "data/council"; lit "data"])
    by (vm_compute; reflexivity).
  split; [exact Hc|].
  assert (Hds : ds = [lit "data/council/2024"; lit "data/council"]).
  { rewrite Hc in Hd. cbn [fs_dirs initial_state s] in Hd.
    change [lit "data/council/2024"; lit "data/council"; lit "data"]
      with ([lit "data/council/2024"; lit "data/council"] ++ [lit "data"])
      in Hd.
    apply app_inv_tail in Hd. symmetry. exact Hd. }
  destruct (Hin (lit "data/council")) as [Hp [Heq|Hr]].
  - rewrite Hds. right. left. reflexivity.
  - split; [exact Hp|]. discriminate Heq.
  - split; [exact Hp|exact Hr].
Defined.

(** X4. In every environment, when a run of [download_documents] ends
    without an exception it returns [None], and the last record it logs
    is the summary, whose two numbers are the number of pages that the
    run started and the number of files that it wrote. *)
Theorem summary_counts_the_run (E : Env) (start_url output_dir : str)
    (max_pages : option Z) (delay : Z) (filter_word : option str)
    (s s' : state) (v : pyval) :
  download_documents E start_url output_dir max_pages delay filter_word s
  = (s', Ok v) ->
  v = PyNone
  /\ exists t,
       trace s' = trace s ++ t
       /\ fs_files s' = List.rev (written t) ++ fs_files s
       /\ last_event t
          = Some (Log INFO
                    (DownloadComplete
                       (Z.of_nat (List.length (page_starts t)))
                       (Z.of_nat (List.length (written t))))).
Proof.
  intros Hrun.
  destruct (download_documents_effects _ _ _ _ _ _ _ _ _ Hrun)
    as [t [[Ht [_ [Hf _]]] [_ [_ Hv]]]].
  destruct (Hv v eq_refl) as [-> Hl]. split; [reflexivity|].
  exists t. split; [exact Ht|]. split; [exact Hf|exact Hl].
Qed.

Lemma summary_counts_the_run_witness :
  let s := initial_state [] [] in
  let s' := fst (download_documents sample_env (listing "7") "out" None 1
                   (Some (lit "Minutes")) s) in
  download_documents sample_env (listing "7") "out" None 1
    (Some (lit "Minutes")) s = (s', Ok PyNone)
  /\ last_event (trace s') = Some (Log INFO (DownloadComplete 7 2))
  /\ exists t,
       trace s' = trace s ++ t
       /\ fs_files s' = List.rev (written t) ++ fs_files s
       /\ last_event t
          = Some (Log INFO
                    (DownloadComplete
                       (Z.of_nat (List.length (page_starts t)))
                       (Z.of_nat (List.length (written t))))).
Proof.
  intros s s'.
  assert (H : download_documents sample_env (listing "7") "out" None 1
                (Some (lit "Minutes")) s = (s', Ok PyNone))
    by (vm_compute; reflexivity).
  split; [exact H|]. split; [vm_compute; reflexivity|].
  exact (proj2 (summary_counts_the_run sample_env (listing "7") "out" None 1
                  (Some (lit "Minutes")) s s' PyNone H)).
Defined.

(** X5. With a page ceiling that is zero or negative, in every
    environment, [download_documents] processes no page and makes no
    request; it returns [None] after the summary with zero pages and
    zero files.  With a negative ceiling it first reports that the
    maximum number of pages was reached; with a ceiling of zero it
    reports no reason for stopping unless the start address is empty. *)
Theorem ceiling_not_positive (E : Env) (start_url output_dir : str)
    (m delay : Z) (filter_word : option str) (s : state) :
  m <= 0 ->
  download_documents E start_url output_dir (Some m) delay filter_word s
  = (mkState (fs_dirs s) (fs_files s)
       (trace s
        ++ (if m =? 0
            then if nonempty start_url then [] else [Log INFO NoMorePages]
            else [Log INFO (ReachedMaximum m)])
        ++ [Log INFO (DownloadComplete 0 0)]),
     Ok PyNone).
Proof.
  intros Hm. unfold download_documents, bind.
  cbn [while_loop current_url page_count].
  assert (H0 : (0 <? m) = false) by (apply Z.ltb_ge; exact Hm).
  rewrite H0, andb_false_r. unfold ret at 1. rewrite report_run.
  unfold report_view. cbn [truthy_int page_count total_downloads current_url
                           truthy_url].
  destruct (m =? 0) eqn:H1; cbn [negb andb].
  - destruct (nonempty start_url); reflexivity.
  - assert (H2 : (m <=? 0) = true) by (apply Z.leb_le; exact Hm).
    rewrite H2. reflexivity.
Qed.

Lemma ceiling_not_positive_witness :
  0 <= 0
  /\ download_documents sample_env (listing "3") "out" (Some 0) 1
       (Some (lit "Minutes")) (initial_state [] [])
     = (mkState [] [] [Log INFO (DownloadComplete 0 0)], Ok PyNone).
Proof.
  assert (H : 0 <= 0) by lia. split; [exact H|].
  exact (ceiling_not_positive sample_env (listing "3") "out" 0 1
           (Some (lit "Minutes")) (initial_state [] []) H).
Defined.

(** X6. With an empty start address, in every environment,
    [download_documents] processes no page and makes no request: it
    reports that no more pages are to be processed (that the maximum was
    reached, when the ceiling is negative), logs the summary with zero
    pages and zero files, and returns [None]. *)
Theorem empty_start_address (E : Env) (output_dir : str)
    (max_pages : option Z) (delay : Z) (filter_word : option str)
    (s : state) :
  download_documents E [] output_dir max_pages delay filter_word s
  = (mkState (fs_dirs s) (fs_files s)
       (trace s
        ++ [Log INFO (match max_pages with
                      | Some m => if m <? 0 then ReachedMaximum m
                                  else NoMorePages
                      | None => NoMorePages
                      end);
            Log INFO (DownloadComplete 0 0)]),
     Ok PyNone).
Proof.
  unfold download_documents, bind.
  cbn [while_loop current_url page_count nonempty andb].
  unfold ret at 1. rewrite report_run.
  unfold report_view, truthy_int, truthy_url.
  cbn [page_count total_downloads current_url nonempty negb].
  destruct max_pages as [m|]; [|reflexivity].
  destruct (m =? 0) eqn:H0; destruct (m <=? 0) eqn:H1;
    destruct (m <? 0) eqn:H2; cbn [negb andb app]; try reflexivity;
    exfalso;
    repeat match goal with
           | H : (_ =? _) = true |- _ => apply Z.eqb_eq in H
           | H : (_ =? _) = false |- _ => apply Z.eqb_neq in H
           | H : (_ <=? _) = true |- _ => apply Z.leb_le in H
           | H : (_ <=? _) = false |- _ => apply Z.leb_gt in H
           | H : (_ <? _) = true |- _ => apply Z.ltb_lt in H
           | H : (_ <? _) = false |- _ => apply Z.ltb_ge in H
           end; lia.
Qed.



(** ** Runs that stop on an exception *)




(** X9. The [try] statement of [decrement_item_in_url] does not cover
    the call of [urlparse]: when [urlparse] rejects the address, the
    decrement raises the exception instead of returning [None], and a
    run on a reliable file system that starts at such an address stops
    with that exception after it has processed the page at that
    address, without a summary. *)
Theorem rejected_address_aborts (E : Env) (start_url output_dir : str)
    (max_pages : option Z) (delay : Z) (filter_word : option str)
    (e : exn) (s : state) :
  urlparse E start_url = Raise e ->
  fs_reliable E output_dir ->
  start_url <> [] -> within_budget max_pages 0 = true ->
  decrement_item_in_url E start_url s = (s, Raise e)
  /\ exists s',
       download_documents E start_url output_dir max_pages delay
         filter_word s = (s', Raise e)
       /\ accessed (trace s') = accessed (trace s) ++ [start_url]
       /\ driver_view (trace s')
          = driver_view (trace s)
            ++ [Log INFO (ProcessingPage 1 max_pages);
                Log INFO (AccessingURL start_url)].
Proof.
  intros Hp Hfs Hne Hb.
  destruct (decrement_rejected E start_url e Hp) as [Hl Hn]. split.
  { rewrite decrement_run, Hl, Hn, app_nil_r. destruct s; reflexivity. }
  unfold download_documents. unfold bind at 1.
  rewrite while_loop_first by (auto using nonempty_true).
  unfold bind at 1, log, emit. cbv beta iota. unfold bind at 1.
  match goal with
  | |- context [extract_pdfs E start_url output_dir filter_word ?st] =>
      destruct (extract_pdfs_run E start_url output_dir filter_word st Hfs)
        as [s1 [Hrun [_ [_ Hv]]]]
  end.
  rewrite Hrun. unfold bind at 1. rewrite decrement_run, Hl, Hn, app_nil_r.
  eexists. split; [reflexivity|]. cbn [trace] in *.
  assert (Hview : driver_view (trace s1)
                  = driver_view (trace s)
                    ++ [Log INFO (ProcessingPage 1 max_pages);
                        Log INFO (AccessingURL start_url)]).
  { rewrite Hv, driver_view_app, <- app_assoc. reflexivity. }
  split; [|exact Hview].
  rewrite <- (accessed_driver_view (trace s1)), Hview, accessed_app.
  rewrite accessed_driver_view. reflexivity.
Qed.

Lemma rejected_address_aborts_witness :
  let url := lit "http://[x/docs?item=3" in
  let run := download_documents sample_env url "out" None 1
               (Some (lit "Minutes")) (initial_state [] []) in
  urlparse sample_env url = Raise ValueError
  /\ fs_reliable sample_env "out" /\ url <> []
  /\ within_budget None 0 = true
  /\ snd run = Raise ValueError
  /\ accessed (trace (fst run)) = [url].
Proof.
  intros url run.
  assert (H1 : urlparse sample_env url = Raise ValueError)
    by (vm_compute; reflexivity).
  assert (H3 : url <> []) by discriminate.
  assert (H4 : within_budget None 0 = true) by reflexivity.
  split; [exact H1|]. split; [apply sample_env_reliable|].
  split; [exact H3|]. split; [exact H4|].
  destruct (rejected_address_aborts sample_env url "out" None 1
              (Some (lit "Minutes")) ValueError (initial_state [] [])
              H1 (sample_env_reliable "out") H3 H4)
    as [_ [s' [Hrun [Ha _]]]].
  unfold run. rewrite Hrun. cbn [fst snd]. split; [reflexivity|exact Ha].
Defined.

Lemma download_file_unwritable (E : Env) (output_dir : str)
    (filter_word : option str) (fe : Div * list Div) (n : Z) (s : state) :
  (forall p, open_wb_ok E p = false) ->
  exists s',
    download_file E output_dir filter_word fe n s
      = (s', match fetched E (wanted filter_word (ref_of_element fe)) with
             | [] => Ok n
             | _ :: _ => Raise OSError
             end)
    /\ fs_dirs s' = fs_dirs s
    /\ fs_files s' = fs_files s
    /\ driver_view (trace s') = driver_view (trace s).
Proof.
  intros Hfs. unfold download_file, ref_of_element, wanted, fetched.
  destruct (find_next "pdfString" (snd fe)) as [e|]; simpl;
    destruct (should_download filter_word (strip (div_text (fst fe))));
    simpl.
  - unfold fetch, try_except_RequestException, bind, get, log, emit,
      raise_for_status, write_file, raise, ret; simpl.
    destruct (requests_get E (pdf_url_of (strip (div_text e)))) as [err|r];
      simpl.
    + eexists; split; [reflexivity|]. simpl.
      repeat split; auto; trace_simpl; reflexivity.
    + destruct (http_error r) as [err|]; simpl.
      * eexists; split; [reflexivity|]. simpl.
        repeat split; auto; trace_simpl; reflexivity.
      * rewrite Hfs. simpl.
        eexists; split; [reflexivity|]. simpl.
        repeat split; auto; trace_simpl; reflexivity.
  - unfold bind, log, emit, ret; simpl.
    eexists; split; [reflexivity|]. simpl.
    repeat split; auto; trace_simpl; reflexivity.
  - unfold ret. eexists; split; [reflexivity|]. auto.
  - unfold bind, log, emit, ret; simpl.
    eexists; split; [reflexivity|]. simpl.
    repeat split; auto; trace_simpl; reflexivity.
Qed.

Lemma for_each_unwritable (E : Env) (output_dir : str)
    (filter_word : option str) (fes : list (Div * list Div)) :
  (forall p, open_wb_ok E p = false) ->
  forall (n : Z) (s : state),
  exists s',
    for_each fes (download_file E output_dir filter_word) n s
      = (s', match fetched E (wanted filter_word
                                (flat_map ref_of_element fes)) with
             | [] => Ok n
             | _ :: _ => Raise OSError
             end)
    /\ fs_dirs s' = fs_dirs s
    /\ fs_files s' = fs_files s
    /\ driver_view (trace s') = driver_view (trace s).
Proof.
  intros Hfs. induction fes as [|fe fes IH]; intros n s; simpl.
  - exists s. unfold ret. auto.
  - destruct (download_file_unwritable E output_dir filter_word fe n s Hfs)
      as [s1 [Hrun [Hd [Hf Hv]]]].
    unfold bind. rewrite Hrun, wanted_app, fetched_app.
    destruct (fetched E (wanted filter_word (ref_of_element fe)))
      as [|f fl].
    + destruct (IH n s1) as [s2 [Hrun2 [Hd2 [Hf2 Hv2]]]].
      exists s2. rewrite Hrun2. cbn [app].
      rewrite Hd2, Hf2, Hv2, Hd, Hf, Hv. auto.
    + exists s1. cbn [app]. auto.
Qed.

(** X10. An [OSError] of [open] is not caught by the [except] clauses
    of [extract_pdfs]: when no file can be opened for writing and the
    first page has at least one file that the filter keeps and whose
    fetch succeeds, the extraction of that page raises [OSError] and
    writes nothing, and the run stops with [OSError] on that page,
    without a summary. *)
Theorem unwritable_directory_aborts (E : Env) (start_url output_dir : str)
    (max_pages : option Z) (delay : Z) (filter_word : option str)
    (s : state) :
  (forall p, open_wb_ok E p = false) ->
  present output_dir s = true \/ makedirs_ok E output_dir = true ->
  page_downloads E start_url filter_word <> [] ->
  start_url <> [] -> within_budget max_pages 0 = true ->
  (exists s1,
     extract_pdfs E start_url output_dir filter_word s = (s1, Raise OSError)
     /\ fs_files s1 = fs_files s)
  /\ exists s',
       download_documents E start_url output_dir max_pages delay
         filter_word s = (s', Raise OSError)
       /\ fs_files s' = fs_files s
       /\ driver_view (trace s')
          = driver_view (trace s)
            ++ [Log INFO (ProcessingPage 1 max_pages);
                Log INFO (AccessingURL start_url)].
Proof.
  intros Hopen Hdir Hdl Hne Hb.
  assert (Hex : forall s0,
            present output_dir s0 = present output_dir s ->
            exists s1,
              extract_pdfs E start_url output_dir filter_word s0
              = (s1, Raise OSError)
              /\ fs_files s1 = fs_files s0
              /\ driver_view (trace s1)
                 = driver_view (trace s0)
                   ++ [Log INFO (AccessingURL start_url)]).
  { intros s0 Hp0. unfold extract_pdfs. unfold bind at 1.
    rewrite path_exists_present, Hp0.
    assert (Hpre : exists s2,
               (if negb (present output_dir s) then makedirs E output_dir
                else ret tt) s0 = (s2, Ok tt)
               /\ fs_files s2 = fs_files s0
               /\ driver_view (trace s2) = driver_view (trace s0)).
    { destruct (present output_dir s) eqn:Hp; cbn [negb].
      - exists s0. auto.
      - destruct Hdir as [Hdir|Hdir]; [discriminate|].
        unfold makedirs. rewrite Hdir. eexists. split; [reflexivity|].
        cbn [fs_files trace]. rewrite driver_view_app, app_nil_r. auto. }
    destruct Hpre as [s2 [Hrun2 [Hf2 Hv2]]].
    unfold bind at 1. rewrite Hrun2.
    unfold page_downloads, page_refs, fetch in Hdl.
    unfold try_except_RequestException, bind, log, emit, get,
      raise_for_status, raise, ret; simpl.
    destruct (requests_get E start_url) as [err|resp];
      [exfalso; apply Hdl; reflexivity|]. simpl.
    destruct (http_error resp) as [err|];
      [exfalso; apply Hdl; reflexivity|]. simpl.
    unfold file_references in Hdl.
    destruct (find_all _ (html_divs E (text resp))) as [|fe fes] eqn:Hall;
      [exfalso; apply Hdl; reflexivity|].
    match goal with
    | |- context [for_each _ _ 0 ?st] =>
        destruct (for_each_unwritable E output_dir filter_word (fe :: fes)
                    Hopen 0 st) as [s3 [Hrun3 [_ [Hf3 Hv3]]]]
    end.
    rewrite Hrun3.
    destruct (fetched E (wanted filter_word
                           (flat_map ref_of_element (fe :: fes))));
      [exfalso; apply Hdl; reflexivity|].
    eexists. split; [reflexivity|]. rewrite Hf3, Hv3. cbn [fs_files trace].
    rewrite !driver_view_app, Hv2, Hf2. split; [reflexivity|].
    rewrite <- app_assoc. reflexivity. }
  split.
  { destruct (Hex s eq_refl) as [s1 [H1 [H2 _]]]. eauto. }
  unfold download_documents. unfold bind at 1.
  rewrite while_loop_first by (auto using nonempty_true).
  unfold bind at 1, log, emit. cbv beta iota. unfold bind at 1.
  match goal with
  | |- context [extract_pdfs E start_url output_dir filter_word ?st] =>
      destruct (Hex st eq_refl) as [s1 [Hrun [Hf Hv]]]
  end.
  rewrite Hrun. eexists. split; [reflexivity|].
  cbn [fs_files trace] in *. split; [exact Hf|].
  rewrite Hv, driver_view_app, <- app_assoc. reflexivity.
Qed.

Lemma unwritable_directory_aborts_witness :
  let fw := Some (lit "Minutes") in
  let s := initial_state [lit "out"] [] in
  let run := download_documents readonly_env (listing "3") "out" None 1 fw s in
  (forall p, open_wb_ok readonly_env p = false)
  /\ (present "out" s = true \/ makedirs_ok readonly_env "out" = true)
  /\ page_downloads readonly_env (listing "3") fw <> []
  /\ listing "3" <> [] /\ within_budget None 0 = true
  /\ snd run = Raise OSError
  /\ fs_files (fst run) = [].
Proof.
  intros fw s run.
  assert (H1 : forall p, open_wb_ok readonly_env p = false)
    by (intros p; reflexivity).
  assert (H2 : present "out" s = true \/ makedirs_ok readonly_env "out" = true)
    by (left; reflexivity).
  assert (H3 : page_downloads readonly_env (listing "3") fw <> [])
    by (vm_compute; discriminate).
  assert (H4 : listing "3" <> []) by discriminate.
  assert (H5 : within_budget None 0 = true) by reflexivity.
  split; [exact H1|]. split; [exact H2|]. split; [exact H3|].
  split; [exact H4|]. split; [exact H5|].
  destruct (unwritable_directory_aborts readonly_env (listing "3") "out"
              None 1 fw s H1 H2 H3 H4 H5) as [_ [s' [Hrun [Hf _]]]].
  unfold run. rewrite Hrun. cbn [fst snd]. split; [reflexivity|exact Hf].
Defined.

(** ** Addresses without brackets *)




















(** The item index of the start address is the integer that [int]
    reads: from an item given as the fullwidth digit three, the run
    goes through three pages. *)
Example traversal_from_fullwidth_item :
  map (item_index sample_env)
    (accessed
       (trace
          (fst (download_documents sample_env (listing "%EF%BC%93") "out"
                  None 1 (Some (lit "Minutes")) (initial_state [] [])))))
  = [3; 2; 1].
Proof. vm_compute. reflexivity. Qed.

(** ** The empty filter word *)

Lemma bind_ext {A B : Type} (m : M A) (k1 k2 : A -> M B) (s : state) :
  (forall a s', k1 a s' = k2 a s') -> bind m k1 s = bind m k2 s.
Proof.
  intros H. unfold bind. destruct (m s) as [s1 [a|e|]]; auto.
Qed.

Lemma bind_ext2 {A B : Type} (m1 m2 : M A) (k1 k2 : A -> M B) (s : state) :
  m1 s = m2 s -> (forall a s', k1 a s' = k2 a s') ->
  bind m1 k1 s = bind m2 k2 s.
Proof.
  intros Hm H. unfold bind. rewrite Hm.
  destruct (m2 s) as [s1 [a|e|]]; auto.
Qed.

Lemma try_request_ext {A : Type} (b1 b2 : M A) (h : str -> M A) (s : state) :
  (forall s', b1 s' = b2 s') ->
  try_except_RequestException b1 h s = try_except_RequestException b2 h s.
Proof.
  intros H. unfold try_except_RequestException. rewrite H. reflexivity.
Qed.

Lemma for_each_ext {A B : Type} (l : list A) (b1 b2 : A -> B -> M B) :
  (forall x acc s, b1 x acc s = b2 x acc s) ->
  forall acc s, for_each l b1 acc s = for_each l b2 acc s.
Proof.
  intros H. induction l as [|x l IH]; intros acc s; cbn [for_each];
    [reflexivity|].
  unfold bind. rewrite H. destruct (b2 x acc s) as [s1 [a|e|]]; auto.
Qed.

Lemma download_file_empty_filter (E : Env) (output_dir : str)
    (fe : Div * list Div) (n : Z) (s : state) :
  download_file E output_dir (Some []) fe n s
  = download_file E output_dir None fe n s.
Proof. reflexivity. Qed.

Lemma extract_pdfs_empty_filter (E : Env) (url output_dir : str) (s : state) :
  extract_pdfs E url output_dir (Some []) s
  = extract_pdfs E url output_dir None s.
Proof.
  unfold extract_pdfs. apply bind_ext. intros present s1.
  apply bind_ext. intros _ s2. apply try_request_ext. intros s3.
  apply bind_ext. intros _ s4. apply bind_ext. intros r s5.
  apply bind_ext. intros _ s6. cbv zeta.
  destruct (find_all "fileName" (html_divs E (text r))); [reflexivity|].
  apply for_each_ext. intros x acc s7. apply download_file_empty_filter.
Qed.

Lemma while_loop_empty_filter (E : Env) (output_dir : str)
    (max_pages : option Z) (delay : Z) :
  forall (fuel : nat) (v : loop_vars) (s : state),
  while_loop fuel E output_dir max_pages delay (Some []) v s
  = while_loop fuel E output_dir max_pages delay None v s.
Proof.
  induction fuel as [|fuel IH]; intros v s; [reflexivity|].
  cbn [while_loop]. destruct (current_url v) as [u|]; [|reflexivity].
  destruct (nonempty u && _); [|reflexivity].
  apply bind_ext. intros _ s1.
  apply bind_ext2; [apply extract_pdfs_empty_filter|]. intros n s2.
  cbv zeta. apply bind_ext. intros next s3.
  apply bind_ext. intros _ s4. apply IH.
Qed.

(** X12. An empty filter word is no filter: with the empty string as
    [filter_word], [extract_pdfs] and [download_documents] behave, in
    every environment and from every state, exactly as with [None]; the
    same files are downloaded and the same records are logged. *)
Theorem empty_filter_is_no_filter (E : Env) (start_url output_dir : str)
    (max_pages : option Z) (delay : Z) (s : state) :
  download_documents E start_url output_dir max_pages delay (Some []) s
  = download_documents E start_url output_dir max_pages delay None s
  /\ (forall url s0,
        extract_pdfs E url output_dir (Some []) s0
        = extract_pdfs E url output_dir None s0)
  /\ forall label, should_download (Some []) label = true.
Proof.
  split; [|split].
  - unfold download_documents, bind.
    rewrite while_loop_empty_filter. reflexivity.
  - intros url s0. apply extract_pdfs_empty_filter.
  - reflexivity.
Qed.

(** ** Properties of [main] *)

(** X13. When the parsed [--max-pages] is 0, [main] announces that the
    number of pages is unlimited, yet the run processes no page: after
    the four announcements the only record is the summary with zero
    pages and zero files, no request is made and nothing is written. *)
Theorem main_zero_ceiling (E : Env) (args : Args) (dirs : list str)
    (files : list (str * str)) :
  args_max_pages args = Some 0 -> args_start_url args <> [] ->
  main E args dirs files
  = ([Announce (StartingDownload (args_start_url args));
      Announce (OutputDirectory (args_output args));
      Announce MaximumUnlimited;
      Announce (match filter_word_of args with
                | Some w => if nonempty w then FilterWord w
                            else NoFilenameFilter
                | None => NoFilenameFilter
                end);
      Run (Log INFO (DownloadComplete 0 0))],
     (mkState dirs files [Log INFO (DownloadComplete 0 0)], Ok PyNone)).
Proof.
  intros Hm Hne. unfold main. rewrite Hm. cbv zeta.
  assert (Hrun : download_documents E (args_start_url args)
                   (args_output args) (Some 0) (args_delay args)
                   (filter_word_of args) (initial_state dirs files)
                 = (mkState dirs files [Log INFO (DownloadComplete 0 0)],
                    Ok PyNone)).
  { unfold download_documents, bind.
    cbn [while_loop current_url page_count].
    change (0 <? 0) with false. rewrite andb_false_r.
    unfold ret at 1. rewrite report_run. unfold report_view.
    cbn [truthy_int Z.eqb negb andb current_url truthy_url].
    rewrite (nonempty_true _ Hne). reflexivity. }
  rewrite Hrun. reflexivity.
Qed.

Lemma main_zero_ceiling_witness :
  let args := mkArgs (listing "3") (lit "out") (Some 0) 1 (lit "Minutes")
                false in
  args_max_pages args = Some 0 /\ args_start_url args <> []
  /\ fst (main sample_env args [] [])
     = [Announce (StartingDownload (listing "3"));
        Announce (OutputDirectory (lit "out"));
        Announce MaximumUnlimited;
        Announce (FilterWord (lit "Minutes"));
        Run (Log INFO (DownloadComplete 0 0))].
Proof.
  intros args.
  assert (H1 : args_max_pages args = Some 0) by reflexivity.
  assert (H2 : args_start_url args <> []) by discriminate.
  split; [exact H1|]. split; [exact H2|].
  rewrite (main_zero_ceiling sample_env args [] [] H1 H2). reflexivity.
Defined.

(** X14. [--all-documents] makes [main] ignore the filter word, and an
    empty [--filter] has the same effect: for the same other arguments,
    in every environment, the run with [--all-documents] and any filter
    word and the run with an empty filter word and without
    [--all-documents] show the same records and events, leave the same
    state and end the same way. *)
Theorem main_all_documents (E : Env) (start_url output : str)
    (max_pages : option Z) (delay : Z) (w : str) (dirs : list str)
    (files : list (str * str)) :
  main E (mkArgs start_url output max_pages delay w true) dirs files
  = main E (mkArgs start_url output max_pages delay [] false) dirs files.
Proof.
  unfold main, filter_word_of.
  cbn [args_all_documents args_filter args_start_url args_output
       args_max_pages args_delay nonempty]. cbv zeta.
  assert (Hrun : download_documents E start_url output max_pages delay None
                   (initial_state dirs files)
                 = download_documents E start_url output max_pages delay
                     (Some []) (initial_state dirs files)).
  { unfold download_documents, bind.
    rewrite while_loop_empty_filter. reflexivity. }
  rewrite Hrun. reflexivity.
Qed.

(** ** Labels and identifiers of a page *)

Lemma find_all_In (c : str) (pre : list Div) (d : Div) (rest : list Div) :
  has_class c d = true -> In (d, rest) (find_all c (pre ++ d :: rest)).
Proof.
  intros Hd. induction pre as [|x pre IH]; cbn [app find_all].
  - rewrite Hd. left. reflexivity.
  - destruct (has_class c x); [right|]; exact IH.
Qed.

Lemma find_next_first (c : str) (mid : list Div) (e : Div) (post : list Div) :
  (forall x, In x mid -> has_class c x = false) -> has_class c e = true ->
  find_next c (mid ++ e :: post) = Some e.
Proof.
  intros Hmid He. unfold find_next.
  induction mid as [|x mid IH]; cbn [app find].
  - rewrite He. reflexivity.
  - rewrite (Hmid x (or_introl eq_refl)). apply IH.
    intros y Hy. apply Hmid. right. exact Hy.
Qed.

(** X15. The identifier used for a filename marker is that of the first
    identifier marker that follows it in the page, whatever lies between
    the two, other filename markers included: on a reliable file system,
    when the page at [url] is fetched and its markers are
    [pre ++ d :: mid ++ e :: post] with [d] a filename marker that the
    filter keeps, [e] an identifier marker and no identifier marker in
    [mid], the label of [d] is paired with the identifier of [e], and
    [extract_pdfs] requests the retrieval address of that identifier. *)
Theorem label_takes_next_identifier (E : Env) (url output_dir : str)
    (filter_word : option str) (s : state) (resp : Response)
    (pre mid post : list Div) (d e : Div) :
  fs_reliable E output_dir ->
  fetch E url = inr resp ->
  html_divs E (text resp) = pre ++ d :: mid ++ e :: post ->
  has_class "fileName" d = true -> has_class "pdfString" e = true ->
  (forall x, In x mid -> has_class "pdfString" x = false) ->
  should_download filter_word (strip (div_text d)) = true ->
  In (strip (div_text d), strip (div_text e)) (page_refs E url)
  /\ In (pdf_url_of (strip (div_text e)))
        (requests
           (trace (fst (extract_pdfs E url output_dir filter_word s)))).
Proof.
  intros Hfs Hfetch Hdivs Hd He Hmid Hw.
  assert (Hin : In (strip (div_text d), strip (div_text e))
                   (page_refs E url)).
  { unfold page_refs. rewrite Hfetch. unfold file_references.
    apply in_flat_map. exists (d, mid ++ e :: post). split.
    - rewrite Hdivs. apply find_all_In. exact Hd.
    - unfold ref_of_element. cbn [fst snd].
      rewrite (find_next_first _ _ _ _ Hmid He). left. reflexivity. }
  split; [exact Hin|].
  destruct (extract_pdfs_run E url output_dir filter_word s Hfs)
    as [s' [Hrun [_ [Hreq _]]]].
  rewrite Hrun. cbn [fst]. rewrite Hreq. apply in_or_app. right. right.
  apply (in_map (fun r => pdf_url_of (snd r)) _
           (strip (div_text d), strip (div_text e))).
  unfold wanted. apply filter_In. split; [exact Hin|exact Hw].
Qed.

Lemma odd_env_reliable (output_dir : str) : fs_reliable odd_env output_dir.
Proof. split; reflexivity. Qed.

Lemma label_takes_next_identifier_witness :
  let url := listing "20" in
  let d := marker "fileName" "Minutes A.pdf" in
  let d' := marker "fileName" "Minutes B.pdf" in
  let e := marker "pdfString" "DOC9" in
  let fw := Some (lit "Minutes") in
  let resp := mkResponse None (lit "page 20") [] in
  fs_reliable odd_env "out"
  /\ fetch odd_env url = inr resp
  /\ html_divs odd_env (text resp) = [] ++ d :: [d'] ++ e :: []
  /\ has_class "fileName" d = true /\ has_class "pdfString" e = true
  /\ (forall x, In x [d'] -> has_class "pdfString" x = false)
  /\ should_download fw (strip (div_text d)) = true
  /\ In (lit "Minutes A.pdf", lit "DOC9") (page_refs odd_env url)
  /\ In (lit "Minutes B.pdf", lit "DOC9") (page_refs odd_env url).
Proof.
  intros url d d' e fw resp.
  assert (H2 : fetch odd_env url = inr resp) by reflexivity.
  assert (H3 : html_divs odd_env (text resp) = [] ++ d :: [d'] ++ e :: [])
    by reflexivity.
  assert (H4 : has_class "fileName" d = true) by reflexivity.
  assert (H5 : has_class "pdfString" e = true) by reflexivity.
  assert (H6 : forall x, In x [d'] -> has_class "pdfString" x = false).
  { intros x [<-|[]]. reflexivity. }
  assert (H7 : should_download fw (strip (div_text d)) = true)
    by reflexivity.
  split; [apply odd_env_reliable|]. split; [exact H2|]. split; [exact H3|].
  split; [exact H4|]. split; [exact H5|]. split; [exact H6|].
  split; [exact H7|]. split.
  - exact (proj1 (label_takes_next_identifier odd_env url "out" fw
                    (initial_state [] []) resp [] [d'] [] d e
                    (odd_env_reliable "out") H2 H3 H4 H5 H6 H7)).
  - vm_compute. right. left. reflexivity.
Defined.

(** ** Names that the sanitization makes equal *)

Lemma path_join_clean_inj (dir a b : str) :
  clean_name a -> clean_name b ->
  path_join dir a = path_join dir b -> a = b.
Proof.
  intros Ha Hb. unfold path_join.
  destruct (clean_name_no_slash a Ha) as [-> _].
  destruct (clean_name_no_slash b Hb) as [-> _].
  destruct (negb (nonempty dir) || ends_with_slash dir); intros H.
  - exact (app_inv_head _ _ _ H).
  - apply app_inv_head in H. exact (app_inv_head _ _ _ H).
Qed.

Lemma find_app_none {A : Type} (f : A -> bool) (l1 l2 : list A) :
  (forall x, In x l1 -> f x = false) -> find f (l1 ++ l2) = find f l2.
Proof.
  intros H. induction l1 as [|x l1 IH]; [reflexivity|]. cbn [app find].
  rewrite (H x (or_introl eq_refl)). apply IH. intros y Hy. apply H.
  right. exact Hy.
Qed.

(** X16. Two files of a page whose names become equal by the
    sanitization are saved under the same path: on a reliable file
    system both are counted in what [extract_pdfs] returns, and
    afterwards the file at that path holds the content of the later
    one (the last of the page with that sanitized name); the content of
    the earlier one is lost. *)
Theorem colliding_names_overwrite (E : Env) (url output_dir : str)
    (filter_word : option str) (s : state)
    (before between after : list (str * str)) (l1 c1 l2 c2 : str) :
  fs_reliable E output_dir ->
  page_downloads E url filter_word
  = before ++ (l1, c1) :: between ++ (l2, c2) :: after ->
  clean_filename l1 = clean_filename l2 ->
  (forall x, In x after -> clean_filename (fst x) <> clean_filename l2) ->
  exists s',
    extract_pdfs E url output_dir filter_word s
    = (s', Ok (Z.of_nat (List.length before + 1 + List.length between + 1
                         + List.length after)))
    /\ read_file (path_join output_dir (clean_filename l1)) s' = Some c2.
Proof.
  intros Hfs Hpd Hsame Hafter.
  destruct (extract_pdfs_run E url output_dir filter_word s Hfs)
    as [s' [Hrun [Hf _]]].
  exists s'. split.
  - rewrite Hrun. unfold extract_count. rewrite Hpd. do 2 f_equal.
    rewrite !length_app. cbn [List.length]. rewrite !length_app.
    cbn [List.length]. lia.
  - unfold read_file. rewrite Hf, Hpd.
    replace (before ++ (l1, c1) :: between ++ (l2, c2) :: after)
      with ((before ++ (l1, c1) :: between) ++ (l2, c2) :: after)
      by (rewrite <- app_assoc; reflexivity).
    rewrite map_app, rev_app_distr. cbn [map List.rev].
    rewrite <- !app_assoc. rewrite find_app_none.
    + cbn [app find saved fst snd]. rewrite Hsame, str_eqb_refl.
      reflexivity.
    + intros x Hx. apply in_rev, in_map_iff in Hx as [y [<- Hy]].
      cbn [saved fst]. apply str_eqb_neq. rewrite Hsame. intros Heq.
      apply path_join_clean_inj in Heq;
        [|apply clean_filename_clean|apply clean_filename_clean].
      exact (Hafter y Hy (eq_sym Heq)).
Qed.

Lemma colliding_names_overwrite_witness :
  let url := listing "21" in
  let fw := Some (lit "Minutes") in
  let run := extract_pdfs odd_env url "out" fw (initial_state [] []) in
  fs_reliable odd_env "out"
  /\ page_downloads odd_env url fw
     = [] ++ (lit "Minutes 1/2.pdf", lit "first")
          :: [] ++ (lit "Minutes 1:2.pdf", lit "second") :: []
  /\ clean_filename (lit "Minutes 1/2.pdf")
     = clean_filename (lit "Minutes 1:2.pdf")
  /\ (forall x : str * str, In x [] ->
        clean_filename (fst x) <> clean_filename (lit "Minutes 1:2.pdf"))
  /\ snd run = Ok 2
  /\ read_file (lit "out/Minutes 1_2.pdf") (fst run) = Some (lit "second").
Proof.
  intros url fw run.
  assert (H2 : page_downloads odd_env url fw
               = [] ++ (lit "Minutes 1/2.pdf", lit "first")
                    :: [] ++ (lit "Minutes 1:2.pdf", lit "second") :: [])
    by (vm_compute; reflexivity).
  assert (H3 : clean_filename (lit "Minutes 1/2.pdf")
               = clean_filename (lit "Minutes 1:2.pdf")) by reflexivity.
  assert (H4 : forall x : str * str, In x [] ->
                 clean_filename (fst x)
                 <> clean_filename (lit "Minutes 1:2.pdf"))
    by (intros x []).
  split; [apply odd_env_reliable|]. split; [exact H2|]. split; [exact H3|].
  split; [exact H4|].
  destruct (colliding_names_overwrite odd_env url "out" fw
              (initial_state [] []) [] [] [] _ _ _ _
              (odd_env_reliable "out") H2 H3 H4) as [s' [Hrun Hread]].
  unfold run. rewrite Hrun. cbn [fst snd]. split; [reflexivity|exact Hread].
Defined.

(** ** Pages that give no file *)

Lemma for_each_no_identifier (E : Env) (output_dir : str)
    (filter_word : option str) (fes : list (Div * list Div)) :
  (forall fe, In fe fes -> find_next "pdfString" (snd fe) = None) ->
  forall (n : Z) (s : state),
  for_each fes (download_file E output_dir filter_word) n s
  = (mkState (fs_dirs s) (fs_files s)
       (trace s ++ skipped_records filter_word fes), Ok n).
Proof.
  induction fes as [|fe fes IH]; intros Hno n s.
  - cbn [for_each skipped_records flat_map]. rewrite app_nil_r.
    destruct s; reflexivity.
  - cbn [for_each]. unfold bind at 1. unfold download_file at 1.
    rewrite (Hno fe (or_introl eq_refl)).
    unfold skipped_records. cbn [flat_map]. fold (skipped_records filter_word fes).
    cbv zeta.
    destruct (should_download filter_word (strip (div_text (fst fe)))).
    + unfold ret at 1. rewrite IH by (intros x Hx; apply Hno; right; exact Hx).
      reflexivity.
    + unfold bind at 1, log, emit, ret at 1. cbv beta iota.
      rewrite IH by (intros x Hx; apply Hno; right; exact Hx).
      cbn [fs_dirs fs_files trace]. rewrite <- app_assoc. reflexivity.
Qed.

Lemma find_all_following (c : str) (divs : list Div) (fe : Div * list Div) :
  In fe (find_all c divs) -> incl (snd fe) divs.
Proof.
  induction divs as [|d r IH]; cbn [find_all]; [intros []|].
  destruct (has_class c d).
  - intros [<-|H]; [apply incl_tl, incl_refl|apply incl_tl, IH, H].
  - intros H. apply incl_tl, IH, H.
Qed.

(** X17. Two kinds of page give no file.  When the page has no filename
    marker, [extract_pdfs] logs that no files were found and returns 0.
    When the page has filename markers but no identifier marker at all,
    [extract_pdfs] also returns 0, but silently: beside the access to
    the page its only records are those of the labels that the filter
    leaves out; it makes no request but that of the page and writes
    nothing.  (The output directory exists, the page is fetched with
    success.) *)
Theorem pages_without_files (E : Env) (url output_dir : str)
    (filter_word : option str) (s : state) (resp : Response) :
  present output_dir s = true ->
  fetch E url = inr resp ->
  let divs := html_divs E (text resp) in
  (find_all "fileName" divs = [] ->
   extract_pdfs E url output_dir filter_word s
   = (mkState (fs_dirs s) (fs_files s)
        (trace s ++ [Log INFO (AccessingURL url); Get url;
                     Log INFO (NoFilesFound url)]), Ok 0))
  /\ (find_all "fileName" divs <> [] ->
      (forall d, In d divs -> has_class "pdfString" d = false) ->
      extract_pdfs E url output_dir filter_word s
      = (mkState (fs_dirs s) (fs_files s)
           (trace s ++ [Log INFO (AccessingURL url); Get url]
            ++ skipped_records filter_word (find_all "fileName" divs)),
         Ok 0)).
Proof.
  intros Hp Hfetch divs.
  assert (Hget : requests_get E url = inr resp /\ http_error resp = None).
  { unfold fetch in Hfetch. destruct (requests_get E url) as [e|r];
      [discriminate|]. destruct (http_error r) eqn:Hh; [discriminate|].
    injection Hfetch as <-. auto. }
  destruct Hget as [Hget Hstatus].
  assert (Hno : (forall x, In x divs -> has_class "pdfString" x = false) ->
                forall fe, In fe (find_all "fileName" divs) ->
                find_next "pdfString" (snd fe) = None).
  { intros Hall fe Hfe. unfold find_next.
    destruct (find (has_class "pdfString") (snd fe)) as [x|] eqn:Hx;
      [|reflexivity].
    apply find_some in Hx as [Hin Hc].
    rewrite (Hall x (find_all_following _ _ _ Hfe x Hin)) in Hc.
    discriminate. }
  split.
  - intros Hall. unfold extract_pdfs. unfold bind at 1.
    rewrite path_exists_present, Hp. cbn [negb].
    unfold bind at 1, ret at 1. cbv beta iota.
    unfold try_except_RequestException.
    unfold bind at 1, log at 1, emit. cbv beta iota.
    unfold bind at 1, get, bind at 1, emit. cbv beta iota.
    rewrite Hget. unfold ret at 1. cbv beta iota.
    unfold bind at 1, raise_for_status. rewrite Hstatus.
    unfold ret at 1. cbv beta iota zeta. fold divs. rewrite Hall.
    unfold bind, log, emit, ret. cbn [fs_dirs fs_files trace].
    rewrite <- !app_assoc. reflexivity.
  - intros Hall Hnone. unfold extract_pdfs. unfold bind at 1.
    rewrite path_exists_present, Hp. cbn [negb].
    unfold bind at 1, ret at 1. cbv beta iota.
    unfold try_except_RequestException.
    unfold bind at 1, log at 1, emit. cbv beta iota.
    unfold bind at 1, get, bind at 1, emit. cbv beta iota.
    rewrite Hget. unfold ret at 1. cbv beta iota.
    unfold bind at 1, raise_for_status. rewrite Hstatus.
    unfold ret at 1. cbv beta iota zeta. fold divs.
    destruct (find_all "fileName" divs) as [|fe fes] eqn:Hfa;
      [contradiction|].
    rewrite for_each_no_identifier by (apply (Hno Hnone)).
    cbn [fs_dirs fs_files trace]. rewrite <- !app_assoc. reflexivity.
Qed.


Lemma pages_without_files_witness :
  let fw := Some (lit "Minutes") in
  let s := initial_state [lit "out"] [] in
  let resp := mkResponse None (lit "page 22") [] in
  present "out" s = true
  /\ fetch odd_env (listing "22") = inr resp
  /\ find_all "fileName" (html_divs odd_env (text resp)) <> []
  /\ (forall d, In d (html_divs odd_env (text resp)) ->
        has_class "pdfString" d = false)
  /\ extract_pdfs odd_env (listing "22") "out" fw s
     = (mkState [lit "out"] []
          [Log INFO (AccessingURL (listing "22")); Get (listing "22");
           Log DEBUG (SkippingFile (lit "Minutes") (lit "Agenda C.pdf"))],
        Ok 0).
Proof.
  intros fw s resp.
  assert (H1 : present "out" s = true) by reflexivity.
  assert (H2 : fetch odd_env (listing "22") = inr resp) by reflexivity.
  assert (H3 : find_all "fileName" (html_divs odd_env (text resp)) <> [])
    by (vm_compute; discriminate).
  assert (H4 : forall d, In d (html_divs odd_env (text resp)) ->
                 has_class "pdfString" d = false).
  { intros d [<-|[<-|[]]]; reflexivity. }
  split; [exact H1|]. split; [exact H2|]. split; [exact H3|].
  split; [exact H4|].
  rewrite (proj2 (pages_without_files odd_env (listing "22") "out" fw s resp
                    H1 H2) H3 H4).
  reflexivity.
Defined.

(** ** The numbering of the pages *)

Lemma while_loop_numbering (E : Env) (output_dir : str)
    (max_pages : option Z) (delay : Z) (filter_word : option str) :
  forall (fuel : nat) (v : loop_vars) (s s' : state) (o : outcome loop_vars),
  while_loop fuel E output_dir max_pages delay filter_word v s = (s', o) ->
  exists t,
    trace s' = trace s ++ t
    /\ page_starts t
       = map (fun k => Log INFO (ProcessingPage k max_pages))
             (countup (List.length (page_starts t)) (page_count v + 1)).
Proof.
  assert (Hstop : forall (v : loop_vars) (s s' : state) o,
            ret v s = (s', o) ->
            exists t,
              trace s' = trace s ++ t
              /\ page_starts t
                 = map (fun k => Log INFO (ProcessingPage k max_pages))
                       (countup (List.length (page_starts t))
                          (page_count v + 1))).
  { intros v s s' o H. unfold ret in H. injection H as <- <-.
    exists []. rewrite app_nil_r. split; reflexivity. }
  assert (Hcut : forall (s : state) (t : list event) (pc : Z),
            page_starts t = [] ->
            exists t0,
              trace s ++ Log INFO (ProcessingPage (pc + 1) max_pages) :: t
              = trace s ++ t0
              /\ page_starts t0
                 = map (fun k => Log INFO (ProcessingPage k max_pages))
                       (countup (List.length (page_starts t0)) (pc + 1))).
  { intros s t pc Ht. eexists. split; [reflexivity|].
    unfold page_starts in *. cbn [filter is_page_start]. rewrite Ht.
    reflexivity. }
  induction fuel as [|fuel IH]; intros [cur pc tot] s s' o Hrun.
  - cbn [while_loop current_url page_count] in Hrun.
    destruct cur as [u|]; [|exact (Hstop _ _ _ _ Hrun)].
    destruct (nonempty u && _); [|exact (Hstop _ _ _ _ Hrun)].
    injection Hrun as <- <-. exists []. rewrite app_nil_r.
    split; reflexivity.
  - cbn [while_loop current_url page_count total_downloads] in Hrun.
    destruct cur as [u|]; [|exact (Hstop _ _ _ _ Hrun)].
    destruct (nonempty u && _); [|exact (Hstop _ _ _ _ Hrun)].
    cbn [page_count].
    unfold bind at 1 in Hrun. unfold log, emit in Hrun. cbv beta iota in Hrun.
    unfold bind at 1 in Hrun.
    match type of Hrun with
    | context [extract_pdfs E u output_dir filter_word ?st] =>
        destruct (extract_pdfs E u output_dir filter_word st)
          as [s1 o1] eqn:Hex
    end.
    destruct (extract_pdfs_effects _ _ _ _ _ _ _ Hex)
      as [t1 [T1 [_ [_ [_ [_ [S1 _]]]]]]].
    cbn [trace] in T1. rewrite <- app_assoc in T1. cbn [app] in T1.
    destruct o1 as [n|e|];
      [|injection Hrun as <- <-; rewrite T1; exact (Hcut s t1 pc S1) ..].
    unfold bind at 1 in Hrun. rewrite decrement_run in Hrun.
    destruct (decrement_logs_are_logs E u) as [_ S2].
    destruct (next_address E u) as [next|e|];
      [|injection Hrun as <- <-; cbn [trace]; rewrite T1, <- app_assoc;
        cbn [app];
        apply (Hcut s (t1 ++ decrement_logs E u) pc);
        unfold page_starts in *; rewrite filter_app, S1, S2; reflexivity ..].
    unfold bind at 1 in Hrun.
    set (s2 := mkState (fs_dirs s1) (fs_files s1)
                 (trace s1 ++ decrement_logs E u)) in *.
    assert (Hsl : exists t3,
              trace (fst ((if truthy_url next then sleep delay else ret tt)
                            s2)) = trace s2 ++ t3
              /\ page_starts t3 = []).
    { destruct (truthy_url next);
        [|exists []; rewrite app_nil_r; split; reflexivity].
      unfold sleep. destruct (delay <? 0).
      - exists []. rewrite app_nil_r. split; reflexivity.
      - exists [Sleep delay]. split; reflexivity. }
    destruct Hsl as [t3 [T3 S3]].
    destruct ((if truthy_url next then sleep delay else ret tt) s2)
      as [s3 o3]; cbn [fst] in T3.
    assert (T03 : trace s3
                  = trace s
                    ++ Log INFO (ProcessingPage (pc + 1) max_pages)
                       :: (t1 ++ decrement_logs E u ++ t3)).
    { rewrite T3. unfold s2. cbn [trace]. rewrite T1, <- !app_assoc.
      reflexivity. }
    assert (S03 : page_starts (t1 ++ decrement_logs E u ++ t3) = []).
    { unfold page_starts in *. rewrite !filter_app, S1, S2, S3.
      reflexivity. }
    destruct o3 as [[]|e|];
      [|injection Hrun as <- <-; rewrite T03; exact (Hcut s _ pc S03) ..].
    destruct (IH _ _ _ _ Hrun) as [t4 [T4 S4]]. cbn [page_count] in S4.
    exists (Log INFO (ProcessingPage (pc + 1) max_pages)
            :: (t1 ++ decrement_logs E u ++ t3) ++ t4).
    split.
    + rewrite T4, T03, <- app_assoc. reflexivity.
    + unfold page_starts in *. cbn [filter is_page_start].
      rewrite filter_app, S03. cbn [app List.length countup map].
      f_equal. exact S4.
Qed.

(** X18. In every environment the pages of a run are numbered as they
    start, consecutively from 1: the records that announce the pages
    are, in order, those of page 1, page 2 and so on, each with the same
    page ceiling, whatever happens inside the pages and however the run
    ends. *)
Theorem pages_are_numbered (E : Env) (start_url output_dir : str)
    (max_pages : option Z) (delay : Z) (filter_word : option str)
    (s : state) :
  let s' := fst (download_documents E start_url output_dir max_pages delay
                   filter_word s) in
  exists t,
    trace s' = trace s ++ t
    /\ page_starts t
       = map (fun k => Log INFO (ProcessingPage k max_pages))
             (countup (List.length (page_starts t)) 1).
Proof.
  intros s'. subst s'. unfold download_documents, bind.
  destruct (while_loop _ E output_dir max_pages delay filter_word _ s)
    as [s1 o1] eqn:Hloop.
  destruct (while_loop_numbering _ _ _ _ _ _ _ _ _ _ Hloop) as [t [Ht Hs]].
  cbn [page_count] in Hs.
  destruct o1 as [v|e|]; cbn [fst]; try (exists t; split; assumption).
  rewrite report_run. cbn [fst trace].
  destruct (report_view_logs max_pages v) as [_ Sr].
  exists (t ++ report_view max_pages v). split.
  - rewrite Ht, <- app_assoc. reflexivity.
  - unfold page_starts in *. rewrite filter_app, Sr, app_nil_r. exact Hs.
Qed.
